(** * ViewCounter-d: proxy pool, retry orchestrator and batch dispatcher

    A shallow embedding of [src/code.js].  The program is a Node.js script:
    a module with mutable top-level variables (the proxy pools, the set of
    used proxy identities, counters), asynchronous functions over them, and
    two run loops.  The embedding threads the module's variables through a
    state-and-exception monad; everything the script reaches outside itself
    (HTTP downloads, the Proxifly client, [Math.random], the browser) is an
    oracle of a [World], indexed by the number of earlier calls, and every
    call is recorded in a trace.

    The oracles always answer, and what they throw is an error object
    with a name and a message: the runs described are those in which
    every awaited call of the outside settles.  A download that never
    settles is the subject of [Net.fetchFromUrl] alone. *)

From stdpp Require Import gmap strings list pretty.
From Stdlib Require Import ZArith Lia Ascii.

Local Open Scope string_scope.
Local Open Scope list_scope.

(** ** Strings: the JavaScript string methods the script uses *)

Module Js.

(** [s.includes(needle)] *)
Fixpoint includes (needle s : string) : bool :=
  String.prefix needle s
  || match s with
     | EmptyString => false
     | String _ s' => includes needle s'
     end.

Definition is_ws (c : ascii) : bool :=
  let n := Ascii.nat_of_ascii c in
  (n =? 32)%nat || ((9 <=? n)%nat && (n <=? 13)%nat).

Fixpoint trim_left (s : string) : string :=
  match s with
  | String c s' => if is_ws c then trim_left s' else s
  | EmptyString => EmptyString
  end.

Fixpoint trim_right (s : string) : string :=
  match s with
  | String c s' =>
      let t := trim_right s' in
      if is_ws c && String.eqb t "" then "" else String c t
  | EmptyString => EmptyString
  end.

(** [s.trim()], on ASCII white space.  On ASCII text this is the method
    of the language, which beyond it strips further characters (U+00A0,
    U+FEFF and the other Unicode spaces). *)
Definition trim (s : string) : string := trim_right (trim_left s).

(** [s.split('\n')] *)
Fixpoint split_newline (s : string) : list string :=
  match s with
  | EmptyString => [""]
  | String c s' =>
      if Ascii.eqb c "010" then "" :: split_newline s'
      else match split_newline s' with
           | l :: ls => String c l :: ls
           | [] => [String c ""]
           end
  end.

Definition is_digit (c : ascii) : bool :=
  let n := Ascii.nat_of_ascii c in (48 <=? n)%nat && (n <=? 57)%nat.

Fixpoint take_digits (s : string) : string :=
  match s with
  | String c s' => if is_digit c then String c (take_digits s') else ""
  | EmptyString => ""
  end.

Fixpoint drop_prefix (p s : string) : option string :=
  match p, s with
  | EmptyString, _ => Some s
  | String a p', String b s' => if Ascii.eqb a b then drop_prefix p' s' else None
  | String _ _, EmptyString => None
  end.

(** [s.match(/HTTP (\d+)/)?.[1]]: the digits of the leftmost "HTTP "
    that is followed by at least one digit. *)
Fixpoint match_http_status (s : string) : option string :=
  let here :=
    match drop_prefix "HTTP " s with
    | Some rest => match take_digits rest with
                   | EmptyString => None
                   | d => Some d
                   end
    | None => None
    end in
  match here with
  | Some d => Some d
  | None => match s with
            | String _ s' => match_http_status s'
            | EmptyString => None
            end
  end.

(** Truthiness of an optional string / number property. *)
Definition truthy_str (o : option string) : bool :=
  match o with Some s => negb (String.eqb s "") | None => false end.

Definition truthy_num (o : option Z) : bool :=
  match o with Some n => negb (n =? 0)%Z | None => false end.

(** [Math.random()] is a double in [0,1): a numerator over 2^53.
    [Math.floor(Math.random() * len)], the product taken exactly; the
    language rounds it to a double first, which can move the index by
    one and leaves it below [len]. *)
Definition random_index (r : N) (len : nat) : nat :=
  N.to_nat (((r mod 2 ^ 53) * N.of_nat len) / 2 ^ 53).

End Js.

(** ** Data *)

(** A proxy object: the properties the script reads or writes.  The free
    list builds [{ipPort, protocol, source}]; Proxifly objects carry
    whatever the API sent. *)
Record Proxy := mkProxy {
  ipPort : option string;
  ip : option string;
  port : option Z;
  protocol : option string;
  source : option string;
  country : option string;
  username : option string;
  password : option string
}.

(** A thrown value: [error.name] and [error.message].  Every [throw] of
    the file throws [new Error(...)]; what the libraries throw is taken
    to be an error object as well. *)
Record Error := mkError { name : string; message : string }.

(** [new Error(msg)] *)
Definition new_Error (msg : string) : Error := mkError "Error" msg.

Inductive ProxyMode := ModeNone | ModeDirect | ModeProxifly | ModeFreeProxyList.

Record FreeSource := mkSource {
  url : string;
  src_protocol : string;
  priority : nat
}.

(** The [CONFIG] object.  [proxyMode] is its only property the script
    assigns at run time, so its current value lives in the module state and
    the configuration holds the value written in the file. *)
Record Config := mkConfig {
  maxRetries : nat;
  backoffDelays : list Z;
  maxConcurrent : nat;
  totalRequests : nat;
  timeout : Z;
  proxyMode0 : ProxyMode;
  direct_protocol : string;
  direct_host : string;
  direct_port : Z;
  proxifly_apiKey : string;
  proxifly_protocol : string;
  proxifly_rotateProxies : bool;
  free_sources : list FreeSource;
  free_rotateProxies : bool
}.

Definition MAX_FETCH_ATTEMPTS : nat := 5.

(** The configuration as written in the file. *)
Definition CONFIG (apiKey : string) : Config := {|
  maxRetries := 5;
  backoffDelays := [1000; 3000; 5000; 9000; 15000]%Z;
  maxConcurrent := 5;
  totalRequests := 250;
  timeout := 160000;
  proxyMode0 := ModeFreeProxyList;
  direct_protocol := "socks5";
  direct_host := "127.0.0.1";
  direct_port := 9150;
  proxifly_apiKey := apiKey;
  proxifly_protocol := "https";
  proxifly_rotateProxies := true;
  free_sources :=
    [ mkSource "https://cdn.jsdelivr.net/gh/proxifly/free-proxy-list@main/proxies/protocols/socks5/data.txt" "socks5" 1;
      mkSource "https://cdn.jsdelivr.net/gh/proxifly/free-proxy-list@main/proxies/all/data.txt" "http" 2 ];
  free_rotateProxies := true
|}.

(** ** The outside world *)

(** [fetchFromUrl(url)] once it has settled: it resolved with the body
    or rejected. *)
Inductive NetReply := NetData (body : string) | NetError (e : Error).

(** [proxifly.getProxy(options)]: an array, a single object, something
    else, or a rejection. *)
Inductive ApiReply :=
| ApiArray (ps : list Proxy)
| ApiObject (p : Proxy)
| ApiOther
| ApiError (e : Error).

(** What the page yielded once navigation succeeded. *)
Record Payload := mkPayload {
  title : string;
  finalUrl : string;
  contentLength : nat;
  viewCount : string
}.

Inductive PageOutcome := PageThrows (e : Error) | PageDone (p : Payload).

(** One browser session, from [puppeteer.launch] on: some awaited call
    rejects before a response is seen, [page.goto] resolves with no
    response, or it resolves with a response of some status and the rest
    of the visit follows. *)
Inductive VisitOutcome :=
| VisitThrows (e : Error)
| VisitNoResponse
| VisitResponse (status : Z) (rest : PageOutcome).

Record World := mkWorld {
  http_get : nat -> string -> NetReply;
  proxifly_getProxy : nat -> ApiReply;
  math_random : nat -> N;
  browser_visit : nat -> option string -> string -> VisitOutcome
}.

(** Observable effects, in program order. *)
Inductive Event :=
| EvHttpGet (u : string)
| EvApiCall
| EvLaunch (proxy : option Proxy) (proxy_server : option string)
| EvSleep (ms : option Z)
| EvPause (r : N)
| EvWorker (workerId : nat).

(** The tables of [getRandomUserAgent] and [getRandomViewport]. *)
Definition modernUserAgents : list string :=
  [ "Mozilla/5.0 (Windows NT 10.0; Win64; x64) AppleWebKit/537.36 (KHTML, like Gecko) Chrome/123.0.0.0 Safari/537.36";
    "Mozilla/5.0 (Windows NT 10.0; Win64; x64) AppleWebKit/537.36 (KHTML, like Gecko) Chrome/122.0.0.0 Safari/537.36";
    "Mozilla/5.0 (Windows NT 10.0; Win64; x64) AppleWebKit/537.36 (KHTML, like Gecko) Chrome/121.0.0.0 Safari/537.36";
    "Mozilla/5.0 (Windows NT 10.0; Win64; x64) AppleWebKit/537.36 (KHTML, like Gecko) Chrome/120.0.0.0 Safari/537.36";
    "Mozilla/5.0 (Windows NT 10.0; Win64; x64) AppleWebKit/537.36 (KHTML, like Gecko) Chrome/119.0.0.0 Safari/537.36";
    "Mozilla/5.0 (Windows NT 10.0; Win64; x64) AppleWebKit/537.36 (KHTML, like Gecko) Chrome/118.0.0.0 Safari/537.36";
    "Mozilla/5.0 (Windows NT 10.0; Win64; x64) AppleWebKit/537.36 (KHTML, like Gecko) Chrome/117.0.0.0 Safari/537.36";
    "Mozilla/5.0 (Windows NT 11.0; Win64; x64) AppleWebKit/537.36 (KHTML, like Gecko) Chrome/123.0.0.0 Safari/537.36";
    "Mozilla/5.0 (Windows NT 11.0; Win64; x64) AppleWebKit/537.36 (KHTML, like Gecko) Chrome/122.0.0.0 Safari/537.36";
    "Mozilla/5.0 (Windows NT 11.0; Win64; x64) AppleWebKit/537.36 (KHTML, like Gecko) Chrome/121.0.0.0 Safari/537.36";
    "Mozilla/5.0 (Macintosh; Intel Mac OS X 10_15_7) AppleWebKit/537.36 (KHTML, like Gecko) Chrome/123.0.0.0 Safari/537.36";
    "Mozilla/5.0 (Macintosh; Intel Mac OS X 10_15_7) AppleWebKit/537.36 (KHTML, like Gecko) Chrome/122.0.0.0 Safari/537.36";
    "Mozilla/5.0 (Macintosh; Intel Mac OS X 10_15_7) AppleWebKit/537.36 (KHTML, like Gecko) Chrome/121.0.0.0 Safari/537.36";
    "Mozilla/5.0 (Macintosh; Intel Mac OS X 10_15_7) AppleWebKit/537.36 (KHTML, like Gecko) Chrome/120.0.0.0 Safari/537.36";
    "Mozilla/5.0 (Macintosh; Intel Mac OS X 13_5_1) AppleWebKit/537.36 (KHTML, like Gecko) Chrome/123.0.0.0 Safari/537.36";
    "Mozilla/5.0 (Macintosh; Intel Mac OS X 13_5_1) AppleWebKit/537.36 (KHTML, like Gecko) Chrome/122.0.0.0 Safari/537.36";
    "Mozilla/5.0 (Macintosh; Intel Mac OS X 14_0) AppleWebKit/537.36 (KHTML, like Gecko) Chrome/123.0.0.0 Safari/537.36";
    "Mozilla/5.0 (Macintosh; Intel Mac OS X 14_0) AppleWebKit/537.36 (KHTML, like Gecko) Chrome/122.0.0.0 Safari/537.36";
    "Mozilla/5.0 (Macintosh; ARM Mac OS X 10_15_7) AppleWebKit/537.36 (KHTML, like Gecko) Chrome/123.0.0.0 Safari/537.36";
    "Mozilla/5.0 (Macintosh; ARM Mac OS X 13_5_1) AppleWebKit/537.36 (KHTML, like Gecko) Chrome/122.0.0.0 Safari/537.36";
    "Mozilla/5.0 (Macintosh; ARM Mac OS X 14_0) AppleWebKit/537.36 (KHTML, like Gecko) Chrome/121.0.0.0 Safari/537.36";
    "Mozilla/5.0 (X11; Linux x86_64) AppleWebKit/537.36 (KHTML, like Gecko) Chrome/123.0.0.0 Safari/537.36";
    "Mozilla/5.0 (X11; Linux x86_64) AppleWebKit/537.36 (KHTML, like Gecko) Chrome/122.0.0.0 Safari/537.36";
    "Mozilla/5.0 (X11; Linux x86_64) AppleWebKit/537.36 (KHTML, like Gecko) Chrome/121.0.0.0 Safari/537.36";
    "Mozilla/5.0 (X11; Linux x86_64) AppleWebKit/537.36 (KHTML, like Gecko) Chrome/120.0.0.0 Safari/537.36";
    "Mozilla/5.0 (X11; Ubuntu; Linux x86_64) AppleWebKit/537.36 (KHTML, like Gecko) Chrome/123.0.0.0 Safari/537.36";
    "Mozilla/5.0 (X11; Ubuntu; Linux x86_64) AppleWebKit/537.36 (KHTML, like Gecko) Chrome/122.0.0.0 Safari/537.36";
    "Mozilla/5.0 (X11; Fedora; Linux x86_64) AppleWebKit/537.36 (KHTML, like Gecko) Chrome/123.0.0.0 Safari/537.36";
    "Mozilla/5.0 (Windows NT 10.0; Win64; x64) AppleWebKit/537.36 (KHTML, like Gecko) Chrome/122.0.6261.112 Safari/537.36";
    "Mozilla/5.0 (Windows NT 10.0; Win64; x64) AppleWebKit/537.36 (KHTML, like Gecko) Chrome/121.0.6167.85 Safari/537.36";
    "Mozilla/5.0 (Macintosh; Intel Mac OS X 10_15_7) AppleWebKit/537.36 (KHTML, like Gecko) Chrome/122.0.6261.94 Safari/537.36";
    "Mozilla/5.0 (X11; Linux x86_64) AppleWebKit/537.36 (KHTML, like Gecko) Chrome/122.0.6261.111 Safari/537.36" ].

Definition viewports : list (nat * nat) :=
  [ (1920, 1080); (1920, 1200); (2560, 1440); (3840, 2160); (2560, 1600); (3440, 1440); (2560, 1080); (1366, 768); (1440, 900); (1536, 864); (1600, 900); (1680, 1050); (1280, 800); (1280, 720); (1440, 900); (1680, 1050); (1920, 1200); (2560, 1600); (1728, 1117); (1600, 1200); (1280, 1024); (1024, 768); (1280, 960) ]%nat.

(** The object [scrapeWithRetry] resolves with, and a worker posts. *)
Inductive Result :=
| Succeeded (status : Z) (payload : Payload) (userAgent : string) (viewport : nat * nat)
| Failed (error : string) (status : option string) (userAgent : option string).

Definition success (r : Result) : bool :=
  match r with Succeeded _ _ _ _ => true | Failed _ _ _ => false end.

(** The object returned by [getProxyStats]. *)
Record ProxyStats := mkProxyStats {
  totalUsed : nat;
  remainingInPool : Z;
  currentPoolSize : nat;
  mode : ProxyMode
}.

(** The [results] object of the two run loops. *)
Record Results := mkResults {
  successful : nat;
  failed : nat;
  total : nat;
  userAgents : gset string;
  viewportsSeen : gset string
}.

(** ** The module instance and the monad *)

(** The top-level [let] variables of the module, with [CONFIG.proxyMode]. *)
Record Vars := mkVars {
  proxyMode : ProxyMode;
  proxiflyProxies : list Proxy;
  proxiflyCurrentIndex : nat;
  freeProxyList : list Proxy;
  freeProxyIndex : nat;
  usedProxies : gset string;
  proxyFetchAttempts : nat;
  currentSourceIndex : nat
}.

(** How often each oracle has been called, and what has been observed. *)
Record Env := mkEnv {
  httpCalls : nat;
  apiCalls : nat;
  randomCalls : nat;
  launches : nat;
  trace : list Event
}.

Record St := mkSt { vars : Vars; env : Env }.

(** The variables of a freshly loaded module. *)
Definition fresh_vars (cfg : Config) : Vars := {|
  proxyMode := proxyMode0 cfg;
  proxiflyProxies := [];
  proxiflyCurrentIndex := 0;
  freeProxyList := [];
  freeProxyIndex := 0;
  usedProxies := ∅;
  proxyFetchAttempts := 0;
  currentSourceIndex := 0
|}.

Definition fresh_env : Env := mkEnv 0 0 0 0 [].

Definition set_proxyMode (m : ProxyMode) (v : Vars) : Vars :=
  mkVars m (proxiflyProxies v) (proxiflyCurrentIndex v) (freeProxyList v)
         (freeProxyIndex v) (usedProxies v) (proxyFetchAttempts v) (currentSourceIndex v).
Definition set_proxiflyProxies (l : list Proxy) (v : Vars) : Vars :=
  mkVars (proxyMode v) l (proxiflyCurrentIndex v) (freeProxyList v)
         (freeProxyIndex v) (usedProxies v) (proxyFetchAttempts v) (currentSourceIndex v).
Definition set_proxiflyCurrentIndex (i : nat) (v : Vars) : Vars :=
  mkVars (proxyMode v) (proxiflyProxies v) i (freeProxyList v)
         (freeProxyIndex v) (usedProxies v) (proxyFetchAttempts v) (currentSourceIndex v).
Definition set_freeProxyList (l : list Proxy) (v : Vars) : Vars :=
  mkVars (proxyMode v) (proxiflyProxies v) (proxiflyCurrentIndex v) l
         (freeProxyIndex v) (usedProxies v) (proxyFetchAttempts v) (currentSourceIndex v).
Definition set_freeProxyIndex (i : nat) (v : Vars) : Vars :=
  mkVars (proxyMode v) (proxiflyProxies v) (proxiflyCurrentIndex v) (freeProxyList v)
         i (usedProxies v) (proxyFetchAttempts v) (currentSourceIndex v).
Definition set_usedProxies (u : gset string) (v : Vars) : Vars :=
  mkVars (proxyMode v) (proxiflyProxies v) (proxiflyCurrentIndex v) (freeProxyList v)
         (freeProxyIndex v) u (proxyFetchAttempts v) (currentSourceIndex v).
Definition set_proxyFetchAttempts (n : nat) (v : Vars) : Vars :=
  mkVars (proxyMode v) (proxiflyProxies v) (proxiflyCurrentIndex v) (freeProxyList v)
         (freeProxyIndex v) (usedProxies v) n (currentSourceIndex v).
Definition set_currentSourceIndex (i : nat) (v : Vars) : Vars :=
  mkVars (proxyMode v) (proxiflyProxies v) (proxiflyCurrentIndex v) (freeProxyList v)
         (freeProxyIndex v) (usedProxies v) (proxyFetchAttempts v) i.

(** A computation returns, throws, or (for the functions that recurse on
    a counter) runs out of the bound the embedding gave it. *)
Inductive Outcome (A : Type) : Type :=
| Ret (a : A)
| Throw (e : Error)
| Stuck.
Arguments Ret {A} a.
Arguments Throw {A} e.
Arguments Stuck {A}.

Definition M (A : Type) : Type := St -> Outcome A * St.

Definition ret {A} (a : A) : M A := fun st => (Ret a, st).
Definition throw {A} (e : Error) : M A := fun st => (Throw e, st).
Definition stuck {A} : M A := fun st => (Stuck, st).

Definition bind {A B} (m : M A) (k : A -> M B) : M B :=
  fun st =>
    match m st with
    | (Ret a, st') => k a st'
    | (Throw e, st') => (Throw e, st')
    | (Stuck, st') => (Stuck, st')
    end.

(** [try { m } catch (error) { h error }] *)
Definition try_catch {A} (m : M A) (h : Error -> M A) : M A :=
  fun st =>
    match m st with
    | (Throw e, st') => h e st'
    | r => r
    end.

#[global] Instance M_ret : MRet M := @ret.
#[global] Instance M_bind : MBind M := fun A B k m => bind m k.

Definition read {A} (f : Vars -> A) : M A := fun st => (Ret (f (vars st)), st).
Definition write (f : Vars -> Vars) : M unit :=
  fun st => (Ret tt, mkSt (f (vars st)) (env st)).
Definition emit (e : Event) : M unit :=
  fun st =>
    let n := env st in
    (Ret tt, mkSt (vars st)
                  (mkEnv (httpCalls n) (apiCalls n) (randomCalls n) (launches n)
                         (trace n ++ [e]))).

Section Program.

Variable cfg : Config.
Variable w : World.

(** [Math.random()] *)
Definition Math_random : M N :=
  fun st =>
    let n := env st in
    (Ret (math_random w (randomCalls n)),
     mkSt (vars st)
          (mkEnv (httpCalls n) (apiCalls n) (S (randomCalls n)) (launches n) (trace n))).

(** [await fetchFromUrl(url)], for a download that settles *)
Definition fetchFromUrl (u : string) : M string :=
  fun st =>
    let n := env st in
    let st' := mkSt (vars st)
                    (mkEnv (S (httpCalls n)) (apiCalls n) (randomCalls n) (launches n)
                           (trace n ++ [EvHttpGet u])) in
    match http_get w (httpCalls n) u with
    | NetData body => (Ret body, st')
    | NetError e => (Throw e, st')
    end.

(** [await proxifly.getProxy(options)] *)
Definition Proxifly_getProxy : M ApiReply :=
  fun st =>
    let n := env st in
    (Ret (proxifly_getProxy w (apiCalls n)),
     mkSt (vars st)
          (mkEnv (httpCalls n) (S (apiCalls n)) (randomCalls n) (launches n)
                 (trace n ++ [EvApiCall]))).

(** ** Proxy identity *)

Definition dquote : string := String "034" EmptyString.

Definition json_string (key : string) (v : option string) : list string :=
  match v with
  | Some s => [dquote +:+ key +:+ dquote +:+ ":" +:+ dquote +:+ s +:+ dquote]
  | None => []
  end.

Definition json_number (key : string) (v : option Z) : list string :=
  match v with
  | Some n => [dquote +:+ key +:+ dquote +:+ ":" +:+ pretty n]
  | None => []
  end.

(** [JSON.stringify(proxy)], on the properties of [Proxy]: one member
    per property that is present, in declaration order, strings not
    escaped.  An object of the API may carry further properties, and in
    another order. *)
Definition JSON_stringify (p : Proxy) : string :=
  "{" +:+ String.concat ","
    (json_string "ipPort" (ipPort p) ++ json_string "ip" (ip p)
     ++ json_number "port" (port p)
     ++ json_string "protocol" (protocol p) ++ json_string "source" (source p)
     ++ json_string "country" (country p) ++ json_string "username" (username p)
     ++ json_string "password" (password p)) +:+ "}".

Definition getProxyId (proxy : Proxy) : string :=
  if Js.truthy_str (ipPort proxy) then default "" (ipPort proxy)
  else if Js.truthy_str (ip proxy) && Js.truthy_num (port proxy)
       then default "" (ip proxy) +:+ ":" +:+ pretty (default 0%Z (port proxy))
       else JSON_stringify proxy.

(** [list.filter(proxy => !usedProxies.has(getProxyId(proxy)))] *)
Definition filter_unused (used : gset string) (l : list Proxy) : list Proxy :=
  List.filter (fun proxy => negb (bool_decide (getProxyId proxy ∈ used))) l.

(** ** Fetchers *)

Definition parse_lines (data : string) : list string :=
  List.filter (fun line => negb (Nat.eqb (String.length line) 0))
              (map Js.trim (Js.split_newline data)).

(** [fetchFreeProxyList(sourceIndex)].  The recursion is on the sources
    from [sourceIndex] on: [rest] is [sources.slice(sourceIndex)], empty
    exactly when [sourceIndex >= sources.length].  Both recursive calls
    sit where the source has them: the one for an all-used list inside
    the [try], so that what it throws reaches this frame's [catch]. *)
Fixpoint fetchFreeProxyList_from (rest : list FreeSource) (sourceIndex : nat)
  : M (list Proxy) :=
  match rest with
  | [] => throw (new_Error "All free proxy list sources exhausted")
  | source :: rest' =>
      try_catch
        (data ← fetchFromUrl (url source);
         let lines := parse_lines data in
         let proxies :=
           map (fun ipPort => mkProxy (Some ipPort) None None
                                      (Some (src_protocol source))
                                      (Some (url source)) None None None) lines in
         used ← read usedProxies;
         let newProxies := filter_unused used proxies in
         if (length newProxies =? 0)%nat
         then fetchFreeProxyList_from rest' (sourceIndex + 1)
         else
           write (set_freeProxyList newProxies);;
           write (set_freeProxyIndex 0);;
           write (set_currentSourceIndex sourceIndex);;
           write (set_proxyFetchAttempts 0);;
           read freeProxyList)
        (fun error =>
           if (sourceIndex + 1 <? length (free_sources cfg))%nat
           then fetchFreeProxyList_from rest' (sourceIndex + 1)
           else throw (new_Error ("Failed to fetch proxies from all sources: "
                                  +:+ message error)))
  end.

Definition fetchFreeProxyList (sourceIndex : nat) : M (list Proxy) :=
  fetchFreeProxyList_from (drop sourceIndex (free_sources cfg)) sourceIndex.

Definition TypeError_undefined (prop : string) : Error :=
  mkError "TypeError"
          ("Cannot read properties of undefined (reading '" +:+ prop +:+ "')").

(** Reading [getProxyId(proxy)] where [proxy] may be [undefined]. *)
Definition getProxyId_of (o : option Proxy) : M (Proxy * string) :=
  match o with
  | Some proxy => ret (proxy, getProxyId proxy)
  | None => throw (TypeError_undefined "ipPort")
  end.

(** [list.splice(i, 1)] *)
Definition splice1 {A} (i : nat) (l : list A) : list A := take i l ++ drop (S i) l.

Definition unable_msg : string :=
  "Unable to fetch new unique proxies after " +:+ pretty MAX_FETCH_ATTEMPTS
  +:+ " attempts".

(** [getNextFreeProxy()], first half: "check if we need to fetch more
    proxies". *)
Definition refill_freeProxyList : M unit :=
  pool ← read freeProxyList;
  idx ← read freeProxyIndex;
  if (length pool =? 0)%nat || (length pool <=? idx)%nat then
    n ← read proxyFetchAttempts;
    write (set_proxyFetchAttempts (n + 1));;
    if (MAX_FETCH_ATTEMPTS <=? n + 1)%nat then throw (new_Error unable_msg)
    else
      try_catch
        (cur ← read currentSourceIndex;
         match length (free_sources cfg) with
         | 0 => throw (TypeError_undefined "url")
         | S _ =>
             let nextSourceIndex := (cur + 1) mod length (free_sources cfg) in
             fetchFreeProxyList nextSourceIndex;; ret tt
         end)
        (fun error =>
           throw (new_Error ("Failed to fetch new proxies: " +:+ message error)))
  else ret tt.

(** [getNextFreeProxy()], second half: "get the next proxy" and "mark
    this proxy as used". *)
Definition take_freeProxy : M Proxy :=
  pool ← read freeProxyList;
  idx ← read freeProxyIndex;
  proxy ←
    (if free_rotateProxies cfg then
       write (set_freeProxyIndex (idx + 1));;
       ret (pool !! idx)
     else
       r ← Math_random;
       let randomIndex := Js.random_index r (length pool) in
       write (set_freeProxyList (splice1 randomIndex pool));;
       ret (pool !! randomIndex));
  '(proxy, proxyId) ← getProxyId_of proxy;
  used ← read usedProxies;
  write (set_usedProxies ({[proxyId]} ∪ used));;
  ret proxy.

(** [getNextFreeProxy()] *)
Definition getNextFreeProxy : M Proxy :=
  refill_freeProxyList;; take_freeProxy.

Definition api_key_msg : string :=
  "Proxifly API key is required when proxyMode is set to " +:+ dquote
  +:+ "proxifly" +:+ dquote.

(** [fetchProxiflyProxies(filterUsed)].  It calls itself only after
    raising [proxyFetchAttempts] to a value below [MAX_FETCH_ATTEMPTS];
    [fuel] bounds the depth. *)
Fixpoint fetchProxiflyProxies_fuel (fuel : nat) (filterUsed : bool) : M (list Proxy) :=
  match fuel with
  | 0 => stuck
  | S fuel' =>
      if String.eqb (proxifly_apiKey cfg) "" then throw (new_Error api_key_msg)
      else
        try_catch
          (result ← Proxifly_getProxy;
           newProxies ←
             match result with
             | ApiArray ps => ret ps
             | ApiObject p => ret [p]
             | ApiOther => throw (new_Error "Unexpected response format from Proxifly API")
             | ApiError e => throw e
             end;
           (if (length newProxies =? 0)%nat
            then throw (new_Error "No proxies returned from Proxifly API")
            else ret tt);;
           used ← read usedProxies;
           let newProxies :=
             if filterUsed then filter_unused used newProxies else newProxies in
           if (length newProxies =? 0)%nat then
             n ← read proxyFetchAttempts;
             write (set_proxyFetchAttempts (n + 1));;
             if (MAX_FETCH_ATTEMPTS <=? n + 1)%nat
             then throw (new_Error (unable_msg +:+
                           ". All available proxies may have been used."))
             else fetchProxiflyProxies_fuel fuel' filterUsed
           else
             write (set_proxiflyProxies newProxies);;
             write (set_proxiflyCurrentIndex 0);;
             write (set_proxyFetchAttempts 0);;
             read proxiflyProxies)
          (fun error => throw error)
  end.

Definition fetchProxiflyProxies (filterUsed : bool) : M (list Proxy) :=
  fetchProxiflyProxies_fuel MAX_FETCH_ATTEMPTS filterUsed.

(** [getNextProxiflyProxy()], first half: "check if we need to fetch
    more proxies". *)
Definition refill_proxiflyProxies : M unit :=
  pool ← read proxiflyProxies;
  idx ← read proxiflyCurrentIndex;
  if (length pool =? 0)%nat || (length pool <=? idx)%nat then
    try_catch
      (fetchProxiflyProxies true;; ret tt)
      (fun error =>
         throw (new_Error ("Failed to fetch new proxies: " +:+ message error)))
  else ret tt.

(** [getNextProxiflyProxy()], second half: "get the next proxy" and
    "mark this proxy as used". *)
Definition take_proxiflyProxy : M Proxy :=
  pool ← read proxiflyProxies;
  idx ← read proxiflyCurrentIndex;
  proxy ←
    (if proxifly_rotateProxies cfg then
       write (set_proxiflyCurrentIndex (idx + 1));;
       ret (pool !! idx)
     else
       r ← Math_random;
       let randomIndex := Js.random_index r (length pool) in
       write (set_proxiflyProxies (splice1 randomIndex pool));;
       ret (pool !! randomIndex));
  '(proxy, proxyId) ← getProxyId_of proxy;
  used ← read usedProxies;
  write (set_usedProxies ({[proxyId]} ∪ used));;
  ret proxy.

(** [getNextProxiflyProxy()] *)
Definition getNextProxiflyProxy : M Proxy :=
  refill_proxiflyProxies;; take_proxiflyProxy.

(** [getProxyStats()] *)
Definition getProxyStats : M ProxyStats :=
  mode ← read proxyMode;
  used ← read usedProxies;
  match mode with
  | ModeProxifly =>
      pool ← read proxiflyProxies;
      idx ← read proxiflyCurrentIndex;
      ret (mkProxyStats (size used) (Z.of_nat (length pool) - Z.of_nat idx)
                        (length pool) mode)
  | ModeFreeProxyList =>
      pool ← read freeProxyList;
      idx ← read freeProxyIndex;
      ret (mkProxyStats (size used) (Z.of_nat (length pool) - Z.of_nat idx)
                        (length pool) mode)
  | _ => ret (mkProxyStats 0 0 0 mode)
  end.

(** ** The visit *)

(** [getBrowserOptions(proxyConfig)], reduced to its [--proxy-server]
    argument.  Only the direct and the Proxifly mode add one. *)
Definition getBrowserOptions (proxyConfig : option Proxy) : M (option string) :=
  mode ← read proxyMode;
  match mode, proxyConfig with
  | ModeDirect, _ =>
      ret (Some (direct_protocol cfg +:+ "://" +:+ direct_host cfg +:+ ":"
                 +:+ pretty (direct_port cfg)))
  | ModeProxifly, Some proxyConfig =>
      ipPort ←
        (if Js.truthy_str (ipPort proxyConfig) then ret (default "" (ipPort proxyConfig))
         else if Js.truthy_str (ip proxyConfig) && Js.truthy_num (port proxyConfig)
              then ret (default "" (ip proxyConfig) +:+ ":"
                        +:+ pretty (default 0%Z (port proxyConfig)))
              else throw (new_Error "Invalid proxy format from Proxifly"));
      let protocol :=
        if Js.truthy_str (protocol proxyConfig) then default "" (protocol proxyConfig)
        else if negb (String.eqb (proxifly_protocol cfg) "") then proxifly_protocol cfg
             else "http" in
      ret (Some (protocol +:+ "://" +:+ ipPort))
  | _, _ => ret None
  end.

Definition getRandomUserAgent : M string :=
  r ← Math_random;
  ret (default "" (modernUserAgents !! Js.random_index r (length modernUserAgents))).

Definition getRandomViewport : M (nat * nat) :=
  r ← Math_random;
  ret (default (0, 0) (viewports !! Js.random_index r (length viewports))).

(** [puppeteer.launch(options)] and everything done with the browser up
    to the page metrics: the task executor. *)
Definition visit (currentProxy : option Proxy) (proxy_server : option string)
           (u : string) : M VisitOutcome :=
  fun st =>
    let n := env st in
    (Ret (browser_visit w (launches n) proxy_server u),
     mkSt (vars st)
          (mkEnv (httpCalls n) (apiCalls n) (randomCalls n) (S (launches n))
                 (trace n ++ [EvLaunch currentProxy proxy_server]))).

(** The [try] block of [scrapeWithRetry], from the proxy on. *)
Definition attempt (u : string) (retryCount : nat)
           (userAgent : string) (viewport : nat * nat) : M Result :=
  mode ← read proxyMode;
  currentProxy ←
    match mode with
    | ModeProxifly => p ← getNextProxiflyProxy; ret (Some p)
    | ModeFreeProxyList => p ← getNextFreeProxy; ret (Some p)
    | _ => ret None
    end;
  options ← getBrowserOptions currentProxy;
  outcome ← visit currentProxy options u;
  match outcome with
  | VisitThrows e => throw e
  | VisitNoResponse => throw (new_Error "No response received")
  | VisitResponse status rest =>
      if (400 <=? status)%Z then
        if ((status =? 429)%Z || (500 <=? status)%Z)
           && (retryCount <? maxRetries cfg)%nat
        then throw (new_Error ("HTTP " +:+ pretty status +:+ " - Retry available"))
        else throw (new_Error ("HTTP " +:+ pretty status))
      else
        match rest with
        | PageThrows e => throw e
        | PageDone payload => ret (Succeeded status payload userAgent viewport)
        end
  end.

(** The three tests of the [catch] block of [scrapeWithRetry]. *)
Definition isRateLimit (error : Error) : bool := Js.includes "429" (message error).

Definition isServerError (error : Error) : bool := Js.includes "5" (message error).

Definition isTimeout (error : Error) : bool := String.eqb (name error) "TimeoutError".

(** The kinds of failure the [catch] block is ready to retry. *)
Definition retryable_kind (error : Error) : bool :=
  isRateLimit error || isServerError error || isTimeout error.

(** The test of the [catch] block: retry or give up. *)
Definition retries (error : Error) (retryCount : nat) : bool :=
  retryable_kind error && (retryCount <? maxRetries cfg)%nat.

(** [scrapeWithRetry(url, retryCount)].  The user agent and the viewport
    are drawn first; neither draw can throw and no entry of the tables
    is empty (the test [!userAgent] never fires), so the draws are taken
    out of the [try] and the [catch] block sees the agent that was
    drawn.  The function calls itself with [retryCount + 1] while
    [retryCount < CONFIG.maxRetries]; [fuel] bounds that. *)
Fixpoint scrapeWithRetry_fuel (fuel : nat) (u : string) (retryCount : nat) : M Result :=
  match fuel with
  | 0 => stuck
  | S fuel' =>
      userAgent ← getRandomUserAgent;
      viewport ← getRandomViewport;
      try_catch
        (attempt u retryCount userAgent viewport)
        (fun error =>
           if retries error retryCount then
             let delay := backoffDelays cfg !! retryCount in
             emit (EvSleep delay);;
             scrapeWithRetry_fuel fuel' u (retryCount + 1)
           else
             ret (Failed (message error)
                         (Some (default "Unknown" (Js.match_http_status (message error))))
                         (Some userAgent)))
  end.

Definition scrapeWithRetry (u : string) (retryCount : nat) : M Result :=
  scrapeWithRetry_fuel (S (maxRetries cfg - retryCount)) u retryCount.

(** ** The dispatchers *)

(** [for (const x of l) s = body(x, s)] *)
Fixpoint for_each {A S : Type} (l : list A) (body : A -> S -> M S) (s : S) : M S :=
  match l with
  | [] => ret s
  | a :: l' => s' ← body a s; for_each l' body s'
  end.

Definition results0 : Results := mkResults 0 0 0 ∅ ∅.

(** What both run loops do with a unit's result. *)
Definition record_result (results : Results) (result : Result) : Results :=
  match result with
  | Succeeded _ _ userAgent viewport =>
      mkResults (successful results + 1) (failed results) (total results + 1)
                (if negb (String.eqb userAgent "")
                 then {[userAgent]} ∪ userAgents results else userAgents results)
                ({[pretty viewport.1 +:+ "x" +:+ pretty viewport.2]}
                   ∪ viewportsSeen results)
  | Failed _ _ _ =>
      mkResults (successful results) (failed results + 1) (total results + 1)
                (userAgents results) (viewportsSeen results)
  end.

(** The start of both run functions: fetch a first pool; when that
    throws, set [CONFIG.proxyMode = 'none'] and go on. *)
Definition fetch_on_start : M unit :=
  mode ← read proxyMode;
  match mode with
  | ModeProxifly =>
      try_catch (fetchProxiflyProxies true;; ret tt)
                (fun error => write (set_proxyMode ModeNone))
  | ModeFreeProxyList =>
      try_catch (fetchFreeProxyList 0;; ret tt)
                (fun error => write (set_proxyMode ModeNone))
  | _ => ret tt
  end.

(** One turn of the loop of [runSequentialScraping]. *)
Definition sequential_iteration (u : string) (i : nat) (results : Results) : M Results :=
  result ← scrapeWithRetry u 0;
  let results := record_result results result in
  (if (i <? totalRequests cfg - 1)%nat
   then r ← Math_random; emit (EvPause r)
   else ret tt);;
  ret results.

(** [runSequentialScraping()] *)
Definition runSequentialScraping (u : string) : M Results :=
  fetch_on_start;;
  for_each (seq 0 (totalRequests cfg)) (sequential_iteration u) results0.

(** The body run by a worker thread: [if (!isMainThread) { ... }]. *)
Definition worker_main (u : string) (workerId : nat) : M (nat * Result) :=
  try_catch
    (result ← scrapeWithRetry u 0; ret (workerId, result))
    (fun error => ret (workerId, Failed (message error) None None)).

(** What the main thread hears from a worker. *)
Inductive WorkerEvent :=
| OnMessage (workerId : nat) (result : Result)
| OnError (e : Error).

(** [new Worker(__filename, { workerData })] run to its end.  A worker
    thread loads the file anew: it starts from the variables of a fresh
    module, not from those of the thread that created it, and what it
    assigns stays its own.  Only the outside world is common. *)
Definition run_worker (u : string) (workerId : nat) : M WorkerEvent :=
  fun st =>
    match worker_main u workerId (mkSt (fresh_vars cfg) (env st)) with
    | (Ret (id, result), st') => (Ret (OnMessage id result), mkSt (vars st) (env st'))
    | (Throw e, st') => (Ret (OnError e), mkSt (vars st) (env st'))
    | (Stuck, st') => (Stuck, mkSt (vars st) (env st'))
    end.

Definition on_worker_event (results : Results) (ev : WorkerEvent) : Results :=
  match ev with
  | OnMessage _ result => record_result results result
  | OnError _ =>
      mkResults (successful results) (failed results + 1) (total results + 1)
                (userAgents results) (viewportsSeen results)
  end.

(** [Math.ceil(CONFIG.totalRequests / CONFIG.maxConcurrent)] *)
Definition num_batches : nat :=
  (totalRequests cfg + maxConcurrent cfg - 1) / maxConcurrent cfg.

(** The inner [for] of a batch, with its [break]: the worker ids it
    creates.  [n] counts the iterations left, [i] is the loop variable. *)
Fixpoint batch_ids (n i batch : nat) : list nat :=
  match n with
  | 0 => []
  | S n' =>
      let requestNumber := batch * maxConcurrent cfg + i in
      if (totalRequests cfg <=? requestNumber)%nat then []
      else (requestNumber + 1) :: batch_ids n' (S i) batch
  end.

Definition batch_workers (batch : nat) : list nat :=
  batch_ids (maxConcurrent cfg) 0 batch.

(** The batches of a run, as lists of worker ids. *)
Definition batches : list (list nat) := map batch_workers (seq 0 num_batches).

(** [new Worker(...)] as the main thread sees it at creation. *)
Definition create_worker (id : nat) (_ : unit) : M unit := emit (EvWorker id).

(** The promise of one worker settles: its message or error is folded
    into [results]. *)
Definition await_worker (u : string) (id : nat) (results : Results) : M Results :=
  ev ← run_worker u id;
  ret (on_worker_event results ev).

(** One turn of the outer loop of [runConcurrentScraping]: create the
    workers of the batch, wait for all of them, pause.  The workers run
    side by side; the embedding runs them to their end in the order of
    creation. *)
Definition run_batch (u : string) (batch : nat) (results : Results) : M Results :=
  let ids := batch_workers batch in
  for_each ids create_worker tt;;
  results ← for_each ids (await_worker u) results;
  (if (batch <? num_batches - 1)%nat
   then r ← Math_random; emit (EvPause r)
   else ret tt);;
  ret results.

(** [runConcurrentScraping()].  With [maxConcurrent = 0] and work to do
    the batch count is [Infinity] and the loop has no end. *)
Definition runConcurrentScraping (u : string) : M Results :=
  fetch_on_start;;
  if (maxConcurrent cfg =? 0)%nat && negb (totalRequests cfg =? 0)%nat then stuck
  else for_each (seq 0 num_batches) (run_batch u) results0.

(** The main thread: [if (isMainThread) { ... }]. *)
Definition main (u : string) : M unit :=
  try_catch
    (if (1 <? maxConcurrent cfg)%nat
     then runConcurrentScraping u;; ret tt
     else runSequentialScraping u;; ret tt)
    (fun error => ret tt).

End Program.

(** Running a computation on a freshly loaded module. *)
Definition run {A} (cfg : Config) (m : M A) : Outcome A * St :=
  m (mkSt (fresh_vars cfg) fresh_env).

(** What a computation returned, if it returned. *)
Definition value {A} (o : Outcome A) : option A :=
  match o with Ret a => Some a | _ => None end.

(** ** Reading a trace *)

Definition tr (st : St) : list Event := trace (env st).

(** The delays slept between attempts, in order. *)
Definition sleeps (evs : list Event) : list (option Z) :=
  omap (fun e => match e with EvSleep d => Some d | _ => None end) evs.

(** The proxy records the browser launches were prepared with. *)
Definition launched (evs : list Event) : list (option Proxy) :=
  omap (fun e => match e with EvLaunch p _ => Some p | _ => None end) evs.

(** The [--proxy-server] arguments of the launches. *)
Definition proxy_servers (evs : list Event) : list (option string) :=
  omap (fun e => match e with EvLaunch _ s => Some s | _ => None end) evs.

(** The ids of the worker threads created. *)
Definition workers (evs : list Event) : list nat :=
  omap (fun e => match e with EvWorker id => Some id | _ => None end) evs.

(** The list URLs downloaded and the number of Proxifly calls. *)
Definition http_gets (evs : list Event) : list string :=
  omap (fun e => match e with EvHttpGet u => Some u | _ => None end) evs.

Definition api_calls (evs : list Event) : nat :=
  length (List.filter (fun e => match e with EvApiCall => true | _ => false end) evs).

(** The identities of the proxies a list of launches used. *)
Definition identities (l : list (option Proxy)) : list string :=
  omap (fun o => getProxyId <$> o) l.

(** Every unit recorded in [results] is counted as a success or as a
    failure. *)
Definition counted (results : Results) : Prop :=
  successful results + failed results = total results.

Definition timeout_error : Error :=
  mkError "TimeoutError" "Navigation timeout of 160000 ms exceeded".

(** The identities of a pool, and a pool none of whose records has been
    handed out or occurs twice. *)
Definition ids (l : list Proxy) : list string := getProxyId <$> l.

Definition pool_fresh (used : gset string) (l : list Proxy) : Prop :=
  NoDup (ids l) /\ forall p, p ∈ l -> getProxyId p ∉ used.

(** A world in which no listing names a proxy twice. *)
Definition listings_distinct (w : World) : Prop :=
  (forall n u body, http_get w n u = NetData body -> NoDup (parse_lines body))
  /\ (forall n ps, proxifly_getProxy w n = ApiArray ps -> NoDup (ids ps)).

(** The state of the free-list pool between two calls: what is left of
    the pool is unused and distinct, and under random consumption the
    cursor rests at 0. *)
Definition free_inv (cfg : Config) (v : Vars) : Prop :=
  pool_fresh (usedProxies v) (drop (freeProxyIndex v) (freeProxyList v))
  /\ (free_rotateProxies cfg = false -> freeProxyIndex v = 0).

(** What a call of the next-proxy operation does to the registry: a
    returned record was not in it and is added; otherwise nothing. *)
Definition handed_out (st : St) (r : Outcome Proxy * St) : Prop :=
  match r.1 with
  | Ret p =>
      (getProxyId p ∉ usedProxies (vars st))
      /\ usedProxies (vars r.2) = {[getProxyId p]} ∪ usedProxies (vars st)
  | _ => usedProxies (vars r.2) = usedProxies (vars st)
  end.

Definition proxifly_inv (cfg : Config) (v : Vars) : Prop :=
  pool_fresh (usedProxies v) (drop (proxiflyCurrentIndex v) (proxiflyProxies v))
  /\ (proxifly_rotateProxies cfg = false -> proxiflyCurrentIndex v = 0).

(** What a fetch from the free lists leaves behind: the registry as it
    was, and either a new, non-empty pool of unused, distinct records
    with the cursor at its start, or the pool and the cursor as they
    were. *)
Definition fetched_free (st : St) (r : Outcome (list Proxy) * St) : Prop :=
  usedProxies (vars r.2) = usedProxies (vars st)
  /\ match r.1 with
     | Ret _ =>
         freeProxyIndex (vars r.2) = 0
         /\ freeProxyList (vars r.2) <> []
         /\ pool_fresh (usedProxies (vars st)) (freeProxyList (vars r.2))
     | _ =>
         freeProxyList (vars r.2) = freeProxyList (vars st)
         /\ freeProxyIndex (vars r.2) = freeProxyIndex (vars st)
     end.

Definition fetched_proxifly (st : St) (r : Outcome (list Proxy) * St) : Prop :=
  usedProxies (vars r.2) = usedProxies (vars st)
  /\ match r.1 with
     | Ret _ =>
         proxiflyCurrentIndex (vars r.2) = 0
         /\ proxiflyProxies (vars r.2) <> []
         /\ pool_fresh (usedProxies (vars st)) (proxiflyProxies (vars r.2))
     | _ =>
         proxiflyProxies (vars r.2) = proxiflyProxies (vars st)
         /\ proxiflyCurrentIndex (vars r.2) = proxiflyCurrentIndex (vars st)
     end.

(** [n] calls of a next-proxy operation in a row, the caller catching
    what is thrown: the records that were returned. *)
Fixpoint draws (next : M Proxy) (n : nat) : M (list Proxy) :=
  match n with
  | 0 => ret []
  | S n' =>
      r ← try_catch (p ← next; ret (Some p)) (fun _ => ret None);
      rest ← draws next n';
      ret (match r with Some p => p :: rest | None => rest end)
  end.

(** ** Judgements on computations *)

(** [m] only appends to the trace, and what it appends satisfies [P]. *)
Definition emits {A} (P : Event -> Prop) (m : M A) : Prop :=
  forall st, exists evs, tr (m st).2 = tr st ++ evs /\ Forall P evs.

(** [m] never runs out of its bound. *)
Definition terminates {A} (m : M A) : Prop :=
  forall st, (m st).1 <> Stuck.

(** [m] leaves the reading [f] of the module variables as it was. *)
Definition preserves {A C} (f : Vars -> C) (m : M A) : Prop :=
  forall st, f (vars (m st).2) = f (vars st).

Definition is_net (e : Event) : Prop :=
  match e with EvHttpGet _ | EvApiCall => True | _ => False end.

(** What one attempt may add to the trace: calls of the fetchers and at
    most browser launches, never a sleep. *)
Definition is_attempt_event (e : Event) : Prop :=
  match e with EvHttpGet _ | EvApiCall | EvLaunch _ _ => True | _ => False end.

Definition is_unit_event (e : Event) : Prop :=
  match e with
  | EvHttpGet _ | EvApiCall | EvLaunch _ _ | EvSleep _ => True
  | _ => False
  end.

(** What a unit may add to the trace when it uses no proxy: launches
    without a proxy record and without a proxy server, and pauses. *)
Definition is_direct_event (e : Event) : Prop :=
  match e with
  | EvLaunch None None | EvSleep _ | EvPause _ => True
  | _ => False
  end.

(** ** The vocabulary of the properties *)

Section Properties.

Variable cfg : Config.
Variable w : World.

(** The first [n] attempts of a unit, counted from [retryCount], each
    throw an error of a retryable kind. *)
Fixpoint every_attempt_retryable (n : nat) (u : string) (retryCount : nat) (st : St)
  : bool :=
  match n with
  | 0 => true
  | S n' =>
      match (userAgent ← getRandomUserAgent w;
             viewport ← getRandomViewport w;
             attempt cfg w u retryCount userAgent viewport) st with
      | (Throw e, st') =>
          retryable_kind e
          && every_attempt_retryable n' u (retryCount + 1)
               (emit (EvSleep (backoffDelays cfg !! retryCount)) st').2
      | _ => false
      end
  end.

(** A configuration that validation would have to refuse: a backoff
    schedule shorter than [maxRetries], or authenticated pooling without
    a credential. *)
Definition config_invalid : Prop :=
  length (backoffDelays cfg) < maxRetries cfg
  \/ (proxyMode0 cfg = ModeProxifly /\ proxifly_apiKey cfg = "").

Definition is_dispatch (e : Event) : bool :=
  match e with EvLaunch _ _ | EvWorker _ => true | _ => false end.

(** A run that stopped with an error before any unit was dispatched. *)
Definition aborted_before_dispatch {A} (r : Outcome A * St) : Prop :=
  (exists e, r.1 = Throw e) /\ List.filter is_dispatch (tr r.2) = [].

(** Fail-fast validation, as a property of a run from a fresh module. *)
Definition fails_fast (u : string) : Prop :=
  config_invalid ->
  aborted_before_dispatch (run cfg (runSequentialScraping cfg w u))
  /\ aborted_before_dispatch (run cfg (runConcurrentScraping cfg w u)).

End Properties.

(** ** Scenarios *)

Definition nl : string := String "010" EmptyString.

Definition two_sources : list FreeSource :=
  [ mkSource "https://lists.example/socks5.txt" "socks5" 1;
    mkSource "https://lists.example/all.txt" "http" 2 ].

Definition page : Payload := mkPayload "Video" "https://www.youtube.com/watch" 1000 "1 view".

(** A world in which every list download yields [body], Proxifly answers
    [api], [Math.random] is 0 and every visit ends as [outcome]. *)
Definition constant_world (body : NetReply) (api : ApiReply) (outcome : VisitOutcome)
  : World :=
  mkWorld (fun _ _ => body) (fun _ => api) (fun _ => 0%N) (fun _ _ _ => outcome).

Definition scenario (retries_ : nat) (delays : list Z) (concurrent requests : nat)
           (mode : ProxyMode) (apiKey : string) : Config := {|
  maxRetries := retries_;
  backoffDelays := delays;
  maxConcurrent := concurrent;
  totalRequests := requests;
  timeout := 160000;
  proxyMode0 := mode;
  direct_protocol := "socks5";
  direct_host := "127.0.0.1";
  direct_port := 9150;
  proxifly_apiKey := apiKey;
  proxifly_protocol := "https";
  proxifly_rotateProxies := true;
  free_sources := two_sources;
  free_rotateProxies := true
|}.

(** Every visit is answered with [status] and, below 400, goes well. *)
Definition status_world (body : NetReply) (api : ApiReply) (status : Z) : World :=
  constant_world body api (VisitResponse status (PageDone page)).

Definition schedule : list Z := [1000; 3000; 5000; 9000; 15000]%Z.

Definition video : string := "https://www.youtube.com/watch?v=P6mvufMyHQQ".

(** Two retries and an empty backoff schedule. *)
Definition short_schedule : Config := scenario 2 [] 1 1 ModeNone "".

(** Authenticated pooling without an API key. *)
Definition missing_credential : Config := scenario 5 schedule 1 2 ModeProxifly "".

(** A list that names the same proxy on two lines. *)
Definition duplicate_listing : string :=
  "1.1.1.1:1080" +:+ nl +:+ "1.1.1.1:1080" +:+ nl.

(** A list of a single proxy, and one of two. *)
Definition single_listing : string := "1.1.1.1:1080" +:+ nl.

Definition two_listing : string :=
  "1.1.1.1:1080" +:+ nl +:+ "2.2.2.2:1080" +:+ nl.

Definition not_found : Error :=
  new_Error "getaddrinfo ENOTFOUND lists.example".

(** Free-list pooling, one unit after the other, and two at a time. *)
Definition free_sequential (requests : nat) : Config :=
  scenario 5 schedule 1 requests ModeFreeProxyList "".

Definition free_concurrent : Config := scenario 5 schedule 2 2 ModeFreeProxyList "".

(** Authenticated pooling with a key. *)
Definition proxifly_sequential : Config := scenario 5 schedule 1 2 ModeProxifly "key".

Definition api_proxy : Proxy :=
  mkProxy None (Some "3.3.3.3") (Some 8080%Z) (Some "http") None (Some "GB") None None.

(** What follows [getNextFreeProxy] when the caller catches: the message
    of the error, or nothing. *)
Definition message_of {A} (m : M A) : M (option string) :=
  try_catch (m;; ret None) (fun error => ret (Some (message error))).

(** [m] run and observed: the message of the error it threw, if any, and
    how much [count] grew over it. *)
Definition observed {A} (count : list Event -> nat) (m : M A) : M (option string * nat) :=
  before ← (fun st => (Ret (count (tr st)), st));
  r ← message_of m;
  after ← (fun st => (Ret (count (tr st)), st));
  ret (r, after - before).

(** [n] calls of [m] in a row, each observed. *)
Fixpoint repeatedly {A} (count : list Event -> nat) (m : M A) (n : nat)
  : M (list (option string * nat)) :=
  match n with
  | 0 => ret []
  | S n' =>
      r ← observed count m;
      rest ← repeatedly count m n';
      ret (r :: rest)
  end.

Definition downloads (evs : list Event) : nat := length (http_gets evs).

(** Two proxies taken one after the other, by identity. *)
Definition two_draws (next : M Proxy) : M (string * string) :=
  p ← next;
  q ← next;
  ret (getProxyId p, getProxyId q).

(** The same configuration with random consumption in both pools. *)
Definition random_consumption (cfg : Config) : Config := {|
  maxRetries := maxRetries cfg;
  backoffDelays := backoffDelays cfg;
  maxConcurrent := maxConcurrent cfg;
  totalRequests := totalRequests cfg;
  timeout := timeout cfg;
  proxyMode0 := proxyMode0 cfg;
  direct_protocol := direct_protocol cfg;
  direct_host := direct_host cfg;
  direct_port := direct_port cfg;
  proxifly_apiKey := proxifly_apiKey cfg;
  proxifly_protocol := proxifly_protocol cfg;
  proxifly_rotateProxies := false;
  free_sources := free_sources cfg;
  free_rotateProxies := false
|}.

Definition sources_exhausted_msg : string :=
  "Failed to fetch new proxies: Failed to fetch proxies from all sources: "
  +:+ "All free proxy list sources exhausted".

(** Every visit times out. *)
Definition timeout_world : World :=
  constant_world (NetData "") ApiOther (VisitThrows timeout_error).

(** ** The download, one level down *)

(** [fetchFromUrl] above takes the outcome of a whole download from the
    world.  Here the world answers the single calls of [client.get], and
    what the function does itself is embedded: the choice of the client,
    the redirects, the status test and the assembly of the body. *)
Module Net.

Inductive Client := Https | Http.

(** What a call of [client.get(url, callback)] comes to: it throws or
    emits [error] before any response, or the callback is run on a
    response, which then delivers its chunks and ends. *)
Inductive Reply :=
| Fails (e : Error)
| Response (statusCode : Z) (location : option string) (chunks : list string).

Record Request := mkRequest { client : Client; target : string }.

(** [url.startsWith('https') ? https : http] *)
Definition client_of (url : string) : Client :=
  if String.prefix "https" url then Https else Http.

(** Where a reply sends the function next, if anywhere. *)
Definition next_hop (r : Reply) : option string :=
  match r with
  | Response statusCode (Some next) _ =>
      if (statusCode =? 301)%Z || (statusCode =? 302)%Z then Some next else None
  | _ => None
  end.

(** How the promise settles on a reply that sends it nowhere. *)
Definition settle (r : Reply) : Outcome string :=
  match r with
  | Fails e => Throw e
  | Response statusCode _ chunks =>
      if (statusCode =? 301)%Z || (statusCode =? 302)%Z
      then Throw (TypeError_undefined "startsWith")
      else if negb (statusCode =? 200)%Z
           then Throw (new_Error ("HTTP " +:+ pretty statusCode))
           else Ret (String.concat "" chunks)
  end.

Section Fetch.

(** The [n]-th call of [client.get] of the run. *)
Variable get : nat -> Client -> string -> Reply.

(** [fetchFromUrl(url)] with the requests it makes.  [url] is absent
    when a redirect carried no [Location] header.  The function calls
    itself on every redirect and has no bound of its own; [fuel] is the
    depth the embedding follows. *)
Fixpoint fetchFromUrl (fuel n : nat) (url : option string) : Outcome string * list Request :=
  match fuel with
  | 0 => (Stuck, [])
  | S fuel' =>
      match url with
      | None => (Throw (TypeError_undefined "startsWith"), [])
      | Some url =>
          let client := client_of url in
          let '(o, requests) :=
            match get n client url with
            | Fails e => (Throw e, [])
            | Response statusCode location chunks =>
                if (statusCode =? 301)%Z || (statusCode =? 302)%Z
                then fetchFromUrl fuel' (S n) location
                else if negb (statusCode =? 200)%Z
                     then (Throw (new_Error ("HTTP " +:+ pretty statusCode)), [])
                     else (Ret (String.concat "" chunks), [])
            end in
          (o, mkRequest client url :: requests)
      end
  end.

(** From the [n]-th call on, [url] is redirected along [hops]. *)
Fixpoint redirected (n : nat) (url : string) (hops : list string) : Prop :=
  match hops with
  | [] => True
  | next :: hops' =>
      (exists statusCode chunks,
         get n (client_of url) url = Response statusCode (Some next) chunks
         /\ ((statusCode = 301)%Z \/ (statusCode = 302)%Z))
      /\ redirected (S n) next hops'
  end.

End Fetch.

End Net.

(** ** The vocabulary of the further properties *)

(** Every character of [s] satisfies [p]. *)
Fixpoint every (p : ascii -> bool) (s : string) : bool :=
  match s with
  | EmptyString => true
  | String c s' => p c && every p s'
  end.

(** A visible ASCII character: none of the characters [trim] strips. *)
Definition visible (c : ascii) : bool :=
  let n := Ascii.nat_of_ascii c in (33 <=? n)%nat && (n <=? 126)%nat.

(** White space only, and visible characters only. *)
Definition blank (s : string) : bool := every Js.is_ws s.

Definition solid (s : string) : bool := every visible s.

(** The record [fetchFreeProxyList] builds for a line of a source's
    list. *)
Definition listed (source : FreeSource) (line : string) : Proxy :=
  mkProxy (Some line) None None (Some (src_protocol source)) (Some (url source))
          None None None.

(** A download of one of the list URLs of [sources]. *)
Definition downloads_from (sources : list FreeSource) (e : Event) : Prop :=
  exists source, source ∈ sources /\ e = EvHttpGet (url source).

(** The list URLs [fetchFreeProxyList] downloads, in order, when no
    source yields an unused proxy: every source after the first of
    [rest] is gone through twice, once from the call inside the [try]
    and once more from the [catch] block. *)
Fixpoint refetch_order (rest : list FreeSource) : list string :=
  match rest with
  | [] => []
  | source :: rest' => url source :: refetch_order rest' ++ refetch_order rest'
  end.

(** Every download yields a list whose proxies are all in [used]. *)
Definition all_used (w : World) (used : gset string) : Prop :=
  forall n u, exists body,
    http_get w n u = NetData body
    /\ forall line, line ∈ parse_lines body -> line ∈ used.

Definition all_sources_failed : Error :=
  new_Error ("Failed to fetch proxies from all sources: "
             +:+ "All free proxy list sources exhausted").

(** [m] appends at most [n] events to the trace. *)
Definition at_most {A} (n : nat) (m : M A) : Prop :=
  forall st, exists evs, tr (m st).2 = tr st ++ evs /\ length evs <= n.

(** What a call of a next-proxy operation does to the registry, whatever
    the state: the identity of a returned record is added, nothing else
    changes. *)
Definition registered (st : St) (r : Outcome Proxy * St) : Prop :=
  usedProxies (vars r.2)
  = match r.1 with
    | Ret p => {[getProxyId p]} ∪ usedProxies (vars st)
    | _ => usedProxies (vars st)
    end.

(** The free-list pool has nothing left to hand out and the fetch
    counter is one short of its ceiling, or beyond. *)
Definition given_up (v : Vars) : Prop :=
  length (freeProxyList v) <= freeProxyIndex v
  /\ MAX_FETCH_ATTEMPTS <= proxyFetchAttempts v + 1.

(** The proxy URL of the direct mode, and the one built from a Proxifly
    record that names its endpoint. *)
Definition direct_url (cfg : Config) : string :=
  direct_protocol cfg +:+ "://" +:+ direct_host cfg +:+ ":" +:+ pretty (direct_port cfg).

Definition has_endpoint (p : Proxy) : bool :=
  Js.truthy_str (ipPort p) || (Js.truthy_str (ip p) && Js.truthy_num (port p)).

Definition proxifly_url (cfg : Config) (p : Proxy) : string :=
  (if Js.truthy_str (protocol p) then default "" (protocol p)
   else if negb (String.eqb (proxifly_protocol cfg) "") then proxifly_protocol cfg
        else "http") +:+ "://" +:+ getProxyId p.

(** What a unit may add to the trace, by proxy mode. *)
Definition unit_event_in (cfg : Config) (mode : ProxyMode) (e : Event) : Prop :=
  match e, mode with
  | EvSleep _, _ => True
  | EvLaunch None None, ModeNone => True
  | EvLaunch None (Some s), ModeDirect => s = direct_url cfg
  | EvLaunch (Some _) None, ModeFreeProxyList => True
  | EvLaunch (Some p) (Some s), ModeProxifly => s = proxifly_url cfg p
  | EvHttpGet _, ModeFreeProxyList => True
  | EvApiCall, ModeProxifly => True
  | _, _ => False
  end.

Definition is_download (e : Event) : Prop :=
  match e with EvHttpGet _ => True | _ => False end.

Definition is_api_call (e : Event) : Prop :=
  match e with EvApiCall => True | _ => False end.

Definition launch_without_server (e : Event) : Prop :=
  match e with EvLaunch _ (Some _) => False | _ => True end.

(** From a state in mode [mode], [m] appends only events satisfying [P]
    and leaves the mode as it is. *)
Definition in_mode {A} (mode : ProxyMode) (P : Event -> Prop) (m : M A) : Prop :=
  forall st, proxyMode (vars st) = mode ->
    proxyMode (vars (m st).2) = mode
    /\ exists evs, tr (m st).2 = tr st ++ evs /\ Forall P evs.

(** The error the [try] block throws on a response of status 400 or
    more. *)
Definition http_error (cfg : Config) (status : Z) (retryCount : nat) : Error :=
  if ((status =? 429)%Z || (500 <=? status)%Z) && (retryCount <? maxRetries cfg)%nat
  then new_Error ("HTTP " +:+ pretty status +:+ " - Retry available")
  else new_Error ("HTTP " +:+ pretty status).

(** What the run loops may rely on in a unit's result. *)
Definition well_formed_result (r : Result) : Prop :=
  match r with
  | Succeeded status _ userAgent viewport =>
      (status < 400)%Z /\ userAgent ∈ modernUserAgents /\ viewport ∈ viewports
  | Failed error status userAgent =>
      status = Some (default "Unknown" (Js.match_http_status error))
      /\ exists ua, userAgent = Some ua /\ ua ∈ modernUserAgents
  end.

(** The pauses between units or batches, by the random number drawn for
    each. *)
Definition pauses (evs : list Event) : list N :=
  omap (fun e => match e with EvPause r => Some r | _ => None end) evs.

(** The tallies of a run: the agents seen are agents of the table, and
    no more agents or viewports are counted than units succeeded. *)
Definition tallies_sound (results : Results) : Prop :=
  (forall ua, ua ∈ userAgents results -> ua ∈ modernUserAgents)
  /\ size (userAgents results) <= successful results
  /\ size (viewportsSeen results) <= successful results.

(** ** Further scenarios *)

Definition crlf : string := String "013" nl.

(** One redirect to a secure address, then the list in two chunks. *)
Definition one_redirect (n : nat) (c : Net.Client) (u : string) : Net.Reply :=
  match n with
  | 0 => Net.Response 301 (Some "https://cdn.example/list.txt") []
  | _ => Net.Response 200 None ["1.1.1.1:1080" +:+ nl; "2.2.2.2:1080" +:+ nl]
  end.

(** Every address redirects to the same place. *)
Definition redirect_loop (n : nat) (c : Net.Client) (u : string) : Net.Reply :=
  Net.Response 302 (Some "http://lists.example/") [].

(** Two workers at a time for three units, without a proxy. *)
Definition three_by_two : Config := scenario 5 schedule 2 3 ModeNone "".

Definition direct_sequential : Config := scenario 5 schedule 1 1 ModeNone "".

(** The same run with random consumption. *)
Definition free_random : Config := random_consumption (free_sequential 1).

(** The module of a free-list run whose lists have run dry: one proxy
    listed everywhere, taken, and four refills tried since. *)
Definition run_dry : St :=
  let cfg := free_sequential 1 in
  let w := status_world (NetData single_listing) ApiOther 200 in
  (run cfg (fetch_on_start cfg w;; getNextFreeProxy cfg w;;
            repeatedly downloads (getNextFreeProxy cfg w) 4)).2.

(** ** The vocabulary of the unit's boundary *)

(** One pass through the [try] block of [scrapeWithRetry] at
    [retryCount]: the two draws, then the attempt. *)
Definition try_block (cfg : Config) (w : World) (u : string) (retryCount : nat)
  : M Result :=
  userAgent ← getRandomUserAgent w;
  viewport ← getRandomViewport w;
  attempt cfg w u retryCount userAgent viewport.

(** The user agent a pass that starts in [st] draws. *)
Definition drawn_agent (w : World) (st : St) : string :=
  match getRandomUserAgent w st with
  | (Ret userAgent, _) => userAgent
  | _ => ""
  end.

(** The state once [setTimeout(resolve, delay)] has been awaited. *)
Definition slept (delay : option Z) (st : St) : St := (emit (EvSleep delay) st).2.

(** The result object the [catch] block returns for what was thrown. *)
Definition failure_of (error : Error) (userAgent : string) : Result :=
  Failed (message error)
         (Some (default "Unknown" (Js.match_http_status (message error))))
         (Some userAgent).


(** [r] is a result [scrapeWithRetry(url)] resolved with. *)
Definition unit_result (cfg : Config) (w : World) (u : string) (r : Result) : Prop :=
  exists s s', scrapeWithRetry cfg w u 0 s = (Ret r, s').

(** [results] is what a run loop has counted once it has recorded the
    results [rs] of its units, in this order: every unit is counted, a
    failure as failed and a success as successful. *)
Definition tallies_of (rs : list Result) (results : Results) : Prop :=
  results = fold_left record_result rs results0
  /\ total results = length rs
  /\ successful results = length (List.filter success rs)
  /\ failed results = length (List.filter (fun r => negb (success r)) rs).

(** ASCII text.  On it [Js.trim] and [String.prototype.trim] agree;
    beyond it the method of the language strips further characters
    (U+00A0, U+FEFF and the other Unicode spaces). *)
Definition ascii_text (s : string) : bool :=
  every (fun c => (Ascii.nat_of_ascii c <? 128)%nat) s.

(** A world whose lists are ASCII text. *)
Definition ascii_listings (w : World) : Prop :=
  forall n u body, http_get w n u = NetData body -> ascii_text body = true.

(** * Reasoning about computations *)

Section Frame.

Context {A B : Type} (P : Event -> Prop).

Lemma emits_ret (a : A) : emits P (ret a).
Proof. intros st. exists []. rewrite app_nil_r. done. Qed.

Lemma emits_mret (a : A) : emits P (mret a : M A).
Proof. apply emits_ret. Qed.

Lemma emits_throw e : emits P (throw e : M A).
Proof. intros st. exists []. rewrite app_nil_r. done. Qed.

Lemma emits_stuck : emits P (stuck : M A).
Proof. intros st. exists []. rewrite app_nil_r. done. Qed.

Lemma emits_read (f : Vars -> A) : emits P (read f).
Proof. intros st. exists []. rewrite app_nil_r. done. Qed.

Lemma emits_bind (m : M A) (k : A -> M B) :
  emits P m -> (forall a, emits P (k a)) -> emits P (m ≫= k).
Proof.
  intros Hm Hk st. unfold mbind, M_bind, bind.
  destruct (Hm st) as (evs & He & HP).
  destruct (m st) as [[a | e |] st1] eqn:E; simpl in *.
  - destruct (Hk a st1) as (evs' & He' & HP').
    exists (evs ++ evs'). rewrite He', He, app_assoc. split; [done|].
    by apply Forall_app.
  - by exists evs.
  - by exists evs.
Qed.

Lemma emits_try_catch (m : M A) (h : Error -> M A) :
  emits P m -> (forall e, emits P (h e)) -> emits P (try_catch m h).
Proof.
  intros Hm Hh st. unfold try_catch.
  destruct (Hm st) as (evs & He & HP).
  destruct (m st) as [[a | e |] st1] eqn:E; simpl in *.
  - by exists evs.
  - destruct (Hh e st1) as (evs' & He' & HP').
    exists (evs ++ evs'). rewrite He', He, app_assoc. split; [done|].
    by apply Forall_app.
  - by exists evs.
Qed.

End Frame.

Lemma emits_write P f : emits P (write f).
Proof. intros st. exists []. rewrite app_nil_r. done. Qed.

Lemma emits_emit (P : Event -> Prop) e : P e -> emits P (emit e).
Proof. intros H st. exists [e]. split; [done|]. by constructor. Qed.

Lemma emits_weaken {A} (P Q : Event -> Prop) (m : M A) :
  (forall e, P e -> Q e) -> emits P m -> emits Q m.
Proof.
  intros HPQ Hm st. destruct (Hm st) as (evs & He & HP).
  exists evs. split; [done|]. eapply Forall_impl; eauto.
Qed.

Ltac emits_step :=
  lazymatch goal with
  | |- emits _ (mbind _ _) => apply emits_bind; [| intros ?]
  | |- emits _ (try_catch _ _) => apply emits_try_catch; [| intros ?]
  | |- emits _ (ret _) => apply emits_ret
  | |- emits _ (mret _) => apply emits_mret
  | |- emits _ (throw _) => apply emits_throw
  | |- emits _ stuck => apply emits_stuck
  | |- emits _ (read _) => apply emits_read
  | |- emits _ (write _) => apply emits_write
  | |- emits _ (if ?b then _ else _) => destruct b
  | |- emits _ (match ?x with _ => _ end) => destruct x
  | |- emits _ (let '(_, _) := ?x in _) => destruct x
  end.

Lemma emits_fetchFromUrl w u : emits is_net (fetchFromUrl w u).
Proof.
  intros st. exists [EvHttpGet u]. unfold fetchFromUrl.
  destruct (http_get _ _ _); simpl; (split; [done | by repeat constructor]).
Qed.

Lemma emits_fetchFreeProxyList_from cfg w rest i :
  emits is_net (fetchFreeProxyList_from cfg w rest i).
Proof.
  revert i. induction rest as [| source rest IH]; intros i; simpl.
  - emits_step.
  - repeat (first [apply emits_fetchFromUrl | apply IH | emits_step]).
Qed.

Lemma emits_Math_random P w : emits P (Math_random w).
Proof. intros st. exists []. rewrite app_nil_r. done. Qed.

Lemma emits_Proxifly_getProxy w : emits is_net (Proxifly_getProxy w).
Proof. intros st. exists [EvApiCall]. split; [done | by repeat constructor]. Qed.

Lemma emits_getProxyId_of P o : emits P (getProxyId_of o).
Proof. destruct o; simpl; emits_step. Qed.

Ltac emits_auto lem :=
  repeat first [ lem
               | apply emits_fetchFromUrl | apply emits_Proxifly_getProxy
               | apply emits_Math_random | apply emits_getProxyId_of
               | emits_step ].

Lemma emits_fetchFreeProxyList cfg w i : emits is_net (fetchFreeProxyList cfg w i).
Proof. apply emits_fetchFreeProxyList_from. Qed.

Lemma emits_getNextFreeProxy cfg w : emits is_net (getNextFreeProxy cfg w).
Proof.
  unfold getNextFreeProxy, refill_freeProxyList, take_freeProxy.
  emits_auto ltac:(apply emits_fetchFreeProxyList).
Qed.

Lemma emits_fetchProxiflyProxies_fuel cfg w fuel b :
  emits is_net (fetchProxiflyProxies_fuel cfg w fuel b).
Proof.
  induction fuel as [| fuel IH]; simpl; emits_auto ltac:(apply IH).
Qed.

Lemma emits_getNextProxiflyProxy cfg w : emits is_net (getNextProxiflyProxy cfg w).
Proof.
  unfold getNextProxiflyProxy, refill_proxiflyProxies, take_proxiflyProxy,
    fetchProxiflyProxies.
  emits_auto ltac:(apply emits_fetchProxiflyProxies_fuel).
Qed.

Lemma emits_getBrowserOptions P cfg o : emits P (getBrowserOptions cfg o).
Proof. unfold getBrowserOptions. emits_auto fail. Qed.

Lemma is_net_attempt e : is_net e -> is_attempt_event e.
Proof. by destruct e. Qed.

Lemma emits_visit w p o u : emits is_attempt_event (visit w p o u).
Proof. intros st. exists [EvLaunch p o]. split; [done | by repeat constructor]. Qed.

Lemma emits_attempt cfg w u rc ua vp : emits is_attempt_event (attempt cfg w u rc ua vp).
Proof.
  unfold attempt.
  emits_auto ltac:(first [ apply emits_visit
                         | apply emits_getBrowserOptions
                         | apply (emits_weaken _ _ _ is_net_attempt), emits_getNextFreeProxy
                         | apply (emits_weaken _ _ _ is_net_attempt), emits_getNextProxiflyProxy ]).
Qed.

Section Termination.

Context {A B : Type}.

Lemma terminates_ret (a : A) : terminates (ret a).
Proof. by intros st. Qed.

Lemma terminates_mret (a : A) : terminates (mret a : M A).
Proof. by intros st. Qed.

Lemma terminates_throw e : terminates (throw e : M A).
Proof. by intros st. Qed.

Lemma terminates_read (f : Vars -> A) : terminates (read f).
Proof. by intros st. Qed.

Lemma terminates_bind (m : M A) (k : A -> M B) :
  terminates m -> (forall a, terminates (k a)) -> terminates (m ≫= k).
Proof.
  intros Hm Hk st. unfold mbind, M_bind, bind.
  specialize (Hm st). destruct (m st) as [[a | e |] st1]; simpl in *; try done.
  apply Hk.
Qed.

Lemma terminates_try_catch (m : M A) (h : Error -> M A) :
  terminates m -> (forall e, terminates (h e)) -> terminates (try_catch m h).
Proof.
  intros Hm Hh st. unfold try_catch.
  specialize (Hm st). destruct (m st) as [[a | e |] st1]; simpl in *; try done.
  apply Hh.
Qed.

End Termination.

Lemma terminates_write f : terminates (write f).
Proof. by intros st. Qed.

Lemma terminates_emit e : terminates (emit e).
Proof. by intros st. Qed.

Lemma terminates_Math_random w : terminates (Math_random w).
Proof. by intros st. Qed.

Lemma terminates_fetchFromUrl w u : terminates (fetchFromUrl w u).
Proof. intros st. unfold fetchFromUrl. by destruct (http_get _ _ _). Qed.

Lemma terminates_Proxifly_getProxy w : terminates (Proxifly_getProxy w).
Proof. by intros st. Qed.

Lemma terminates_getProxyId_of o : terminates (getProxyId_of o).
Proof. by destruct o. Qed.

Lemma terminates_visit w p o u : terminates (visit w p o u).
Proof. by intros st. Qed.

Ltac terminates_step :=
  lazymatch goal with
  | |- terminates (mbind _ _) => apply terminates_bind; [| intros ?]
  | |- terminates (try_catch _ _) => apply terminates_try_catch; [| intros ?]
  | |- terminates (ret _) => apply terminates_ret
  | |- terminates (mret _) => apply terminates_mret
  | |- terminates (throw _) => apply terminates_throw
  | |- terminates (read _) => apply terminates_read
  | |- terminates (write _) => apply terminates_write
  | |- terminates (emit _) => apply terminates_emit
  | |- terminates (if ?b then _ else _) => destruct b
  | |- terminates (match ?x with _ => _ end) => destruct x
  end.

Ltac terminates_auto lem :=
  repeat first [ lem
               | apply terminates_fetchFromUrl | apply terminates_Proxifly_getProxy
               | apply terminates_Math_random | apply terminates_getProxyId_of
               | apply terminates_visit
               | terminates_step ].

Lemma terminates_fetchFreeProxyList_from cfg w rest i :
  terminates (fetchFreeProxyList_from cfg w rest i).
Proof.
  revert i. induction rest as [| source rest IH]; intros i; simpl;
    terminates_auto ltac:(apply IH).
Qed.

Lemma terminates_getNextFreeProxy cfg w : terminates (getNextFreeProxy cfg w).
Proof.
  unfold getNextFreeProxy, refill_freeProxyList, take_freeProxy, fetchFreeProxyList.
  terminates_auto ltac:(apply terminates_fetchFreeProxyList_from).
Qed.

(** [fetchProxiflyProxies] stays within its bound: every call it makes to
    itself has raised [proxyFetchAttempts], which stays below
    [MAX_FETCH_ATTEMPTS]. *)
Lemma fetchProxiflyProxies_fuel_enough cfg w fuel b st :
  MAX_FETCH_ATTEMPTS <= fuel + proxyFetchAttempts (vars st) ->
  0 < fuel ->
  (fetchProxiflyProxies_fuel cfg w fuel b st).1 <> Stuck.
Proof.
  revert st. induction fuel as [| fuel IH]; intros st Hf Hpos; [lia|].
  simpl. destruct (String.eqb _ _); [done|].
  unfold try_catch, mbind, M_bind, bind, Proxifly_getProxy, read, write, throw, ret.
  simpl.
  assert (Hrec : forall e0,
    (MAX_FETCH_ATTEMPTS <=? proxyFetchAttempts (vars st) + 1)%nat = false ->
    (fetchProxiflyProxies_fuel cfg w fuel b
       (mkSt (set_proxyFetchAttempts (proxyFetchAttempts (vars st) + 1) (vars st)) e0)).1
    <> Stuck).
  { intros e0 E. apply Nat.leb_gt in E. apply IH; simpl; lia. }
  destruct (proxifly_getProxy _ _) as [ps | p | | e]; simpl; try done.
  - destruct (length ps =? 0)%nat; simpl; [done|].
    destruct (length _ =? 0)%nat; simpl; [|done].
    change (match proxyFetchAttempts (vars st) + 1 with
            | S (S (S (S (S _)))) => true | _ => false end)
      with (MAX_FETCH_ATTEMPTS <=? proxyFetchAttempts (vars st) + 1)%nat.
    destruct (_ <=? _)%nat eqn:E; [done|].
    match goal with |- context [fetchProxiflyProxies_fuel _ _ _ _ (mkSt _ ?e0)] =>
      specialize (Hrec e0 eq_refl) end.
    by destruct (fetchProxiflyProxies_fuel _ _ _ _ _) as [[]?].
  - destruct (length _ =? 0)%nat; simpl; [|done].
    change (match proxyFetchAttempts (vars st) + 1 with
            | S (S (S (S (S _)))) => true | _ => false end)
      with (MAX_FETCH_ATTEMPTS <=? proxyFetchAttempts (vars st) + 1)%nat.
    destruct (_ <=? _)%nat eqn:E; [done|].
    match goal with |- context [fetchProxiflyProxies_fuel _ _ _ _ (mkSt _ ?e0)] =>
      specialize (Hrec e0 eq_refl) end.
    by destruct (fetchProxiflyProxies_fuel _ _ _ _ _) as [[]?].
Qed.

Lemma terminates_fetchProxiflyProxies cfg w b st :
  (fetchProxiflyProxies cfg w b st).1 <> Stuck.
Proof. apply fetchProxiflyProxies_fuel_enough; unfold MAX_FETCH_ATTEMPTS; lia. Qed.

Lemma terminates_getNextProxiflyProxy cfg w : terminates (getNextProxiflyProxy cfg w).
Proof.
  unfold getNextProxiflyProxy, refill_proxiflyProxies, take_proxiflyProxy.
  terminates_auto ltac:(intros ?; apply terminates_fetchProxiflyProxies).
Qed.

Lemma terminates_getBrowserOptions cfg o : terminates (getBrowserOptions cfg o).
Proof. unfold getBrowserOptions. terminates_auto fail. Qed.

Lemma terminates_attempt cfg w u rc ua vp : terminates (attempt cfg w u rc ua vp).
Proof.
  unfold attempt.
  terminates_auto ltac:(first [ apply terminates_getBrowserOptions
                              | apply terminates_getNextFreeProxy
                              | apply terminates_getNextProxiflyProxy ]).
Qed.

(** ** The orchestrator always answers *)

Lemma retries_lt cfg e rc : retries cfg e rc = true -> rc < maxRetries cfg.
Proof. unfold retries. intros [_ H]%andb_prop. by apply Nat.ltb_lt. Qed.

Lemma scrapeWithRetry_fuel_returns cfg w fuel u rc st :
  0 < fuel -> maxRetries cfg < fuel + rc ->
  exists r st', scrapeWithRetry_fuel cfg w fuel u rc st = (Ret r, st').
Proof.
  revert rc st. induction fuel as [| fuel IH]; intros rc st Hpos Hf; [lia|].
  simpl.
  unfold getRandomUserAgent, getRandomViewport, try_catch, mbind, M_bind, bind,
    Math_random, emit, ret. simpl.
  match goal with |- context [attempt cfg w u rc ?ua ?vp ?s] =>
    pose proof (terminates_attempt cfg w u rc ua vp s) as Hterm;
    destruct (attempt cfg w u rc ua vp s) as [[r | e |] st2] end; simpl in *.
  - eauto.
  - destruct (retries cfg e rc) eqn:Hr; [|eauto].
    apply retries_lt in Hr. apply IH; lia.
  - done.
Qed.

(** [scrapeWithRetry] never throws and never hangs: it resolves with a
    result object. *)
Lemma scrapeWithRetry_returns cfg w u rc st :
  exists r st', scrapeWithRetry cfg w u rc st = (Ret r, st').
Proof. apply scrapeWithRetry_fuel_returns; lia. Qed.

Lemma is_attempt_unit e : is_attempt_event e -> is_unit_event e.
Proof. by destruct e. Qed.

Lemma emits_scrapeWithRetry_fuel cfg w fuel u rc :
  emits is_unit_event (scrapeWithRetry_fuel cfg w fuel u rc).
Proof.
  revert rc. induction fuel as [| fuel IH]; intros rc; simpl.
  - emits_step.
  - unfold getRandomUserAgent, getRandomViewport.
    emits_auto ltac:(first [ apply IH
                           | apply (emits_weaken _ _ _ is_attempt_unit), emits_attempt
                           | by apply emits_emit ]).
Qed.

Lemma sleeps_app evs evs' : sleeps (evs ++ evs') = sleeps evs ++ sleeps evs'.
Proof. apply omap_app. Qed.

Lemma sleeps_attempt_events evs : Forall is_attempt_event evs -> sleeps evs = [].
Proof.
  induction 1 as [| e evs He _ IH]; [done|].
  destruct e; simpl in *; done.
Qed.

(** One level of [scrapeWithRetry]: how the catch block continues after
    an attempt that threw. *)
Lemma scrapeWithRetry_fuel_throw cfg w fuel u rc st e st' :
  (userAgent ← getRandomUserAgent w;
   viewport ← getRandomViewport w;
   attempt cfg w u rc userAgent viewport) st = (Throw e, st') ->
  exists ua,
    scrapeWithRetry_fuel cfg w (S fuel) u rc st =
      if retries cfg e rc
      then scrapeWithRetry_fuel cfg w fuel u (rc + 1)
             (emit (EvSleep (backoffDelays cfg !! rc)) st').2
      else (Ret (Failed (message e)
                        (Some (default "Unknown" (Js.match_http_status (message e))))
                        (Some ua)), st').
Proof.
  simpl.
  unfold getRandomUserAgent, getRandomViewport, try_catch, mbind, M_bind, bind,
    Math_random, ret. simpl.
  intros H. eexists. rewrite H. by destruct (retries cfg e rc).
Qed.

Lemma attempt_trace cfg w u rc st :
  exists evs,
    tr ((userAgent ← getRandomUserAgent w;
         viewport ← getRandomViewport w;
         attempt cfg w u rc userAgent viewport) st).2 = tr st ++ evs
    /\ sleeps evs = [].
Proof.
  assert (H : emits is_attempt_event
                (userAgent ← getRandomUserAgent w;
                 viewport ← getRandomViewport w;
                 attempt cfg w u rc userAgent viewport)).
  { unfold getRandomUserAgent, getRandomViewport.
    emits_auto ltac:(apply emits_attempt). }
  destruct (H st) as (evs & He & HP).
  exists evs. split; [done|]. by apply sleeps_attempt_events.
Qed.

(** A unit whose [n] attempts from [rc] on all fail retryably, the last
    of them with no retry left: it sleeps [backoffDelays[rc]],
    [backoffDelays[rc+1]], ... before each retry and ends as a failure. *)
Lemma retry_chain cfg w u n : forall fuel rc st,
  n <= fuel ->
  rc + n = maxRetries cfg ->
  every_attempt_retryable cfg w (S n) u rc st = true ->
  exists error status ua st' evs,
    scrapeWithRetry_fuel cfg w (S fuel) u rc st = (Ret (Failed error status ua), st')
    /\ tr st' = tr st ++ evs
    /\ sleeps evs = map (fun i => backoffDelays cfg !! i) (seq rc n).
Proof.
  induction n as [| n IH]; intros fuel rc st Hfuel Hrc Hall.
  - simpl in Hall.
    destruct (attempt_trace cfg w u rc st) as (evs & Hev & Hsl).
    match type of Hall with match ?x with _ => _ end = _ =>
      destruct x as [[r | e |] st1] eqn:E; try done end.
    destruct (scrapeWithRetry_fuel_throw _ _ fuel _ _ _ _ _ E) as (ua & ->).
    unfold retries. replace (rc <? maxRetries cfg)%nat with false
      by (symmetry; apply Nat.ltb_ge; lia).
    rewrite andb_false_r. by eexists _, _, _, _, evs.
  - simpl in Hall.
    destruct (attempt_trace cfg w u rc st) as (evs & Hev & Hsl).
    match type of Hall with match ?x with _ => _ end = _ =>
      destruct x as [[r | e |] st1] eqn:E; try done end.
    apply andb_prop in Hall as [Hk Hall].
    destruct (scrapeWithRetry_fuel_throw _ _ fuel _ _ _ _ _ E) as (ua & ->).
    unfold retries. rewrite Hk.
    replace (rc <? maxRetries cfg)%nat with true
      by (symmetry; apply Nat.ltb_lt; lia).
    simpl andb. cbv iota.
    destruct fuel as [| fuel]; [lia|].
    destruct (IH fuel (rc + 1) _ ltac:(lia) ltac:(lia) Hall)
      as (error & status & ua' & st' & evs' & Hrun & Htr & Hsl').
    exists error, status, ua', st', (evs ++ EvSleep (backoffDelays cfg !! rc) :: evs').
    split; [done|]. split.
    + rewrite Htr. unfold tr, emit in *. simpl in *. rewrite Hev.
      by rewrite <- !app_assoc.
    + rewrite sleeps_app, Hsl. simpl. rewrite Hsl'.
      by replace (rc + 1) with (S rc) by lia.
Qed.

(** ** The run loops *)

Lemma fetch_on_start_returns cfg w st :
  exists st', fetch_on_start cfg w st = (Ret tt, st').
Proof.
  unfold fetch_on_start, try_catch, mbind, M_bind, bind, read, write, ret. simpl.
  destruct (proxyMode (vars st)); eauto.
  - pose proof (terminates_fetchProxiflyProxies cfg w true st) as H.
    destruct (fetchProxiflyProxies cfg w true st) as [[? | ? |] ?]; simpl in *; eauto; done.
  - pose proof (terminates_fetchFreeProxyList_from cfg w (drop 0 (free_sources cfg)) 0 st) as H.
    unfold fetchFreeProxyList.
    destruct (fetchFreeProxyList_from _ _ _ _ _) as [[? | ? |] ?]; simpl in *; eauto; done.
Qed.

Lemma record_result_total results r :
  total (record_result results r) = total results + 1.
Proof. by destruct r. Qed.

Lemma record_result_counted results r :
  counted results -> counted (record_result results r).
Proof. unfold counted. destruct r; simpl; lia. Qed.

Lemma sequential_iteration_returns cfg w u i results st :
  exists r st',
    sequential_iteration cfg w u i results st = (Ret (record_result results r), st').
Proof.
  unfold sequential_iteration. unfold mbind, M_bind, bind at 1.
  destruct (scrapeWithRetry_returns cfg w u 0 st) as (r & st1 & ->).
  exists r. destruct (i <? _)%nat; unfold bind, Math_random, emit, ret; simpl; eauto.
Qed.

Lemma sequential_loop cfg w u (l : list nat) : forall results st,
  exists results' st',
    for_each l (sequential_iteration cfg w u) results st = (Ret results', st')
    /\ total results' = total results + length l
    /\ (counted results -> counted results').
Proof.
  induction l as [| i l IH]; intros results st; simpl.
  - exists results, st. split; [done|]. split; [lia | done].
  - unfold mbind, M_bind, bind.
    destruct (sequential_iteration_returns cfg w u i results st) as (r & st1 & ->).
    destruct (IH (record_result results r) st1) as (results' & st' & -> & Ht & Hc).
    exists results', st'. split; [done|].
    rewrite Ht, record_result_total. split; [lia|].
    intros H. by apply Hc, record_result_counted.
Qed.

Lemma runSequentialScraping_returns cfg w u st :
  exists results st',
    runSequentialScraping cfg w u st = (Ret results, st')
    /\ total results = totalRequests cfg
    /\ counted results.
Proof.
  unfold runSequentialScraping. unfold mbind, M_bind, bind.
  destruct (fetch_on_start_returns cfg w st) as (st1 & ->).
  destruct (sequential_loop cfg w u (seq 0 (totalRequests cfg)) results0 st1)
    as (results & st' & -> & Ht & Hc).
  exists results, st'. split; [done|]. rewrite Ht, length_seq. split; [done|].
  by apply Hc.
Qed.

(** ** Batches *)

Lemma batch_ids_seq cfg n : forall i batch,
  batch_ids cfg n i batch
  = seq (batch * maxConcurrent cfg + i + 1)
        (n `min` (totalRequests cfg - (batch * maxConcurrent cfg + i))).
Proof.
  induction n as [| n IH]; intros i batch; simpl; [done|].
  destruct (_ <=? _)%nat eqn:E.
  - apply Nat.leb_le in E.
    by replace (totalRequests cfg - _) with 0 by lia.
  - apply Nat.leb_gt in E. rewrite IH.
    destruct (totalRequests cfg - (batch * maxConcurrent cfg + i)) as [| k] eqn:Ek; [lia|].
    simpl. f_equal.
    replace (totalRequests cfg - (batch * maxConcurrent cfg + S i)) with k by lia.
    f_equal. lia.
Qed.

Lemma batch_workers_seq cfg batch :
  batch_workers cfg batch
  = seq (batch * maxConcurrent cfg + 1)
        (maxConcurrent cfg `min` (totalRequests cfg - batch * maxConcurrent cfg)).
Proof.
  unfold batch_workers. rewrite batch_ids_seq.
  by rewrite !Nat.add_0_r.
Qed.

Lemma concat_batches_upto cfg k :
  concat (map (batch_workers cfg) (seq 0 k))
  = seq 1 ((k * maxConcurrent cfg) `min` totalRequests cfg).
Proof.
  induction k as [| k IH]; [done|].
  rewrite seq_S, map_app, concat_app, IH. simpl.
  rewrite app_nil_r, batch_workers_seq.
  destruct (decide (k * maxConcurrent cfg <= totalRequests cfg)) as [Hle | Hgt].
  - rewrite (Nat.min_l _ _ Hle).
    replace (k * maxConcurrent cfg + 1) with (1 + k * maxConcurrent cfg) by lia.
    rewrite <- seq_app. f_equal. lia.
  - replace (totalRequests cfg - k * maxConcurrent cfg) with 0 by lia.
    rewrite Nat.min_0_r, app_nil_r. f_equal. lia.
Qed.

Lemma num_batches_ceiling cfg :
  0 < maxConcurrent cfg ->
  totalRequests cfg <= num_batches cfg * maxConcurrent cfg
  /\ num_batches cfg * maxConcurrent cfg < totalRequests cfg + maxConcurrent cfg.
Proof.
  intros Hc. unfold num_batches.
  pose proof (Nat.div_mod (totalRequests cfg + maxConcurrent cfg - 1) (maxConcurrent cfg)
                ltac:(lia)) as Hdm.
  pose proof (Nat.mod_upper_bound (totalRequests cfg + maxConcurrent cfg - 1)
                (maxConcurrent cfg) ltac:(lia)) as Hm.
  nia.
Qed.

Lemma concat_batches cfg :
  0 < maxConcurrent cfg ->
  concat (batches cfg) = seq 1 (totalRequests cfg).
Proof.
  intros Hc. unfold batches. rewrite concat_batches_upto.
  f_equal. pose proof (num_batches_ceiling cfg Hc). lia.
Qed.

Lemma workers_app evs evs' : workers (evs ++ evs') = workers evs ++ workers evs'.
Proof. apply omap_app. Qed.

Lemma workers_unit_events evs : Forall is_unit_event evs -> workers evs = [].
Proof.
  induction 1 as [| e evs He _ IH]; [done|].
  destruct e; simpl in *; done.
Qed.

Lemma workers_EvWorker ids : workers (map EvWorker ids) = ids.
Proof. induction ids as [| id ids IH]; [done|]. simpl. by rewrite IH. Qed.

Lemma is_net_unit e : is_net e -> is_unit_event e.
Proof. by destruct e. Qed.

Lemma emits_fetch_on_start cfg w : emits is_net (fetch_on_start cfg w).
Proof.
  unfold fetch_on_start, fetchProxiflyProxies.
  emits_auto ltac:(first [ apply emits_fetchProxiflyProxies_fuel
                         | apply emits_fetchFreeProxyList ]).
Qed.

Lemma emits_scrapeWithRetry cfg w u rc :
  emits is_unit_event (scrapeWithRetry cfg w u rc).
Proof. apply emits_scrapeWithRetry_fuel. Qed.

Lemma run_worker_spec cfg w u id st :
  exists r st' evs,
    run_worker cfg w u id st = (Ret (OnMessage id r), st')
    /\ vars st' = vars st
    /\ tr st' = tr st ++ evs
    /\ workers evs = [].
Proof.
  unfold run_worker, worker_main, try_catch, mbind, M_bind, bind, ret.
  set (st0 := mkSt (fresh_vars cfg) (env st)).
  destruct (emits_scrapeWithRetry cfg w u 0 st0) as (evs & Hev & HP).
  destruct (scrapeWithRetry_returns cfg w u 0 st0) as (r & st1 & Hr).
  rewrite Hr in *. simpl in *.
  exists r, (mkSt (vars st) (env st1)), evs.
  split; [done|]. split; [done|]. split; [done|]. by apply workers_unit_events.
Qed.

Lemma create_workers_spec (ids : list nat) : forall st,
  exists st',
    for_each ids create_worker tt st = (Ret tt, st')
    /\ tr st' = tr st ++ map EvWorker ids.
Proof.
  induction ids as [| id ids IH]; intros st; simpl.
  - exists st. by rewrite app_nil_r.
  - unfold mbind, M_bind, bind, create_worker, emit. simpl.
    edestruct IH as (st' & -> & Htr). exists st'. split; [done|].
    rewrite Htr. unfold tr. simpl. by rewrite <- app_assoc.
Qed.

Lemma on_worker_event_total results ev :
  total (on_worker_event results ev) = total results + 1.
Proof. destruct ev as [? []|]; done. Qed.

Lemma on_worker_event_counted results ev :
  counted results -> counted (on_worker_event results ev).
Proof. unfold counted. destruct ev as [? []|]; simpl; lia. Qed.

Lemma await_worker_spec cfg w u id results st :
  exists ev st' evs,
    await_worker cfg w u id results st = (Ret (on_worker_event results ev), st')
    /\ tr st' = tr st ++ evs
    /\ workers evs = [].
Proof.
  unfold await_worker, mbind, M_bind, bind.
  destruct (run_worker_spec cfg w u id st) as (r & st1 & evs1 & -> & _ & Htr1 & Hw1).
  by exists (OnMessage id r), st1, evs1.
Qed.

Lemma collect_workers_spec cfg w u (ids : list nat) : forall results st,
  exists results' st' evs,
    for_each ids (await_worker cfg w u) results st = (Ret results', st')
    /\ total results' = total results + length ids
    /\ (counted results -> counted results')
    /\ tr st' = tr st ++ evs
    /\ workers evs = [].
Proof.
  induction ids as [| id ids IH]; intros results st; simpl.
  - exists results, st, []. rewrite app_nil_r. repeat split; [lia | done].
  - unfold mbind, M_bind, bind.
    destruct (await_worker_spec cfg w u id results st) as (ev & st1 & evs1 & -> & Htr1 & Hw1).
    edestruct IH as (results' & st' & evs & -> & Ht & Hc & Htr & Hw).
    exists results', st', (evs1 ++ evs). split; [done|].
    rewrite Ht, on_worker_event_total. split; [simpl; lia|]. split.
    + intros H. by apply Hc, on_worker_event_counted.
    + rewrite Htr, Htr1, app_assoc, workers_app, Hw1, Hw. done.
Qed.

Lemma run_batch_spec cfg w u batch results st :
  exists results' st' evs,
    run_batch cfg w u batch results st = (Ret results', st')
    /\ total results' = total results + length (batch_workers cfg batch)
    /\ (counted results -> counted results')
    /\ tr st' = tr st ++ evs
    /\ workers evs = batch_workers cfg batch.
Proof.
  unfold run_batch. unfold mbind, M_bind, bind.
  destruct (create_workers_spec (batch_workers cfg batch) st) as (st1 & -> & Htr1).
  destruct (collect_workers_spec cfg w u (batch_workers cfg batch) results st1)
    as (results' & st2 & evs2 & -> & Ht & Hc & Htr2 & Hw2).
  destruct (batch <? _)%nat; unfold Math_random, emit, ret; simpl.
  - eexists results', _, (map EvWorker (batch_workers cfg batch) ++ evs2 ++ [EvPause _]).
    split; [done|]. repeat split; [done | done | |].
    + unfold tr in *. simpl. rewrite Htr2, Htr1. by rewrite <- !app_assoc.
    + rewrite !workers_app, workers_EvWorker, Hw2. simpl. by rewrite app_nil_r.
  - eexists results', _, (map EvWorker (batch_workers cfg batch) ++ evs2).
    split; [done|]. repeat split; [done | done | |].
    + rewrite Htr2, Htr1. by rewrite <- !app_assoc.
    + rewrite !workers_app, workers_EvWorker, Hw2. by rewrite app_nil_r.
Qed.

Lemma batches_loop_spec cfg w u (l : list nat) : forall results st,
  exists results' st' evs,
    for_each l (run_batch cfg w u) results st = (Ret results', st')
    /\ total results' = total results + length (concat (map (batch_workers cfg) l))
    /\ (counted results -> counted results')
    /\ tr st' = tr st ++ evs
    /\ workers evs = concat (map (batch_workers cfg) l).
Proof.
  induction l as [| batch l IH]; intros results st; simpl.
  - exists results, st, []. rewrite app_nil_r. repeat split; [lia | done].
  - unfold mbind, M_bind, bind.
    destruct (run_batch_spec cfg w u batch results st)
      as (results1 & st1 & evs1 & -> & Ht1 & Hc1 & Htr1 & Hw1).
    destruct (IH results1 st1) as (results' & st' & evs & -> & Ht & Hc & Htr & Hw).
    exists results', st', (evs1 ++ evs). split; [done|].
    rewrite length_app. split; [lia|]. split; [by auto|].
    rewrite Htr, Htr1, app_assoc, workers_app, Hw1, Hw. done.
Qed.

Lemma runConcurrentScraping_spec cfg w u st :
  0 < maxConcurrent cfg ->
  exists results st' evs,
    runConcurrentScraping cfg w u st = (Ret results, st')
    /\ total results = totalRequests cfg
    /\ counted results
    /\ tr st' = tr st ++ evs
    /\ workers evs = seq 1 (totalRequests cfg).
Proof.
  intros Hc. unfold runConcurrentScraping. unfold mbind, M_bind, bind.
  destruct (emits_fetch_on_start cfg w st) as (evs0 & Hev0 & HP0).
  destruct (fetch_on_start_returns cfg w st) as (st1 & Hs). rewrite Hs in *. simpl in Hev0.
  replace (maxConcurrent cfg =? 0)%nat with false by (symmetry; apply Nat.eqb_neq; lia).
  simpl.
  destruct (batches_loop_spec cfg w u (seq 0 (num_batches cfg)) results0 st1)
    as (results & st' & evs & -> & Ht & Hcn & Htr & Hw).
  fold (batches cfg) in *. rewrite concat_batches in * by done.
  exists results, st', (evs0 ++ evs). split; [done|].
  rewrite Ht, length_seq. repeat split; [by apply Hcn | |].
  - by rewrite Htr, Hev0, app_assoc.
  - rewrite workers_app, Hw.
    rewrite (workers_unit_events evs0); [done|].
    eapply Forall_impl; [exact HP0 | apply is_net_unit].
Qed.


Lemma batches_lookup cfg i b :
  batches cfg !! i = Some b ->
  i < num_batches cfg /\ b = batch_workers cfg i.
Proof.
  unfold batches. rewrite list_lookup_fmap.
  destruct (seq 0 (num_batches cfg) !! i) as [j|] eqn:E; [|done].
  apply lookup_seq in E as [-> ?]. simpl. intros [= <-]. done.
Qed.

Lemma length_batches cfg : length (batches cfg) = num_batches cfg.
Proof. unfold batches. by rewrite length_map, length_seq. Qed.

(** ** Direct connections *)

Lemma attempt_mode_none cfg w u rc ua vp st :
  proxyMode (vars st) = ModeNone ->
  vars (attempt cfg w u rc ua vp st).2 = vars st
  /\ tr (attempt cfg w u rc ua vp st).2 = tr st ++ [EvLaunch None None].
Proof.
  intros Hm.
  unfold attempt, getBrowserOptions, visit, mbind, M_bind, bind, read, ret, throw. simpl.
  rewrite Hm. simpl. rewrite Hm. simpl.
  destruct (browser_visit w _ _ _) as [e | | status rest]; simpl; [done | done |].
  destruct (400 <=? status)%Z.
  - by destruct (_ && _).
  - by destruct rest.
Qed.

Lemma scrapeWithRetry_fuel_mode_none cfg w u fuel : forall rc st,
  proxyMode (vars st) = ModeNone ->
  vars (scrapeWithRetry_fuel cfg w fuel u rc st).2 = vars st
  /\ exists evs,
       tr (scrapeWithRetry_fuel cfg w fuel u rc st).2 = tr st ++ evs
       /\ Forall is_direct_event evs.
Proof.
  induction fuel as [| fuel IH]; intros rc st Hm; simpl.
  - split; [done|]. exists []. by rewrite app_nil_r.
  - unfold getRandomUserAgent, getRandomViewport, try_catch, mbind, M_bind, bind,
      Math_random, ret. simpl.
    match goal with |- context [attempt cfg w u rc ?ua ?vp ?s] =>
      destruct (attempt_mode_none cfg w u rc ua vp s Hm) as [Hv Ht];
      destruct (attempt cfg w u rc ua vp s) as [[r | e |] st2] end; simpl in *.
    + split; [done|]. exists [EvLaunch None None]. split; [done|]. by repeat constructor.
    + destruct (retries cfg e rc).
      * unfold emit. simpl.
        match goal with |- context [scrapeWithRetry_fuel cfg w fuel u (rc + 1) ?s] =>
          destruct (IH (rc + 1) s) as [Hv' (evs & Ht' & HP)]; [by rewrite <- Hm, <- Hv|] end.
        split; [by rewrite Hv', <- Hv|].
        exists (EvLaunch None None :: EvSleep (backoffDelays cfg !! rc) :: evs).
        split; [|by repeat constructor].
        rewrite Ht'. unfold tr in *. simpl in *. rewrite Ht. by rewrite <- !app_assoc.
      * simpl. split; [done|]. exists [EvLaunch None None]. split; [done|]. by repeat constructor.
    + split; [done|]. exists [EvLaunch None None]. split; [done|]. by repeat constructor.
Qed.

Lemma sequential_iteration_mode_none cfg w u i results st :
  proxyMode (vars st) = ModeNone ->
  vars (sequential_iteration cfg w u i results st).2 = vars st
  /\ exists evs,
       tr (sequential_iteration cfg w u i results st).2 = tr st ++ evs
       /\ Forall is_direct_event evs.
Proof.
  intros Hm. unfold sequential_iteration, scrapeWithRetry. unfold mbind, M_bind, bind.
  destruct (scrapeWithRetry_fuel_mode_none cfg w u (S (maxRetries cfg - 0)) 0 st Hm)
    as [Hv (evs & Ht & HP)].
  destruct (scrapeWithRetry_fuel _ _ _ _ _ _) as [[r | e |] st1]; simpl in *.
  - destruct (i <? _)%nat; unfold bind, Math_random, emit, ret; simpl.
    + split; [done|]. exists (evs ++ [EvPause (math_random w (randomCalls (env st1)))]).
      split; [unfold tr in *; simpl in *; by rewrite Ht, <- app_assoc|].
      apply Forall_app. split; [done | by repeat constructor].
    + split; [done|]. by exists evs.
  - split; [done|]. by exists evs.
  - split; [done|]. by exists evs.
Qed.

Lemma sequential_loop_mode_none cfg w u (l : list nat) : forall results st,
  proxyMode (vars st) = ModeNone ->
  vars (for_each l (sequential_iteration cfg w u) results st).2 = vars st
  /\ exists evs,
       tr (for_each l (sequential_iteration cfg w u) results st).2 = tr st ++ evs
       /\ Forall is_direct_event evs.
Proof.
  induction l as [| i l IH]; intros results st Hm; simpl.
  - split; [done|]. exists []. by rewrite app_nil_r.
  - unfold mbind, M_bind, bind.
    destruct (sequential_iteration_mode_none cfg w u i results st Hm)
      as [Hv (evs & Ht & HP)].
    destruct (sequential_iteration _ _ _ _ _ _) as [[r | e |] st1]; simpl in *;
      [| split; [done|]; by exists evs ..].
    destruct (IH r st1) as [Hv' (evs' & Ht' & HP')]; [by rewrite Hv|].
    split; [by rewrite Hv'|]. exists (evs ++ evs').
    split; [by rewrite Ht', Ht, app_assoc | by apply Forall_app].
Qed.

(** When the first fetch throws, [fetch_on_start] swallows the error and
    leaves [CONFIG.proxyMode = 'none']. *)
Lemma fetch_on_start_fallback cfg w st :
  (proxyMode (vars st) = ModeProxifly
   /\ exists e st1, fetchProxiflyProxies cfg w true st = (Throw e, st1))
  \/ (proxyMode (vars st) = ModeFreeProxyList
      /\ exists e st1, fetchFreeProxyList cfg w 0 st = (Throw e, st1)) ->
  exists st', fetch_on_start cfg w st = (Ret tt, st')
              /\ proxyMode (vars st') = ModeNone.
Proof.
  unfold fetch_on_start, try_catch, mbind, M_bind, bind, read, write, ret. simpl.
  intros [[-> (e & st1 & ->)] | [-> (e & st1 & ->)]]; simpl; eauto.
Qed.

(** Sequential mode: when the first fetch throws, the run goes on and
    every unit visits over a direct connection. *)
Lemma sequential_fallback cfg w u st :
  (proxyMode (vars st) = ModeProxifly
   /\ exists e st1, fetchProxiflyProxies cfg w true st = (Throw e, st1))
  \/ (proxyMode (vars st) = ModeFreeProxyList
      /\ exists e st1, fetchFreeProxyList cfg w 0 st = (Throw e, st1)) ->
  exists results st0 st' evs,
    fetch_on_start cfg w st = (Ret tt, st0)
    /\ runSequentialScraping cfg w u st = (Ret results, st')
    /\ total results = totalRequests cfg
    /\ proxyMode (vars st') = ModeNone
    /\ tr st' = tr st0 ++ evs
    /\ Forall is_direct_event evs.
Proof.
  intros H.
  destruct (fetch_on_start_fallback cfg w st H) as (st0 & Hs & Hm).
  destruct (runSequentialScraping_returns cfg w u st) as (results & st' & Hrun & Ht & _).
  exists results, st0, st'.
  unfold runSequentialScraping in *. unfold mbind, M_bind, bind in *.
  rewrite Hs in *.
  destruct (sequential_loop_mode_none cfg w u (seq 0 (totalRequests cfg)) results0 st0 Hm)
    as [Hv (evs & Htr & HP)].
  rewrite Hrun in *. simpl in *.
  exists evs. by rewrite Hv.
Qed.

(** ** What a computation leaves alone *)

Section Preservation.

Context {A B C : Type} (f : Vars -> C).

Lemma preserves_ret (a : A) : preserves f (ret a).
Proof. by intros st. Qed.

Lemma preserves_mret (a : A) : preserves f (mret a : M A).
Proof. by intros st. Qed.

Lemma preserves_throw e : preserves f (throw e : M A).
Proof. by intros st. Qed.

Lemma preserves_stuck : preserves f (stuck : M A).
Proof. by intros st. Qed.

Lemma preserves_read (g : Vars -> A) : preserves f (read g).
Proof. by intros st. Qed.

Lemma preserves_bind (m : M A) (k : A -> M B) :
  preserves f m -> (forall a, preserves f (k a)) -> preserves f (m ≫= k).
Proof.
  intros Hm Hk st. unfold mbind, M_bind, bind.
  specialize (Hm st). destruct (m st) as [[a | e |] st1]; simpl in *; try done.
  by rewrite Hk.
Qed.

Lemma preserves_try_catch (m : M A) (h : Error -> M A) :
  preserves f m -> (forall e, preserves f (h e)) -> preserves f (try_catch m h).
Proof.
  intros Hm Hh st. unfold try_catch.
  specialize (Hm st). destruct (m st) as [[a | e |] st1]; simpl in *; try done.
  by rewrite Hh.
Qed.

End Preservation.

Lemma preserves_write {C} (f : Vars -> C) g :
  (forall v, f (g v) = f v) -> preserves f (write g).
Proof. intros H st. apply H. Qed.

Lemma preserves_emit {C} (f : Vars -> C) e : preserves f (emit e).
Proof. by intros st. Qed.

Lemma preserves_Math_random {C} (f : Vars -> C) w : preserves f (Math_random w).
Proof. by intros st. Qed.

Lemma preserves_fetchFromUrl {C} (f : Vars -> C) w u : preserves f (fetchFromUrl w u).
Proof. intros st. unfold fetchFromUrl. by destruct (http_get _ _ _). Qed.

Lemma preserves_Proxifly_getProxy {C} (f : Vars -> C) w : preserves f (Proxifly_getProxy w).
Proof. by intros st. Qed.

Lemma preserves_for_each {A S C} (f : Vars -> C) (body : A -> S -> M S) (l : list A) :
  (forall a s, preserves f (body a s)) -> forall s, preserves f (for_each l body s).
Proof.
  intros Hb. induction l as [| a l IH]; intros s; simpl.
  - apply preserves_ret.
  - apply preserves_bind; [apply Hb | intros ?; apply IH].
Qed.

Ltac preserves_step :=
  lazymatch goal with
  | |- preserves _ (mbind _ _) => apply preserves_bind; [| intros ?]
  | |- preserves _ (try_catch _ _) => apply preserves_try_catch; [| intros ?]
  | |- preserves _ (ret _) => apply preserves_ret
  | |- preserves _ (mret _) => apply preserves_mret
  | |- preserves _ (throw _) => apply preserves_throw
  | |- preserves _ stuck => apply preserves_stuck
  | |- preserves _ (read _) => apply preserves_read
  | |- preserves _ (write _) => by apply preserves_write
  | |- preserves _ (emit _) => apply preserves_emit
  | |- preserves _ (if ?b then _ else _) => destruct b
  | |- preserves _ (match ?x with _ => _ end) => destruct x
  | |- preserves _ (let '(_, _) := ?x in _) => destruct x
  end.

Lemma preserves_getProxyId_of {C} (f : Vars -> C) o : preserves f (getProxyId_of o).
Proof. by destruct o. Qed.

Ltac preserves_auto lem :=
  repeat first [ lem
               | apply preserves_fetchFromUrl | apply preserves_Proxifly_getProxy
               | apply preserves_Math_random | apply preserves_getProxyId_of
               | preserves_step ].

(** The fetchers filter against the registry and never write to it. *)
Lemma fetchFreeProxyList_from_registry cfg w rest i :
  preserves usedProxies (fetchFreeProxyList_from cfg w rest i).
Proof.
  revert i. induction rest as [| source rest IH]; intros i; simpl;
    preserves_auto ltac:(apply IH).
Qed.

Lemma fetchProxiflyProxies_fuel_registry cfg w fuel b :
  preserves usedProxies (fetchProxiflyProxies_fuel cfg w fuel b).
Proof.
  induction fuel as [| fuel IH]; simpl; preserves_auto ltac:(apply IH).
Qed.

Lemma fetch_on_start_registry cfg w : preserves usedProxies (fetch_on_start cfg w).
Proof.
  unfold fetch_on_start, fetchProxiflyProxies, fetchFreeProxyList.
  preserves_auto ltac:(first [ apply fetchProxiflyProxies_fuel_registry
                             | apply fetchFreeProxyList_from_registry ]).
Qed.

(** A worker thread changes none of the variables of the thread that
    created it. *)
Lemma run_worker_vars cfg w u id st : vars (run_worker cfg w u id st).2 = vars st.
Proof.
  unfold run_worker.
  by destruct (worker_main _ _ _ _ _) as [[[] | |] ?].
Qed.

Lemma run_batch_registry cfg w u batch results :
  preserves usedProxies (run_batch cfg w u batch results).
Proof.
  unfold run_batch.
  preserves_auto ltac:(first
    [ apply preserves_for_each; intros ? ?; unfold create_worker, await_worker
    | intros st; by rewrite run_worker_vars ]).
Qed.

(** In concurrent mode the registry of the dispatching thread is the same
    after the run as before it: no consumption by a worker reaches it. *)
Lemma runConcurrentScraping_registry cfg w u :
  preserves usedProxies (runConcurrentScraping cfg w u).
Proof.
  unfold runConcurrentScraping.
  preserves_auto ltac:(first
    [ apply fetch_on_start_registry
    | apply preserves_for_each; intros ? ?; apply run_batch_registry ]).
Qed.

(** ** When the pool does not repeat *)

Lemma getProxyId_line line protocol source :
  line <> "" ->
  getProxyId (mkProxy (Some line) None None protocol source None None None) = line.
Proof.
  intros H. unfold getProxyId. simpl.
  destruct (String.eqb_spec line ""); done.
Qed.

Lemma parse_lines_nonempty data line : line ∈ parse_lines data -> line <> "".
Proof.
  unfold parse_lines. rewrite list_elem_of_In, List.filter_In.
  intros [_ H] ->. done.
Qed.

Lemma ids_filter_unused used l :
  ids (filter_unused used l) = List.filter (fun i => negb (bool_decide (i ∈ used))) (ids l).
Proof.
  unfold ids, filter_unused. induction l as [| p l IH]; [done|].
  simpl. destruct (bool_decide _); simpl; [done|]. f_equal. exact IH.
Qed.

Lemma NoDup_List_filter {A} (f : A -> bool) (l : list A) :
  NoDup l -> NoDup (List.filter f l).
Proof.
  induction 1 as [| x l Hx Hl IH]; simpl; [constructor|].
  destruct (f x); [|done]. constructor; [|done].
  rewrite list_elem_of_In, List.filter_In, <- list_elem_of_In. tauto.
Qed.

Lemma pool_fresh_filter_unused used l :
  NoDup (ids l) -> pool_fresh used (filter_unused used l).
Proof.
  intros Hnd. split.
  - rewrite ids_filter_unused. by apply NoDup_List_filter.
  - intros p. unfold filter_unused.
    rewrite list_elem_of_In, List.filter_In. intros [_ H].
    apply negb_true_iff, bool_decide_eq_false in H. done.
Qed.

Lemma random_index_lt r len : 0 < len -> Js.random_index r len < len.
Proof.
  intros Hlen. unfold Js.random_index.
  assert (H : ((r mod 2 ^ 53) * N.of_nat len / 2 ^ 53 < N.of_nat len)%N).
  { apply N.Div0.div_lt_upper_bound.
    apply N.mul_lt_mono_pos_r; [lia|]. apply N.mod_upper_bound. done. }
  lia.
Qed.

Lemma pool_fresh_cons used p l :
  pool_fresh used (p :: l) ->
  (getProxyId p ∉ used) /\ pool_fresh ({[getProxyId p]} ∪ used) l.
Proof.
  intros [Hnd Hu]. unfold ids in Hnd. simpl in Hnd. apply NoDup_cons in Hnd as [Hp Hnd].
  split; [apply Hu; left|]. split; [done|].
  intros q Hq. rewrite elem_of_union, elem_of_singleton. intros [Heq | Hin].
  - apply Hp. rewrite <- Heq. by apply list_elem_of_fmap_2.
  - by apply (Hu q); [right|].
Qed.

Lemma pool_fresh_splice used (l : list Proxy) i p :
  l !! i = Some p ->
  pool_fresh used l ->
  (getProxyId p ∉ used) /\ pool_fresh ({[getProxyId p]} ∪ used) (splice1 i l).
Proof.
  intros Hi [Hnd Hu].
  pose proof (take_drop_middle l i p Hi) as Hl.
  unfold splice1. rewrite <- Hl in Hnd, Hu.
  unfold ids in *. rewrite fmap_app in Hnd. simpl in Hnd.
  apply NoDup_app in Hnd as (Hn1 & Hdisj & Hn2).
  apply NoDup_cons in Hn2 as [Hp Hn2].
  split; [apply Hu; rewrite elem_of_app; right; left|].
  split.
  - unfold ids. rewrite fmap_app. apply NoDup_app. split; [done|]. split; [|done].
    intros x Hx Hx'. apply (Hdisj x Hx). by right.
  - intros q Hq. rewrite elem_of_union, elem_of_singleton. intros [Heq | Hin].
    + apply elem_of_app in Hq as [Hq | Hq].
      * apply (Hdisj (getProxyId q)); [by apply list_elem_of_fmap_2|].
        rewrite Heq. left.
      * apply Hp. rewrite <- Heq. by apply list_elem_of_fmap_2.
    + apply (Hu q); [|done].
      rewrite elem_of_app in *. destruct Hq; [by left | by right; right].
Qed.

Section NoRepeat.

Variable cfg : Config.
Variable w : World.
Hypothesis Hw : listings_distinct w.

Lemma fetched_free_trans st st1 r :
  usedProxies (vars st1) = usedProxies (vars st) ->
  freeProxyList (vars st1) = freeProxyList (vars st) ->
  freeProxyIndex (vars st1) = freeProxyIndex (vars st) ->
  fetched_free st1 r -> fetched_free st r.
Proof.
  intros Hu Hl Hi [Hu' H]. split; [congruence|].
  destruct r.1; [by rewrite <- Hu | split; destruct H; congruence ..].
Qed.

Lemma fetchFreeProxyList_from_spec rest : forall i st,
  fetched_free st (fetchFreeProxyList_from cfg w rest i st).
Proof.
  induction rest as [| source rest IH]; intros i st; simpl.
  - by split.
  - unfold try_catch, mbind, M_bind, bind at 1. unfold fetchFromUrl.
    set (st1 := mkSt (vars st) _).
    destruct (http_get w (httpCalls (env st)) (url source)) as [body | e] eqn:Hget.
    + (* the list arrived *)
      unfold mbind, M_bind, bind, read. simpl.
      set (newProxies := filter_unused _ _).
      destruct (length newProxies =? 0)%nat eqn:Hlen.
      * (* every entry is used: on to the next source, inside the try *)
        pose proof (IH (i + 1) st1) as H1.
        destruct (fetchFreeProxyList_from cfg w rest (i + 1) st1) as [[l | e |] st2] eqn:E1;
          [done | | done].
        destruct (i + 1 <? length (free_sources cfg))%nat; [|done].
        destruct H1 as (Hu1 & Hl1 & Hi1).
        by apply (fetched_free_trans st st2), IH.
      * (* a new pool *)
        unfold write, ret. simpl. split; [done|]. split; [done|].
        apply Nat.eqb_neq in Hlen. split; [by destruct newProxies|].
        apply pool_fresh_filter_unused.
        assert (Hids : forall lines : list string,
                  (forall line, line ∈ lines -> line <> "") ->
                  ids (map (fun ipPort => mkProxy (Some ipPort) None None
                                            (Some (src_protocol source))
                                            (Some (url source)) None None None) lines)
                  = lines).
        { induction lines as [| line lines IHl]; intros Hne; [done|].
          unfold ids in *. simpl. rewrite getProxyId_line by (apply Hne; left).
          f_equal. apply IHl. intros ? ?. apply Hne. by right. }
        rewrite Hids by apply parse_lines_nonempty.
        by apply (proj1 Hw _ _ _ Hget).
    + (* the download failed *)
      simpl.
      destruct (i + 1 <? length (free_sources cfg))%nat; [|done].
      by apply (fetched_free_trans st st1), IH.
Qed.

Lemma free_inv_consume_rotation used pool idx p :
  pool !! idx = Some p ->
  pool_fresh used (drop idx pool) ->
  (getProxyId p ∉ used) /\ pool_fresh ({[getProxyId p]} ∪ used) (drop (idx + 1) pool).
Proof.
  intros Hp Hf. rewrite (drop_S _ _ _ Hp) in Hf.
  replace (idx + 1) with (S idx) by lia. by apply pool_fresh_cons.
Qed.

Lemma refill_freeProxyList_spec st :
  free_inv cfg (vars st) ->
  let r := refill_freeProxyList cfg w st in
  usedProxies (vars r.2) = usedProxies (vars st)
  /\ free_inv cfg (vars r.2)
  /\ (r.1 = Ret tt -> freeProxyIndex (vars r.2) < length (freeProxyList (vars r.2)))
  /\ r.1 <> Stuck.
Proof.
  intros [Hfresh Hidx]. cbv zeta. unfold refill_freeProxyList.
  unfold mbind, M_bind, bind, read, write, throw, try_catch. simpl.
  destruct (_ || _) eqn:Hc.
  - unfold mbind, M_bind, bind, read, write, throw, try_catch. simpl.
    match goal with |- context [if ?c then _ else _] => destruct c end; simpl.
    { split; [done|]. split; [exact (conj Hfresh Hidx)|]. by split. }
    destruct (length (free_sources cfg)) eqn:Hn; simpl.
    { split; [done|]. split; [exact (conj Hfresh Hidx)|]. by split. }
    unfold fetchFreeProxyList.
    match goal with |- context [fetchFreeProxyList_from cfg w ?rest ?i ?s] =>
      pose proof (fetchFreeProxyList_from_spec rest i s) as (Hu & Hf);
      pose proof (terminates_fetchFreeProxyList_from cfg w rest i s) as Ht;
      destruct (fetchFreeProxyList_from cfg w rest i s) as [[l | e |] st2] end;
      simpl in *; [| | done].
    + destruct Hf as (Hi & Hne & Hpf). split; [done|]. split.
      * split; [by rewrite Hi, drop_0, Hu | by intros _].
      * split; [|done]. intros _. rewrite Hi. destruct (freeProxyList (vars st2)); [done|].
        simpl. lia.
    + destruct Hf as (Hl & Hi). split; [done|]. split; [|done].
      split; [by rewrite Hl, Hi, Hu | by rewrite Hi].
  - apply orb_false_iff in Hc as [Hc1 Hc2].
    apply Nat.leb_gt in Hc2. unfold ret. simpl.
    split; [done|]. split; [exact (conj Hfresh Hidx)|]. by split.
Qed.

Lemma take_freeProxy_spec st :
  free_inv cfg (vars st) ->
  freeProxyIndex (vars st) < length (freeProxyList (vars st)) ->
  handed_out st (take_freeProxy cfg w st)
  /\ free_inv cfg (vars (take_freeProxy cfg w st).2)
  /\ (take_freeProxy cfg w st).1 <> Stuck.
Proof.
  intros [Hfresh Hidx] Hlt. unfold take_freeProxy, handed_out.
  unfold mbind, M_bind, bind, read, write, ret, Math_random. simpl.
  destruct (free_rotateProxies cfg) eqn:Hrot; simpl.
  - (* sequential rotation *)
    destruct (lookup_lt_is_Some_2 _ _ Hlt) as [p Hp]. rewrite Hp. simpl.
    destruct (free_inv_consume_rotation _ _ _ _ Hp Hfresh) as [Hnew Hrest].
    split; [done|]. split; [|done]. split; [done | intros ?; congruence].
  - (* random consumption *)
    specialize (Hidx eq_refl). rewrite Hidx, drop_0 in Hfresh.
    assert (Hri : Js.random_index (math_random w (randomCalls (env st)))
                    (length (freeProxyList (vars st)))
                  < length (freeProxyList (vars st))) by (apply random_index_lt; lia).
    destruct (lookup_lt_is_Some_2 _ _ Hri) as [p Hp]. rewrite Hp. simpl.
    destruct (pool_fresh_splice _ _ _ _ Hp Hfresh) as [Hnew Hrest].
    split; [done|]. split; [|done]. split; [simpl; by rewrite Hidx, drop_0 | by intros _].
Qed.

(** The next-proxy operation on the free list: a returned record was not
    in the registry and is registered by the call; the pool stays
    fresh. *)
Lemma getNextFreeProxy_spec st :
  free_inv cfg (vars st) ->
  handed_out st (getNextFreeProxy cfg w st)
  /\ free_inv cfg (vars (getNextFreeProxy cfg w st).2)
  /\ (getNextFreeProxy cfg w st).1 <> Stuck.
Proof.
  intros Hinv. unfold getNextFreeProxy, mbind, M_bind, bind.
  destruct (refill_freeProxyList_spec st Hinv) as (Hu & Hinv1 & Hlt & Hns).
  destruct (refill_freeProxyList cfg w st) as [[[] | e |] st1]; simpl in *; [| done | done].
  destruct (take_freeProxy_spec st1 Hinv1 (Hlt eq_refl)) as (Hh & Hinv2 & Hns2).
  split; [|done]. unfold handed_out in *.
  destruct (take_freeProxy cfg w st1) as [[p | e |] st2]; simpl in *; by rewrite <- Hu.
Qed.

(** The same for Proxifly. *)
Lemma fetchProxiflyProxies_fuel_spec fuel : forall st,
  fetched_proxifly st (fetchProxiflyProxies_fuel cfg w fuel true st).
Proof.
  induction fuel as [| fuel IH]; intros st; simpl; [by split|].
  destruct (String.eqb _ _); [by split|].
  unfold try_catch, mbind, M_bind, bind, Proxifly_getProxy, read, write, throw, ret.
  simpl.
  set (st1 := mkSt (vars st) _).
  assert (Hfilter : forall ps : list Proxy,
    NoDup (ids ps) ->
    fetched_proxifly st
      (let (o, st') :=
         (if (length (filter_unused (usedProxies (vars st)) ps) =? 0)%nat
          then
            fun st0 : St =>
              (if (MAX_FETCH_ATTEMPTS <=? proxyFetchAttempts (vars st0) + 1)%nat
               then
                 fun st2 : St =>
                   (Throw (new_Error (unable_msg +:+
                             ". All available proxies may have been used.")), st2)
               else fetchProxiflyProxies_fuel cfg w fuel true)
                (mkSt (set_proxyFetchAttempts (proxyFetchAttempts (vars st0) + 1)
                                               (vars st0)) (env st0))
          else
            fun st0 : St =>
              (Ret (filter_unused (usedProxies (vars st)) ps),
               mkSt (set_proxyFetchAttempts 0
                       (set_proxiflyCurrentIndex 0
                          (set_proxiflyProxies
                             (filter_unused (usedProxies (vars st)) ps) (vars st0))))
                    (env st0))) st1 in
       match o with
       | Ret a => (Ret a, st')
       | Throw e => (Throw e, st')
       | Stuck => (Stuck, st')
       end)).
  { intros ps Hnd.
    destruct (length _ =? 0)%nat eqn:Hlen.
    - destruct (_ <=? _)%nat; [by split|].
      match goal with |- context [fetchProxiflyProxies_fuel cfg w fuel true ?s] =>
        pose proof (IH s) as H; destruct (fetchProxiflyProxies_fuel cfg w fuel true s)
          as [[l | e |] st2] end; done.
    - split; [done|]. split; [done|]. apply Nat.eqb_neq in Hlen.
      split; [by destruct (filter_unused _ _)|]. by apply pool_fresh_filter_unused. }
  destruct (proxifly_getProxy w (apiCalls (env st))) as [ps | p | | e] eqn:Hapi; simpl.
  - destruct (length ps =? 0)%nat; simpl; [by split|].
    apply Hfilter. by apply (proj2 Hw _ _ Hapi).
  - apply (Hfilter [p]). unfold ids. simpl. apply NoDup_singleton.
  - by split.
  - by split.
Qed.

Lemma refill_proxiflyProxies_spec st :
  proxifly_inv cfg (vars st) ->
  let r := refill_proxiflyProxies cfg w st in
  usedProxies (vars r.2) = usedProxies (vars st)
  /\ proxifly_inv cfg (vars r.2)
  /\ (r.1 = Ret tt ->
      proxiflyCurrentIndex (vars r.2) < length (proxiflyProxies (vars r.2)))
  /\ r.1 <> Stuck.
Proof.
  intros [Hfresh Hidx]. cbv zeta. unfold refill_proxiflyProxies.
  unfold mbind, M_bind, bind, read, write, throw, try_catch. simpl.
  destruct (_ || _) eqn:Hc.
  - pose proof (fetchProxiflyProxies_fuel_spec MAX_FETCH_ATTEMPTS st) as (Hu & Hf).
    pose proof (terminates_fetchProxiflyProxies cfg w true st) as Ht.
    unfold fetchProxiflyProxies in *.
    destruct (fetchProxiflyProxies_fuel cfg w MAX_FETCH_ATTEMPTS true st)
      as [[l | e |] st2]; simpl in *; [| | done].
    + destruct Hf as (Hi & Hne & Hpf). split; [done|]. split.
      * split; [by rewrite Hi, drop_0, Hu | by intros _].
      * split; [|done]. intros _. rewrite Hi.
        destruct (proxiflyProxies (vars st2)); [done|]. simpl. lia.
    + destruct Hf as (Hl & Hi). split; [done|]. split; [|done].
      split; [by rewrite Hl, Hi, Hu | by rewrite Hi].
  - apply orb_false_iff in Hc as [Hc1 Hc2].
    apply Nat.leb_gt in Hc2. unfold ret. simpl.
    split; [done|]. split; [exact (conj Hfresh Hidx)|]. by split.
Qed.

Lemma take_proxiflyProxy_spec st :
  proxifly_inv cfg (vars st) ->
  proxiflyCurrentIndex (vars st) < length (proxiflyProxies (vars st)) ->
  handed_out st (take_proxiflyProxy cfg w st)
  /\ proxifly_inv cfg (vars (take_proxiflyProxy cfg w st).2)
  /\ (take_proxiflyProxy cfg w st).1 <> Stuck.
Proof.
  intros [Hfresh Hidx] Hlt. unfold take_proxiflyProxy, handed_out.
  unfold mbind, M_bind, bind, read, write, ret, Math_random. simpl.
  destruct (proxifly_rotateProxies cfg) eqn:Hrot; simpl.
  - destruct (lookup_lt_is_Some_2 _ _ Hlt) as [p Hp]. rewrite Hp. simpl.
    destruct (free_inv_consume_rotation _ _ _ _ Hp Hfresh) as [Hnew Hrest].
    split; [done|]. split; [|done]. split; [done | intros ?; congruence].
  - specialize (Hidx eq_refl). rewrite Hidx, drop_0 in Hfresh.
    assert (Hri : Js.random_index (math_random w (randomCalls (env st)))
                    (length (proxiflyProxies (vars st)))
                  < length (proxiflyProxies (vars st))) by (apply random_index_lt; lia).
    destruct (lookup_lt_is_Some_2 _ _ Hri) as [p Hp]. rewrite Hp. simpl.
    destruct (pool_fresh_splice _ _ _ _ Hp Hfresh) as [Hnew Hrest].
    split; [done|]. split; [|done]. split; [simpl; by rewrite Hidx, drop_0 | by intros _].
Qed.

Lemma getNextProxiflyProxy_spec st :
  proxifly_inv cfg (vars st) ->
  handed_out st (getNextProxiflyProxy cfg w st)
  /\ proxifly_inv cfg (vars (getNextProxiflyProxy cfg w st).2)
  /\ (getNextProxiflyProxy cfg w st).1 <> Stuck.
Proof.
  intros Hinv. unfold getNextProxiflyProxy, mbind, M_bind, bind.
  destruct (refill_proxiflyProxies_spec st Hinv) as (Hu & Hinv1 & Hlt & Hns).
  destruct (refill_proxiflyProxies cfg w st) as [[[] | e |] st1]; simpl in *; [| done | done].
  destruct (take_proxiflyProxy_spec st1 Hinv1 (Hlt eq_refl)) as (Hh & Hinv2 & Hns2).
  split; [|done]. unfold handed_out in *.
  destruct (take_proxiflyProxy cfg w st1) as [[p | e |] st2]; simpl in *; by rewrite <- Hu.
Qed.

End NoRepeat.

(** Any number of calls in a row of a next-proxy operation that keeps an
    invariant [I] and registers what it hands out: the records returned
    are pairwise distinct by identity, none was registered before and all
    are afterwards. *)
Lemma draws_distinct (I : Vars -> Prop) (next : M Proxy) :
  (forall st, I (vars st) ->
     handed_out st (next st) /\ I (vars (next st).2) /\ (next st).1 <> Stuck) ->
  forall n st, I (vars st) ->
  exists l st',
    draws next n st = (Ret l, st')
    /\ NoDup (ids l)
    /\ (forall p, p ∈ l ->
          (getProxyId p ∉ usedProxies (vars st)) /\ getProxyId p ∈ usedProxies (vars st'))
    /\ usedProxies (vars st) ⊆ usedProxies (vars st')
    /\ I (vars st').
Proof.
  intros Hnext. induction n as [| n IH]; intros st HI; simpl.
  - exists [], st. split; [done|]. split; [constructor|].
    split; [by intros p Hp; apply elem_of_nil in Hp|]. done.
  - unfold try_catch, mbind, M_bind, bind, ret.
    destruct (Hnext st HI) as (Hh & HI1 & Hns). unfold handed_out in Hh.
    destruct (next st) as [[p | e |] st1]; simpl in *; [| | done].
    + destruct Hh as [Hnew Hu].
      destruct (IH st1 HI1) as (l & st' & -> & Hnd & Hl & Hsub & HI').
      exists (p :: l), st'. split; [done|]. split; [|split; [|split]]; [| | | done].
      * unfold ids. simpl. apply NoDup_cons. split; [|done].
        intros (q & Heq & Hq)%list_elem_of_fmap.
        destruct (Hl q Hq) as [Hq1 _]. apply Hq1. rewrite Hu, <- Heq.
        by apply elem_of_union_l, elem_of_singleton_2.
      * intros q [-> | Hq]%elem_of_cons.
        -- split; [done|]. apply Hsub. rewrite Hu.
           by apply elem_of_union_l, elem_of_singleton_2.
        -- destruct (Hl q Hq) as [Hq1 Hq2]. split; [|done].
           intros Hin. apply Hq1. rewrite Hu. by apply elem_of_union_r.
      * intros x Hx. apply Hsub. rewrite Hu. by apply elem_of_union_r.
    + destruct (IH st1 HI1) as (l & st' & -> & Hnd & Hl & Hsub & HI').
      exists l, st'. split; [done|]. split; [done|]. rewrite <- Hh. done.
Qed.

(** The no-repeat invariant, where it holds: in a world whose listings
    name no proxy twice, from a state whose pool is fresh (a freshly
    loaded module, for one), any number of calls of the next-proxy
    operation of one mode return records of pairwise distinct identity,
    each registered at its consumption. *)
Lemma no_repeat_without_duplicates cfg w n st :
  listings_distinct w ->
  (free_inv cfg (vars st) ->
   exists l st',
     draws (getNextFreeProxy cfg w) n st = (Ret l, st')
     /\ NoDup (ids l)
     /\ (forall p, p ∈ l -> getProxyId p ∈ usedProxies (vars st')))
  /\ (proxifly_inv cfg (vars st) ->
      exists l st',
        draws (getNextProxiflyProxy cfg w) n st = (Ret l, st')
        /\ NoDup (ids l)
        /\ (forall p, p ∈ l -> getProxyId p ∈ usedProxies (vars st'))).
Proof.
  intros Hw. split; intros HI.
  - destruct (draws_distinct (free_inv cfg) (getNextFreeProxy cfg w)
                (getNextFreeProxy_spec cfg w Hw) n st HI)
      as (l & st' & Hd & Hnd & Hl & _).
    exists l, st'. split; [done|]. split; [done|]. intros p Hp. by apply Hl.
  - destruct (draws_distinct (proxifly_inv cfg) (getNextProxiflyProxy cfg w)
                (getNextProxiflyProxy_spec cfg w Hw) n st HI)
      as (l & st' & Hd & Hnd & Hl & _).
    exists l, st'. split; [done|]. split; [done|]. intros p Hp. by apply Hl.
Qed.

Lemma fresh_vars_inv cfg :
  free_inv cfg (fresh_vars cfg) /\ proxifly_inv cfg (fresh_vars cfg).
Proof.
  split; (split; [split; [constructor | by intros p Hp; apply elem_of_nil in Hp] | done]).
Qed.

(** The start of a run keeps the pool of its mode fresh. *)
Lemma fetch_on_start_inv cfg w st :
  listings_distinct w ->
  (proxyMode (vars st) = ModeFreeProxyList -> free_inv cfg (vars st) ->
   free_inv cfg (vars (fetch_on_start cfg w st).2))
  /\ (proxyMode (vars st) = ModeProxifly -> proxifly_inv cfg (vars st) ->
      proxifly_inv cfg (vars (fetch_on_start cfg w st).2)).
Proof.
  intros Hw.
  unfold fetch_on_start, try_catch, mbind, M_bind, bind, read, write, ret. simpl.
  split; intros -> [Hfresh Hidx].
  - unfold fetchFreeProxyList.
    pose proof (fetchFreeProxyList_from_spec cfg w Hw (drop 0 (free_sources cfg)) 0 st)
      as (Hu & Hf).
    destruct (fetchFreeProxyList_from _ _ _ _ _) as [[l | e |] st1]; simpl in *.
    + destruct Hf as (Hi & _ & Hpf).
      split; [by rewrite Hi, drop_0, Hu | by intros _].
    + destruct Hf as (Hl & Hi). split; simpl; [by rewrite Hl, Hi, Hu | by rewrite Hi].
    + destruct Hf as (Hl & Hi). split; simpl; [by rewrite Hl, Hi, Hu | by rewrite Hi].
  - pose proof (fetchProxiflyProxies_fuel_spec cfg w Hw MAX_FETCH_ATTEMPTS st) as (Hu & Hf).
    unfold fetchProxiflyProxies.
    destruct (fetchProxiflyProxies_fuel _ _ _ _ _) as [[l | e |] st1]; simpl in *.
    + destruct Hf as (Hi & _ & Hpf).
      split; [by rewrite Hi, drop_0, Hu | by intros _].
    + destruct Hf as (Hl & Hi). split; simpl; [by rewrite Hl, Hi, Hu | by rewrite Hi].
    + destruct Hf as (Hl & Hi). split; simpl; [by rewrite Hl, Hi, Hu | by rewrite Hi].
Qed.

(** ** Further facts used by the claims *)

Lemma worker_main_returns cfg w u id st :
  exists r st', worker_main cfg w u id st = (Ret (id, r), st').
Proof.
  unfold worker_main, try_catch, mbind, M_bind, bind, ret.
  destruct (scrapeWithRetry_returns cfg w u 0 st) as (r & st' & ->). eauto.
Qed.

Lemma fetch_on_start_missing_key cfg w st :
  proxyMode (vars st) = ModeProxifly ->
  proxifly_apiKey cfg = "" ->
  fetch_on_start cfg w st = (Ret tt, mkSt (set_proxyMode ModeNone (vars st)) (env st)).
Proof.
  intros Hm Hk.
  unfold fetch_on_start, fetchProxiflyProxies, try_catch, mbind, M_bind, bind, read, write.
  simpl. rewrite Hm. simpl. rewrite Hk. done.
Qed.

Lemma getNextFreeProxy_mode cfg w : preserves proxyMode (getNextFreeProxy cfg w).
Proof.
  unfold getNextFreeProxy, refill_freeProxyList, take_freeProxy, fetchFreeProxyList.
  assert (H : forall rest i, preserves proxyMode (fetchFreeProxyList_from cfg w rest i)).
  { induction rest as [| source rest IH]; intros i; simpl; preserves_auto ltac:(apply IH). }
  preserves_auto ltac:(apply H).
Qed.

(** Under free-list pooling an attempt first asks the pool manager; the
    browser is launched only if a record came back, and with that
    record. *)
Lemma attempt_asks_pool_first cfg w u rc ua vp st :
  proxyMode (vars st) = ModeFreeProxyList ->
  match getNextFreeProxy cfg w st with
  | (Ret p, st1) =>
      tr (attempt cfg w u rc ua vp st).2 = tr st1 ++ [EvLaunch (Some p) None]
  | (Throw e, st1) => attempt cfg w u rc ua vp st = (Throw e, st1)
  | (Stuck, st1) => attempt cfg w u rc ua vp st = (Stuck, st1)
  end.
Proof.
  intros Hm. pose proof (getNextFreeProxy_mode cfg w st) as Hp. rewrite Hm in Hp.
  unfold attempt, getBrowserOptions, visit, mbind, M_bind, bind, read, ret, throw. simpl.
  rewrite Hm. simpl.
  destruct (getNextFreeProxy cfg w st) as [[p | e |] st1]; simpl in *; try done.
  rewrite Hp. simpl.
  destruct (browser_visit w _ _ _) as [e | | status rest]; simpl; [done | done |].
  destruct (400 <=? status)%Z.
  - by destruct (_ && _).
  - by destruct rest.
Qed.

(** A failure of a kind the catch block does not retry ends the unit at
    once: no sleep, no further attempt. *)
Lemma non_retryable_fails_at_once cfg w u rc st e st' :
  (userAgent ← getRandomUserAgent w;
   viewport ← getRandomViewport w;
   attempt cfg w u rc userAgent viewport) st = (Throw e, st') ->
  retryable_kind e = false ->
  exists status ua,
    scrapeWithRetry cfg w u rc st = (Ret (Failed (message e) status ua), st').
Proof.
  intros Ha Hk. unfold scrapeWithRetry.
  destruct (scrapeWithRetry_fuel_throw cfg w (maxRetries cfg - rc) u rc st e st' Ha)
    as (ua & ->).
  unfold retries. rewrite Hk. simpl. eauto.
Qed.

(** Once [proxyFetchAttempts] is one short of the ceiling, a call on an
    exhausted pool throws the pool-exhausted error without fetching. *)
Lemma getNextFreeProxy_gives_up cfg w st :
  (length (freeProxyList (vars st)) =? 0)%nat
  || (length (freeProxyList (vars st)) <=? freeProxyIndex (vars st))%nat = true ->
  proxyFetchAttempts (vars st) + 1 = MAX_FETCH_ATTEMPTS ->
  getNextFreeProxy cfg w st
  = (Throw (new_Error unable_msg),
     mkSt (set_proxyFetchAttempts MAX_FETCH_ATTEMPTS (vars st)) (env st)).
Proof.
  intros Hex Hn.
  unfold getNextFreeProxy, refill_freeProxyList, mbind, M_bind, bind, read, write, throw.
  simpl. rewrite Hex. simpl. rewrite Hn. done.
Qed.

(** ** What a unit resolves with *)

Lemma try_block_trace cfg w u rc st :
  exists evs, tr (try_block cfg w u rc st).2 = tr st ++ evs /\ sleeps evs = [].
Proof. apply attempt_trace. Qed.

(** One level of [scrapeWithRetry]. *)
Lemma scrapeWithRetry_fuel_step cfg w fuel u rc st :
  scrapeWithRetry_fuel cfg w (S fuel) u rc st
  = match try_block cfg w u rc st with
    | (Ret r, st') => (Ret r, st')
    | (Throw e, st') =>
        if retries cfg e rc
        then scrapeWithRetry_fuel cfg w fuel u (rc + 1)
               (slept (backoffDelays cfg !! rc) st')
        else (Ret (failure_of e (drawn_agent w st)), st')
    | (Stuck, st') => (Stuck, st')
    end.
Proof.
  simpl.
  unfold try_block, drawn_agent, slept, failure_of, getRandomUserAgent, getRandomViewport,
    try_catch, mbind, M_bind, bind, Math_random, ret. simpl.
  match goal with |- context [attempt cfg w u rc ?ua ?vp ?s] =>
    destruct (attempt cfg w u rc ua vp s) as [[r | e |] st'] end; try done.
  by destruct (retries cfg e rc).
Qed.


Lemma tr_slept d st : tr (slept d st) = tr st ++ [EvSleep d].
Proof. done. Qed.



(** ** What the run loops count *)

Lemma fold_record_result rs : forall results,
  let results' := fold_left record_result rs results in
  total results' = total results + length rs
  /\ successful results' = successful results + length (List.filter success rs)
  /\ failed results'
     = failed results + length (List.filter (fun r => negb (success r)) rs).
Proof.
  induction rs as [| r rs IH]; intros results; simpl; [lia|].
  destruct (IH (record_result results r)) as (Ht & Hs & Hf).
  rewrite Ht, Hs, Hf. destruct r; simpl; lia.
Qed.

Lemma tallies_of_fold rs : tallies_of rs (fold_left record_result rs results0).
Proof.
  destruct (fold_record_result rs results0) as (Ht & Hs & Hf).
  split; [done|]. by rewrite Ht, Hs, Hf.
Qed.

Lemma sequential_iteration_unit cfg w u i results st :
  exists r st',
    sequential_iteration cfg w u i results st = (Ret (record_result results r), st')
    /\ unit_result cfg w u r.
Proof.
  unfold sequential_iteration. unfold mbind, M_bind, bind at 1.
  destruct (scrapeWithRetry_returns cfg w u 0 st) as (r & st1 & Hr). rewrite Hr.
  exists r. destruct (i <? _)%nat; unfold bind, Math_random, emit, ret; simpl;
    eexists; (split; [done|]); by exists st, st1.
Qed.

Lemma sequential_loop_units cfg w u (l : list nat) : forall results st,
  exists rs st',
    for_each l (sequential_iteration cfg w u) results st
    = (Ret (fold_left record_result rs results), st')
    /\ length rs = length l
    /\ Forall (unit_result cfg w u) rs.
Proof.
  induction l as [| i l IH]; intros results st; simpl.
  - by exists [], st.
  - unfold mbind, M_bind, bind.
    destruct (sequential_iteration_unit cfg w u i results st) as (r & st1 & -> & Hr).
    destruct (IH (record_result results r) st1) as (rs & st' & -> & Hl & Hrs).
    exists (r :: rs), st'. split; [done|]. split; [simpl; lia|]. by constructor.
Qed.

Lemma runSequentialScraping_units cfg w u st :
  exists results st' rs,
    runSequentialScraping cfg w u st = (Ret results, st')
    /\ length rs = totalRequests cfg
    /\ Forall (unit_result cfg w u) rs
    /\ tallies_of rs results.
Proof.
  unfold runSequentialScraping. unfold mbind, M_bind, bind.
  destruct (fetch_on_start_returns cfg w st) as (st1 & ->).
  destruct (sequential_loop_units cfg w u (seq 0 (totalRequests cfg)) results0 st1)
    as (rs & st' & -> & Hl & Hrs).
  exists (fold_left record_result rs results0), st', rs.
  split; [done|]. rewrite Hl, length_seq. split; [done|]. split; [done|].
  apply tallies_of_fold.
Qed.

(** A worker posts what [scrapeWithRetry] resolved with in its own
    module. *)
Lemma run_worker_unit cfg w u id st :
  exists r s',
    scrapeWithRetry cfg w u 0 (mkSt (fresh_vars cfg) (env st)) = (Ret r, s')
    /\ run_worker cfg w u id st = (Ret (OnMessage id r), mkSt (vars st) (env s')).
Proof.
  unfold run_worker, worker_main, try_catch, mbind, M_bind, bind, ret.
  destruct (scrapeWithRetry_returns cfg w u 0 (mkSt (fresh_vars cfg) (env st)))
    as (r & s' & Hr).
  rewrite Hr. by exists r, s'.
Qed.

Lemma collect_workers_units cfg w u (ids : list nat) : forall results st,
  exists rs st',
    for_each ids (await_worker cfg w u) results st
    = (Ret (fold_left record_result rs results), st')
    /\ length rs = length ids
    /\ Forall (unit_result cfg w u) rs.
Proof.
  induction ids as [| id ids IH]; intros results st; simpl.
  - by exists [], st.
  - unfold mbind, M_bind, bind. unfold await_worker at 1. unfold mbind, M_bind, bind.
    destruct (run_worker_unit cfg w u id st) as (r & s' & Hr & ->). unfold ret at 1.
    destruct (IH (on_worker_event results (OnMessage id r)) (mkSt (vars st) (env s')))
      as (rs & st' & -> & Hl & Hrs).
    exists (r :: rs), st'. split; [done|]. split; [simpl; lia|].
    constructor; [by eexists _, _ | done].
Qed.

Lemma run_batch_units cfg w u batch results st :
  exists rs st',
    run_batch cfg w u batch results st = (Ret (fold_left record_result rs results), st')
    /\ length rs = length (batch_workers cfg batch)
    /\ Forall (unit_result cfg w u) rs.
Proof.
  unfold run_batch. unfold mbind, M_bind, bind.
  destruct (create_workers_spec (batch_workers cfg batch) st) as (st1 & -> & _).
  destruct (collect_workers_units cfg w u (batch_workers cfg batch) results st1)
    as (rs & st2 & -> & Hl & Hrs).
  exists rs.
  destruct (batch <? _)%nat; unfold Math_random, emit, ret; simpl; by eexists.
Qed.

Lemma batches_loop_units cfg w u (l : list nat) : forall results st,
  exists rs st',
    for_each l (run_batch cfg w u) results st
    = (Ret (fold_left record_result rs results), st')
    /\ length rs = length (concat (map (batch_workers cfg) l))
    /\ Forall (unit_result cfg w u) rs.
Proof.
  induction l as [| batch l IH]; intros results st; simpl.
  - by exists [], st.
  - unfold mbind, M_bind, bind.
    destruct (run_batch_units cfg w u batch results st) as (rs1 & st1 & -> & Hl1 & Hrs1).
    destruct (IH (fold_left record_result rs1 results) st1)
      as (rs & st' & -> & Hl & Hrs).
    exists (rs1 ++ rs), st'. rewrite fold_left_app, !length_app.
    split; [done|]. split; [lia|]. by apply Forall_app.
Qed.

Lemma runConcurrentScraping_units cfg w u st :
  0 < maxConcurrent cfg ->
  exists results st' rs,
    runConcurrentScraping cfg w u st = (Ret results, st')
    /\ length rs = totalRequests cfg
    /\ Forall (unit_result cfg w u) rs
    /\ tallies_of rs results.
Proof.
  intros Hc. unfold runConcurrentScraping. unfold mbind, M_bind, bind.
  destruct (fetch_on_start_returns cfg w st) as (st1 & ->).
  replace (maxConcurrent cfg =? 0)%nat with false by (symmetry; apply Nat.eqb_neq; lia).
  simpl.
  destruct (batches_loop_units cfg w u (seq 0 (num_batches cfg)) results0 st1)
    as (rs & st' & -> & Hl & Hrs).
  fold (batches cfg) in Hl. rewrite concat_batches, length_seq in Hl by done.
  exists (fold_left record_result rs results0), st', rs.
  split; [done|]. split; [done|]. split; [done|]. apply tallies_of_fold.
Qed.



Lemma every_attempt_retryable_step cfg w n u rc st :
  every_attempt_retryable cfg w (S n) u rc st = true ->
  exists e s,
    try_block cfg w u rc st = (Throw e, s)
    /\ retryable_kind e = true
    /\ every_attempt_retryable cfg w n u (rc + 1) (slept (backoffDelays cfg !! rc) s) = true.
Proof.
  intros H.
  change (match try_block cfg w u rc st with
          | (Throw e, st') =>
              retryable_kind e
              && every_attempt_retryable cfg w n u (rc + 1)
                   (slept (backoffDelays cfg !! rc) st')
          | _ => false
          end = true) in H.
  destruct (try_block cfg w u rc st) as [[r | e |] s]; try done.
  apply andb_prop in H as [Hk H]. by exists e, s.
Qed.

(** * The claims *)

(** ** C1: the no-repeat invariant *)

(** C1, not met by the code — a listing that names one proxy on two lines.
    The fetcher filters the listing against the registry only, so both
    records enter the pool, and two calls of the next-proxy operation in
    a row return the same identity: under sequential rotation, under
    random consumption, for the free list and for Proxifly alike.  The
    registry is written at each consumption and ends with one entry for
    two units served. *)
Theorem duplicate_listing_repeats :
  let w := status_world (NetData duplicate_listing) (ApiArray [api_proxy; api_proxy]) 200 in
  let twice cfg next :=
    let r := run cfg (fetch_on_start cfg w;; two_draws next) in
    (value r.1, size (usedProxies (vars r.2))) in
  twice (free_sequential 2) (getNextFreeProxy (free_sequential 2) w)
    = (Some ("1.1.1.1:1080", "1.1.1.1:1080"), 1)
  /\ twice (random_consumption (free_sequential 2))
           (getNextFreeProxy (random_consumption (free_sequential 2)) w)
     = (Some ("1.1.1.1:1080", "1.1.1.1:1080"), 1)
  /\ twice proxifly_sequential (getNextProxiflyProxy proxifly_sequential w)
     = (Some ("3.3.3.3:8080", "3.3.3.3:8080"), 1)
  /\ twice (random_consumption proxifly_sequential)
           (getNextProxiflyProxy (random_consumption proxifly_sequential) w)
     = (Some ("3.3.3.3:8080", "3.3.3.3:8080"), 1)
  /\ (let cfg := free_sequential 2 in
      let r := run cfg (runSequentialScraping cfg w video) in
      identities (launched (tr r.2)) = ["1.1.1.1:1080"; "1.1.1.1:1080"]
      /\ successful <$> value r.1 = Some 2
      /\ size (usedProxies (vars r.2)) = 1).
Proof. by vm_compute. Qed.

(** ** C2: one registry per thread *)

(** C2, not met by the code — each worker thread loads the file again and
    holds a pool and a registry of its own, empty at the start.  The
    registry of the dispatching thread is the same after a concurrent run
    as before it, whatever happened; and with two workers and a listing
    of two proxies, both workers download the second list for their own
    pool (after the one download at the start of the run) and both
    visit with 1.1.1.1:1080, while the statistics the run prints at its
    end count no proxy as used. *)
Theorem workers_hold_replicas :
  (forall cfg w u st,
     usedProxies (vars (runConcurrentScraping cfg w u st).2) = usedProxies (vars st))
  /\ (let cfg := free_concurrent in
      let w := status_world (NetData two_listing) ApiOther 200 in
      let r := run cfg (runConcurrentScraping cfg w video) in
      workers (tr r.2) = [1; 2]
      /\ http_gets (tr r.2) = [ "https://lists.example/socks5.txt";
                                "https://lists.example/all.txt";
                                "https://lists.example/all.txt" ]
      /\ identities (launched (tr r.2)) = ["1.1.1.1:1080"; "1.1.1.1:1080"]
      /\ size (usedProxies (vars r.2)) = 0
      /\ totalUsed <$> value (getProxyStats r.2).1 = Some 0
      /\ successful <$> value r.1 = Some 2).
Proof.
  split; [intros cfg w u st; apply runConcurrentScraping_registry | by vm_compute].
Qed.

(** ** C3: giving up on an exhausted pool *)

(** C3, not met by the code — both sources list only the proxy already
    used.  On the free list a call of the next-proxy operation makes one
    pass over the sources and fails with the error of the fetch; the
    counter is raised before it is compared, so the fifth call in a row
    throws the pool-exhausted error without fetching: four refetch
    attempts, not [MAX_FETCH_ATTEMPTS].  The Proxifly fetcher, which
    counts after fetching, calls the API five times within one call. *)
Theorem free_list_gives_up_early :
  let w := status_world (NetData single_listing) (ApiArray [api_proxy]) 200 in
  (let cfg := free_sequential 1 in
   let r := run cfg (fetch_on_start cfg w;; getNextFreeProxy cfg w;;
                     repeatedly downloads (getNextFreeProxy cfg w) 5) in
   value r.1 = Some [ (Some sources_exhausted_msg, 1); (Some sources_exhausted_msg, 1);
                      (Some sources_exhausted_msg, 1); (Some sources_exhausted_msg, 1);
                      (Some "Unable to fetch new unique proxies after 5 attempts", 0) ])
  /\ (let cfg := proxifly_sequential in
      let r := run cfg (fetch_on_start cfg w;; getNextProxiflyProxy cfg w;;
                        observed api_calls (getNextProxiflyProxy cfg w)) in
      value r.1
      = Some (Some ("Failed to fetch new proxies: " +:+
                    "Unable to fetch new unique proxies after 5 attempts" +:+
                    ". All available proxies may have been used."), 5)).
Proof. by vm_compute. Qed.

(** ** C4: backoff *)

(** C4 — backoff fidelity.  With [maxRetries = 3] and
    [backoffDelays = [100, 300, 900]], a unit whose attempts all fail
    with a retryable kind makes exactly three retries: it goes through
    the [try] block four times, at [retryCount] 0, 1, 2 and 3; the
    [catch] block retries the first three failures, sleeping 100, then
    300, then 900 (the schedule read at the number of the attempt that
    failed) before the next pass starts, and does not retry the fourth:
    the unit ends in the state the fourth pass left, as the failure
    built from the fourth error.  Its trace holds these three sleeps and
    no other. *)
Theorem backoff_fidelity cfg w u st :
  maxRetries cfg = 3 ->
  backoffDelays cfg = [100; 300; 900]%Z ->
  every_attempt_retryable cfg w 4 u 0 st = true ->
  exists e0 e1 e2 e3 s0 s1 s2 st' evs,
    try_block cfg w u 0 st = (Throw e0, s0)
    /\ try_block cfg w u 1 (slept (Some 100%Z) s0) = (Throw e1, s1)
    /\ try_block cfg w u 2 (slept (Some 300%Z) s1) = (Throw e2, s2)
    /\ try_block cfg w u 3 (slept (Some 900%Z) s2) = (Throw e3, st')
    /\ retries cfg e0 0 = true /\ retries cfg e1 1 = true /\ retries cfg e2 2 = true
    /\ retries cfg e3 3 = false
    /\ scrapeWithRetry cfg w u 0 st
       = (Ret (failure_of e3 (drawn_agent w (slept (Some 900%Z) s2))), st')
    /\ tr st' = tr st ++ evs
    /\ sleeps evs = [Some 100; Some 300; Some 900]%Z.
Proof.
  intros Hmax Hdelays Hall.
  apply every_attempt_retryable_step in Hall as (e0 & s0 & E0 & K0 & Hall).
  apply every_attempt_retryable_step in Hall as (e1 & s1 & E1 & K1 & Hall).
  apply every_attempt_retryable_step in Hall as (e2 & s2 & E2 & K2 & Hall).
  apply every_attempt_retryable_step in Hall as (e3 & s3 & E3 & K3 & _).
  rewrite Hdelays in E1, E2, E3. simpl in E1, E2, E3.
  destruct (try_block_trace cfg w u 0 st) as (a0 & T0 & S0).
  destruct (try_block_trace cfg w u 1 (slept (Some 100%Z) s0)) as (a1 & T1 & S1).
  destruct (try_block_trace cfg w u 2 (slept (Some 300%Z) s1)) as (a2 & T2 & S2).
  destruct (try_block_trace cfg w u 3 (slept (Some 900%Z) s2)) as (a3 & T3 & S3).
  rewrite E0 in T0. rewrite E1 in T1. rewrite E2 in T2. rewrite E3 in T3. simpl in *.
  assert (R0 : retries cfg e0 0 = true) by (unfold retries; by rewrite K0, Hmax).
  assert (R1 : retries cfg e1 1 = true) by (unfold retries; by rewrite K1, Hmax).
  assert (R2 : retries cfg e2 2 = true) by (unfold retries; by rewrite K2, Hmax).
  assert (R3 : retries cfg e3 3 = false) by (unfold retries; by rewrite K3, Hmax).
  exists e0, e1, e2, e3, s0, s1, s2, s3,
    (a0 ++ EvSleep (Some 100%Z) :: a1 ++ EvSleep (Some 300%Z) :: a2
        ++ EvSleep (Some 900%Z) :: a3).
  do 8 (split; [done|]).
  split; [|split].
  - unfold scrapeWithRetry. rewrite Hmax. simpl Nat.sub.
    rewrite scrapeWithRetry_fuel_step, E0, R0, Hdelays. simpl lookup. simpl Nat.add.
    rewrite scrapeWithRetry_fuel_step, E1, R1, Hdelays. simpl lookup. simpl Nat.add.
    rewrite scrapeWithRetry_fuel_step, E2, R2, Hdelays. simpl lookup. simpl Nat.add.
    by rewrite scrapeWithRetry_fuel_step, E3, R3.
  - rewrite T3, tr_slept, T2, tr_slept, T1, tr_slept, T0, <- !app_assoc. done.
  - rewrite !sleeps_app. simpl. rewrite !sleeps_app. simpl. rewrite !sleeps_app. simpl.
    by rewrite S0, S1, S2, S3.
Qed.

(** C4, at a configuration with three retries and the schedule 100, 300,
    900, in a world where every visit times out. *)
Lemma backoff_fidelity_witness :
  let cfg := scenario 3 [100; 300; 900]%Z 1 1 ModeNone "" in
  let w := timeout_world in
  let u := "https://www.youtube.com/watch" in
  let st := mkSt (fresh_vars cfg) fresh_env in
  (maxRetries cfg = 3
   /\ backoffDelays cfg = [100; 300; 900]%Z
   /\ every_attempt_retryable cfg w 4 u 0 st = true)
  /\ exists e0 e1 e2 e3 s0 s1 s2 st' evs,
       try_block cfg w u 0 st = (Throw e0, s0)
       /\ try_block cfg w u 1 (slept (Some 100%Z) s0) = (Throw e1, s1)
       /\ try_block cfg w u 2 (slept (Some 300%Z) s1) = (Throw e2, s2)
       /\ try_block cfg w u 3 (slept (Some 900%Z) s2) = (Throw e3, st')
       /\ retries cfg e0 0 = true /\ retries cfg e1 1 = true /\ retries cfg e2 2 = true
       /\ retries cfg e3 3 = false
       /\ scrapeWithRetry cfg w u 0 st
          = (Ret (failure_of e3 (drawn_agent w (slept (Some 900%Z) s2))), st')
       /\ tr st' = tr st ++ evs
       /\ sleeps evs = [Some 100; Some 300; Some 900]%Z.
Proof.
  intros cfg w u st. split; [by vm_compute|].
  apply backoff_fidelity; reflexivity.
Defined.

(** ** C5: what counts as retryable *)

(** C5, not met by the code — the server-fault test is "the message
    contains a 5".  A response 405, a client error that the try block
    itself throws without its "Retry available" mark, is classified
    retryable and retried [maxRetries] times with the full backoff
    schedule, where the claim has it fail at once. *)
Theorem client_error_is_retried :
  let cfg := scenario 5 schedule 1 1 ModeNone "" in
  let w := status_world (NetData "") ApiOther 405 in
  let r := run cfg (scrapeWithRetry cfg w video 0) in
  isServerError (new_Error "HTTP 405") = true
  /\ retryable_kind (new_Error "HTTP 405") = true
  /\ sleeps (tr r.2) = [Some 1000; Some 3000; Some 5000; Some 9000; Some 15000]%Z
  /\ length (launched (tr r.2)) = 6
  /\ (exists ua, value r.1 = Some (Failed "HTTP 405" (Some "405") ua)).
Proof. vm_compute. repeat split. eauto. Qed.

(** ** C6: no validation at start *)

(** The run of an invalid configuration, looked at: two retries with an
    empty schedule sleep twice for an undefined delay, and the unit is
    recorded as failed. *)
Example short_schedule_run :
  let w := status_world (NetData "") ApiOther 503 in
  let r := run short_schedule (runSequentialScraping short_schedule w video) in
  tr r.2 = [EvLaunch None None; EvSleep None; EvLaunch None None; EvSleep None;
            EvLaunch None None]
  /\ total <$> value r.1 = Some 1 /\ failed <$> value r.1 = Some 1.
Proof. by vm_compute. Qed.

(** C6, refuted as stated: a schedule shorter than [maxRetries] and a
    missing Proxifly key are both configurations that validation would
    have to refuse, and with neither does the run stop before dispatch. *)
Lemma fails_fast_counterexample :
  ~ fails_fast short_schedule (status_world (NetData "") ApiOther 503) video
  /\ ~ fails_fast missing_credential (status_world (NetData "") ApiOther 200) video.
Proof.
  split; intros H.
  - destruct H as [[[e He] _] _].
    + left. simpl. lia.
    + vm_compute in He. discriminate.
  - destruct H as [[[e He] _] _].
    + right. done.
    + vm_compute in He. discriminate.
Qed.

(** C6, as amended — the program validates no configuration.  Whatever
    the backoff schedule and the credential, the run is not stopped:
    both run functions return after recording all [totalRequests] units,
    the concurrent one having created all its workers.  A missing
    Proxifly key makes the first fetch throw before any call of the API;
    the error is caught, [proxyMode] becomes 'none', and the sequential
    run ends in that mode. *)
Theorem no_validation_at_start cfg w u st :
  0 < maxConcurrent cfg ->
  (exists results st',
     runSequentialScraping cfg w u st = (Ret results, st')
     /\ total results = totalRequests cfg)
  /\ (exists results st' evs,
        runConcurrentScraping cfg w u st = (Ret results, st')
        /\ total results = totalRequests cfg
        /\ tr st' = tr st ++ evs
        /\ workers evs = seq 1 (totalRequests cfg))
  /\ (proxyMode (vars st) = ModeProxifly -> proxifly_apiKey cfg = "" ->
      fetch_on_start cfg w st = (Ret tt, mkSt (set_proxyMode ModeNone (vars st)) (env st))
      /\ proxyMode (vars (runSequentialScraping cfg w u st).2) = ModeNone).
Proof.
  intros Hc. split; [|split].
  - destruct (runSequentialScraping_returns cfg w u st) as (results & st' & Hrun & Ht & _).
    by exists results, st'.
  - destruct (runConcurrentScraping_spec cfg w u st Hc)
      as (results & st' & evs & Hrun & Ht & _ & Htr & Hw).
    by exists results, st', evs.
  - intros Hm Hk.
    pose proof (fetch_on_start_missing_key cfg w st Hm Hk) as Hs.
    split; [done|].
    unfold runSequentialScraping. unfold mbind, M_bind, bind. rewrite Hs.
    match goal with |- context [for_each ?l ?b ?r ?s] =>
      destruct (sequential_loop_mode_none cfg w u l r s) as [Hv _]; [done|] end.
    by rewrite Hv.
Qed.

(** C6 as amended, at the configuration without a key. *)
Lemma no_validation_at_start_witness :
  let cfg := missing_credential in
  let w := status_world (NetData "") ApiOther 200 in
  let st := mkSt (fresh_vars cfg) fresh_env in
  (0 < maxConcurrent cfg /\ config_invalid cfg)
  /\ (exists results st',
        runSequentialScraping cfg w video st = (Ret results, st')
        /\ total results = totalRequests cfg)
  /\ (exists results st' evs,
        runConcurrentScraping cfg w video st = (Ret results, st')
        /\ total results = totalRequests cfg
        /\ tr st' = tr st ++ evs
        /\ workers evs = seq 1 (totalRequests cfg))
  /\ fetch_on_start cfg w st = (Ret tt, mkSt (set_proxyMode ModeNone (vars st)) (env st))
  /\ proxyMode (vars (runSequentialScraping cfg w video st).2) = ModeNone.
Proof.
  intros cfg w st. split; [split; [simpl; lia | by right]|].
  destruct (no_validation_at_start cfg w video st) as (Hseq & Hconc & Hkey);
    [simpl; lia|].
  split; [exact Hseq|]. split; [exact Hconc|]. exact (Hkey eq_refl eq_refl).
Defined.

(** ** C7: results, not exceptions *)



(** ** C8: batches *)

(** C8 — batch sizing.  The concurrent dispatcher cuts [totalRequests]
    into ceiling(totalRequests / maxConcurrent) batches, all of size
    [maxConcurrent] but possibly the last, which is smaller and not
    empty; 11 requests by 4 give batches of 4, 4 and 3; the batches are
    the worker ids 1 to [totalRequests] in order, and a run creates
    exactly these workers and records [totalRequests] results. *)
Theorem batch_sizing cfg w u st :
  0 < maxConcurrent cfg ->
  (totalRequests cfg <= length (batches cfg) * maxConcurrent cfg
   /\ length (batches cfg) * maxConcurrent cfg < totalRequests cfg + maxConcurrent cfg)
  /\ (forall i b, batches cfg !! i = Some b -> i + 1 < length (batches cfg) ->
                  length b = maxConcurrent cfg)
  /\ (forall b, last (batches cfg) = Some b -> 0 < length b <= maxConcurrent cfg)
  /\ concat (batches cfg) = seq 1 (totalRequests cfg)
  /\ (totalRequests cfg = 11 -> maxConcurrent cfg = 4 ->
      map length (batches cfg) = [4; 4; 3])
  /\ exists results st' evs,
       runConcurrentScraping cfg w u st = (Ret results, st')
       /\ tr st' = tr st ++ evs
       /\ workers evs = concat (batches cfg)
       /\ total results = totalRequests cfg.
Proof.
  intros Hc.
  pose proof (num_batches_ceiling cfg Hc) as [Hlo Hhi].
  rewrite length_batches.
  split; [done|]. split; [|split; [|split; [|split]]].
  - intros i b [Hi ->]%batches_lookup Hlast.
    rewrite batch_workers_seq, length_seq. nia.
  - intros b Hb. rewrite last_lookup, length_batches in Hb.
    apply batches_lookup in Hb as [Hi ->].
    rewrite batch_workers_seq, length_seq. nia.
  - by apply concat_batches.
  - intros Ht Hm. unfold batches, num_batches. rewrite Ht, Hm. simpl.
    rewrite !batch_workers_seq, !length_seq, Ht, Hm. reflexivity.
  - destruct (runConcurrentScraping_spec cfg w u st Hc)
      as (results & st' & evs & Hrun & Ht & _ & Htr & Hw).
    exists results, st', evs. by rewrite concat_batches.
Qed.

(** C8, at eleven requests by four workers. *)
Lemma batch_sizing_witness :
  let cfg := scenario 5 [1000; 3000; 5000; 9000; 15000]%Z 4 11 ModeNone "" in
  let w := timeout_world in
  let u := "https://www.youtube.com/watch" in
  let st := mkSt (fresh_vars cfg) fresh_env in
  0 < maxConcurrent cfg
  /\ (totalRequests cfg <= length (batches cfg) * maxConcurrent cfg
      /\ length (batches cfg) * maxConcurrent cfg < totalRequests cfg + maxConcurrent cfg)
  /\ (forall i b, batches cfg !! i = Some b -> i + 1 < length (batches cfg) ->
                  length b = maxConcurrent cfg)
  /\ (forall b, last (batches cfg) = Some b -> 0 < length b <= maxConcurrent cfg)
  /\ concat (batches cfg) = seq 1 (totalRequests cfg)
  /\ (totalRequests cfg = 11 -> maxConcurrent cfg = 4 ->
      map length (batches cfg) = [4; 4; 3])
  /\ exists results st' evs,
       runConcurrentScraping cfg w u st = (Ret results, st')
       /\ tr st' = tr st ++ evs
       /\ workers evs = concat (batches cfg)
       /\ total results = totalRequests cfg.
Proof.
  intros cfg w u st. split; [simpl; lia|].
  apply batch_sizing. simpl; lia.
Defined.

(** ** C9: the retry and the failed attempt's proxy *)

(** C9, not met by the code — every attempt does take a new record from
    the pool manager before the browser is launched, but the record of
    the retry can be the proxy of the attempt that failed: with a listing
    that names one proxy twice, the first attempt (answered 503) and its
    retry both run on 1.1.1.1:1080. *)
Theorem retry_reuses_proxy :
  let cfg := free_sequential 1 in
  let w := status_world (NetData duplicate_listing) ApiOther 503 in
  let r := run cfg (fetch_on_start cfg w;; scrapeWithRetry cfg w video 0) in
  identities (launched (tr r.2)) = ["1.1.1.1:1080"; "1.1.1.1:1080"]
  /\ sleeps (tr r.2) = [Some 1000; Some 3000]%Z
  /\ success <$> value r.1 = Some false.
Proof. by vm_compute. Qed.

(** ** C10: falling back to direct connections *)

(** C10, not met by the code — no list can be downloaded.  The
    sequential run falls back: [proxyMode] becomes 'none' and both units
    visit without a proxy.  The concurrent run sets [proxyMode] to 'none'
    in the dispatching thread only; its workers load the configuration as
    written, ask their own pool manager, fail to fetch, and end as
    failures without a single visit.  The same with Proxifly and no
    key. *)
Theorem fallback_not_seen_by_workers :
  let w := status_world (NetError not_found) ApiOther 200 in
  (let cfg := free_sequential 2 in
   let r := run cfg (runSequentialScraping cfg w video) in
   proxyMode (vars r.2) = ModeNone
   /\ launched (tr r.2) = [None; None]
   /\ proxy_servers (tr r.2) = [None; None]
   /\ successful <$> value r.1 = Some 2)
  /\ (let cfg := free_concurrent in
      let r := run cfg (runConcurrentScraping cfg w video) in
      proxyMode (vars r.2) = ModeNone
      /\ workers (tr r.2) = [1; 2]
      /\ launched (tr r.2) = []
      /\ successful <$> value r.1 = Some 0
      /\ failed <$> value r.1 = Some 2)
  /\ (let cfg := scenario 5 schedule 2 2 ModeProxifly "" in
      let r := run cfg (runConcurrentScraping cfg w video) in
      proxyMode (vars r.2) = ModeNone
      /\ launched (tr r.2) = []
      /\ failed <$> value r.1 = Some 2).
Proof. by vm_compute. Qed.

(** * Further properties of the program *)

(** ** Strings *)

Lemma append_cons c (s t : string) : String c s +:+ t = String c (s +:+ t).
Proof. reflexivity. Qed.

Lemma append_nil_r (s : string) : s +:+ "" = s.
Proof. induction s as [| c s IH]; [done|]. by rewrite append_cons, IH. Qed.

Lemma append_assoc (a b c : string) : (a +:+ b) +:+ c = a +:+ b +:+ c.
Proof. induction a as [| x a IH]; [done|]. by rewrite !append_cons, IH. Qed.

Lemma split_newline_cons c s :
  Js.split_newline (String c s)
  = if Ascii.eqb c "010" then "" :: Js.split_newline s
    else match Js.split_newline s with
         | l :: ls => String c l :: ls
         | [] => [String c ""]
         end.
Proof. reflexivity. Qed.

Lemma split_newline_nonempty s : Js.split_newline s <> [].
Proof.
  induction s as [| c s IH]; [done|]. rewrite split_newline_cons.
  destruct (Ascii.eqb c "010"); [done|]. by destruct (Js.split_newline s).
Qed.

Lemma is_ws_newline c : Ascii.eqb c "010" = true -> Js.is_ws c = true.
Proof. intros ->%Ascii.eqb_eq. reflexivity. Qed.

Lemma trim_left_blank s : blank s = true -> Js.trim_left s = "".
Proof.
  induction s as [| c s IH]; [done|]. simpl.
  intros [Hc Hs]%andb_prop. rewrite Hc. by apply IH.
Qed.

Lemma trim_blank s : blank s = true -> Js.trim s = "".
Proof. intros H. unfold Js.trim. by rewrite trim_left_blank. Qed.

Lemma trim_ws_cons c s : Js.is_ws c = true -> Js.trim (String c s) = Js.trim s.
Proof. intros Hc. unfold Js.trim. simpl. by rewrite Hc. Qed.

Lemma trim_right_blank s : blank s = true -> Js.trim_right s = "".
Proof.
  induction s as [| c s IH]; [done|]. simpl.
  intros [Hc Hs]%andb_prop. by rewrite (IH Hs), Hc.
Qed.

Lemma visible_not_ws c : visible c = true -> Js.is_ws c = false.
Proof.
  unfold visible, Js.is_ws. intros [H1 H2]%andb_prop.
  apply Nat.leb_le in H1, H2.
  apply orb_false_iff. split.
  - apply Nat.eqb_neq. lia.
  - apply andb_false_iff. right. apply Nat.leb_gt. lia.
Qed.

Lemma trim_right_solid l h :
  solid l = true -> blank h = true -> Js.trim_right (l +:+ h) = l.
Proof.
  induction l as [| c l IH]; intros Hl Hh.
  - by apply trim_right_blank.
  - rewrite append_cons. unfold solid in Hl. cbn [every] in Hl.
    apply andb_prop in Hl as [Hc Hl]. apply visible_not_ws in Hc.
    simpl. rewrite (IH Hl Hh). by rewrite Hc.
Qed.

Lemma trim_solid l h :
  l <> "" -> solid l = true -> blank h = true -> Js.trim (l +:+ h) = l.
Proof.
  intros Hne Hl Hh. unfold Js.trim.
  destruct l as [| c l]; [done|]. rewrite append_cons.
  assert (Hc : Js.is_ws c = false).
  { unfold solid in Hl. cbn [every] in Hl. apply andb_prop in Hl as [Hc _].
    by apply visible_not_ws. }
  simpl Js.trim_left. rewrite Hc. rewrite <- append_cons. by apply trim_right_solid.
Qed.

(** Leading white space, line feeds included, does not show in the
    parsed list. *)
Lemma parse_lines_blank_prefix p x :
  blank p = true -> parse_lines (p +:+ x) = parse_lines x.
Proof.
  induction p as [| c p IH]; [done|].
  intros [Hc Hp]%andb_prop. rewrite append_cons. rewrite <- (IH Hp).
  unfold parse_lines. rewrite split_newline_cons.
  destruct (Ascii.eqb c "010"); [done|].
  pose proof (split_newline_nonempty (p +:+ x)) as Hne.
  destruct (Js.split_newline (p +:+ x)) as [| l ls]; [done|].
  simpl map. by rewrite trim_ws_cons.
Qed.

Lemma parse_lines_blank q : blank q = true -> parse_lines q = [].
Proof.
  intros Hq. rewrite <- (append_nil_r q). rewrite parse_lines_blank_prefix by done.
  reflexivity.
Qed.

Lemma split_newline_solid l r :
  solid l = true ->
  Js.split_newline (l +:+ r)
  = (l +:+ hd "" (Js.split_newline r)) :: tl (Js.split_newline r).
Proof.
  induction l as [| c l IH]; intros Hl.
  - change ("" +:+ r) with r.
    pose proof (split_newline_nonempty r). by destruct (Js.split_newline r).
  - unfold solid in Hl. cbn [every] in Hl. apply andb_prop in Hl as [Hc Hl].
    rewrite append_cons, split_newline_cons.
    destruct (Ascii.eqb c "010") eqn:E.
    { apply visible_not_ws in Hc. by rewrite (is_ws_newline _ E) in Hc. }
    by rewrite (IH Hl).
Qed.

Lemma parse_lines_solid l r :
  l <> "" -> solid l = true ->
  blank (hd "" (Js.split_newline r)) = true ->
  parse_lines (l +:+ r) = l :: parse_lines r.
Proof.
  intros Hne Hl Hr. unfold parse_lines. rewrite split_newline_solid by done.
  pose proof (split_newline_nonempty r) as Hs.
  destruct (Js.split_newline r) as [| h t]; [done|]. simpl hd in *. simpl tl.
  simpl map. rewrite trim_solid, trim_blank by done. simpl.
  destruct l; [done|]. done.
Qed.

Lemma blank_head_blank q : blank q = true -> blank (hd "" (Js.split_newline q)) = true.
Proof.
  induction q as [| c q IH]; [done|].
  intros [Hc Hq]%andb_prop. rewrite split_newline_cons.
  destruct (Ascii.eqb c "010"); [done|].
  specialize (IH Hq). unfold blank in *.
  destruct (Js.split_newline q); cbn [hd every] in *; by rewrite Hc.
Qed.

Lemma blank_head_sep sep y :
  blank sep = true -> Js.includes nl sep = true ->
  blank (hd "" (Js.split_newline (sep +:+ y))) = true.
Proof.
  induction sep as [| c sep IH]; [done|].
  intros [Hc Hs]%andb_prop Hin. rewrite append_cons, split_newline_cons.
  destruct (Ascii.eqb c "010") eqn:E; [done|].
  assert (Hin' : Js.includes nl sep = true).
  { change (Js.includes nl (String c sep))
      with (String.prefix nl (String c sep) || Js.includes nl sep) in Hin.
    apply orb_prop in Hin as [Hp | Hi]; [|done].
    exfalso. unfold nl in Hp. cbn [String.prefix] in Hp.
    destruct (ascii_dec "010" c) as [<- | ?]; [| done].
    by rewrite Ascii.eqb_refl in E. }
  specialize (IH Hs Hin'). unfold blank in *.
  destruct (Js.split_newline (sep +:+ y)); cbn [hd every] in *; by rewrite Hc.
Qed.

Lemma concat_cons2 sep l l' ls :
  String.concat sep (l :: l' :: ls) = l +:+ sep +:+ String.concat sep (l' :: ls).
Proof. reflexivity. Qed.

Lemma parse_lines_concat sep lines q :
  blank sep = true -> Js.includes nl sep = true -> blank q = true ->
  Forall (fun l => l <> "" /\ solid l = true) lines ->
  parse_lines (String.concat sep lines +:+ q) = lines.
Proof.
  intros Hsep Hnl Hq. induction 1 as [| l lines [Hne Hl] _ IH].
  - by apply parse_lines_blank.
  - destruct lines as [| l' lines].
    + simpl String.concat. rewrite parse_lines_solid, parse_lines_blank; try done.
      by apply blank_head_blank.
    + rewrite concat_cons2, !append_assoc.
      rewrite parse_lines_solid; [| done | done | by apply blank_head_sep].
      by rewrite parse_lines_blank_prefix, IH.
Qed.

(** Decimal numerals. *)
Lemma pretty_N_char_digit x : Js.is_digit (pretty_N_char x) = true.
Proof. unfold pretty_N_char. by repeat case_match. Qed.

Lemma pretty_N_go_digits x : forall s,
  every Js.is_digit s = true -> every Js.is_digit (pretty_N_go x s) = true.
Proof.
  induction (N.lt_wf_0 x) as [x _ IH]; intros s Hs.
  destruct (decide (x = 0)%N) as [-> | Hx]; [by rewrite pretty_N_go_0|].
  rewrite pretty_N_go_step by lia.
  apply IH; [apply N.div_lt; lia|].
  simpl. by rewrite pretty_N_char_digit.
Qed.

Lemma pretty_N_go_nonempty x : forall s, s <> "" -> pretty_N_go x s <> "".
Proof.
  induction (N.lt_wf_0 x) as [x _ IH]; intros s Hs.
  destruct (decide (x = 0)%N) as [-> | Hx]; [by rewrite pretty_N_go_0|].
  rewrite pretty_N_go_step by lia.
  apply IH; [apply N.div_lt; lia | done].
Qed.

Lemma pretty_Z_digits (n : Z) :
  (0 <= n)%Z -> every Js.is_digit (pretty n) = true /\ pretty n <> "".
Proof.
  intros Hn. destruct n as [| p | p]; [done | | lia].
  unfold pretty, pretty_Z, pretty, pretty_positive, pretty, pretty_N.
  destruct (decide (N.pos p = 0)%N); [done|]. split.
  - by apply pretty_N_go_digits.
  - rewrite pretty_N_go_step by lia. by apply pretty_N_go_nonempty.
Qed.

Lemma take_digits_app d rest :
  every Js.is_digit d = true ->
  Js.take_digits rest = "" ->
  Js.take_digits (d +:+ rest) = d.
Proof.
  induction d as [| c d IH]; intros Hd Hr; [done|].
  rewrite append_cons. simpl in *. apply andb_prop in Hd as [Hc Hd]. rewrite Hc.
  f_equal. by apply IH.
Qed.

Lemma match_http_status_here d rest :
  every Js.is_digit d = true -> d <> "" ->
  Js.take_digits rest = "" ->
  Js.match_http_status ("HTTP " +:+ d +:+ rest) = Some d.
Proof.
  intros Hd Hne Hr.
  change (Js.match_http_status ("HTTP " +:+ d +:+ rest))
    with (match match Js.take_digits (d +:+ rest) with
                | EmptyString => None
                | d0 => Some d0
                end with
          | Some d0 => Some d0
          | None => Js.match_http_status ("TTP " +:+ d +:+ rest)
          end).
  rewrite take_digits_app by done. by destruct d.
Qed.

Lemma http_error_status cfg status rc :
  (0 <= status)%Z ->
  Js.match_http_status (message (http_error cfg status rc)) = Some (pretty status).
Proof.
  intros Hs. destruct (pretty_Z_digits status Hs) as [Hd Hne].
  unfold http_error. destruct (_ && _); simpl message.
  - by apply match_http_status_here.
  - rewrite <- (append_nil_r (pretty status)) at 1.
    by apply match_http_status_here.
Qed.

(** ** The free lists *)

(** X1 — a listing is read back line by line.  A list of proxies written
    one to a line, the lines separated by any white space that holds a
    line feed (LF, CR LF, blank lines between), with any white space
    before the first and after the last, is parsed to exactly its
    lines, in order; a line is non-empty and made of visible ASCII
    characters. *)
Theorem listing_round_trip sep lines p q :
  blank sep = true -> Js.includes nl sep = true ->
  blank p = true -> blank q = true ->
  Forall (fun l => l <> "" /\ solid l = true) lines ->
  parse_lines (p +:+ String.concat sep lines +:+ q) = lines.
Proof.
  intros Hsep Hnl Hp Hq Hlines.
  rewrite parse_lines_blank_prefix by done. by apply parse_lines_concat.
Qed.

(** X1, at two proxies on lines ended by CR LF. *)
Lemma listing_round_trip_witness :
  let lines := ["1.1.1.1:1080"; "2.2.2.2:8080"] in
  (blank crlf = true /\ Js.includes nl crlf = true
   /\ blank "" = true /\ blank crlf = true
   /\ Forall (fun l => l <> "" /\ solid l = true) lines)
  /\ parse_lines ("" +:+ String.concat crlf lines +:+ crlf) = lines.
Proof.
  intros lines.
  assert (H : Forall (fun l => l <> "" /\ solid l = true) lines).
  { repeat constructor; done. }
  split; [by repeat split|].
  by apply listing_round_trip.
Defined.

Lemma getProxyId_listed source line : line <> "" -> getProxyId (listed source line) = line.
Proof. apply getProxyId_line. Qed.

Lemma filter_unused_listed used source lines :
  Forall (fun p => exists line, p = listed source line /\ line <> "" /\ line ∉ used)
         (filter_unused used (map (listed source) (List.filter
            (fun line => negb (Nat.eqb (String.length line) 0)) lines))).
Proof.
  induction lines as [| line lines IH]; [constructor|].
  cbn [List.filter]. destruct (String.length line =? 0)%nat eqn:Hlen; cbn [negb]; [done|].
  assert (Hne : line <> "") by (by intros ->).
  unfold filter_unused in *. cbn [map List.filter].
  rewrite getProxyId_listed by done.
  destruct (bool_decide (line ∈ used)) eqn:Hd; cbn [negb]; [done|].
  constructor; [| done]. exists line. split; [done|]. split; [done|].
  by apply bool_decide_eq_false in Hd.
Qed.

Lemma fetchFreeProxyList_from_success cfg w rest : forall i st l st',
  fetchFreeProxyList_from cfg w rest i st = (Ret l, st') ->
  exists k source,
    rest !! k = Some source
    /\ currentSourceIndex (vars st') = i + k
    /\ proxyFetchAttempts (vars st') = 0
    /\ freeProxyIndex (vars st') = 0
    /\ freeProxyList (vars st') = l
    /\ l <> []
    /\ Forall (fun p => exists line,
                 p = listed source line /\ line <> "" /\ line ∉ usedProxies (vars st)) l.
Proof.
  induction rest as [| source rest IH]; intros i st l st'; simpl; [done|].
  assert (Hnext : forall s,
    usedProxies (vars s) = usedProxies (vars st) ->
    fetchFreeProxyList_from cfg w rest (i + 1) s = (Ret l, st') ->
    exists k source0,
      (source :: rest) !! k = Some source0
      /\ currentSourceIndex (vars st') = i + k
      /\ proxyFetchAttempts (vars st') = 0
      /\ freeProxyIndex (vars st') = 0
      /\ freeProxyList (vars st') = l
      /\ l <> []
      /\ Forall (fun p => exists line,
                   p = listed source0 line /\ line <> "" /\ line ∉ usedProxies (vars st)) l).
  { intros s Hs Hrun.
    destruct (IH _ _ _ _ Hrun) as (k & source0 & Hk & Hc & Hrest).
    exists (S k), source0. split; [done|]. split; [lia|]. by rewrite <- Hs. }
  assert (Hcatch : forall e s,
    usedProxies (vars s) = usedProxies (vars st) ->
    (if (i + 1 <? length (free_sources cfg))%nat
     then fetchFreeProxyList_from cfg w rest (i + 1)
     else throw (new_Error ("Failed to fetch proxies from all sources: " +:+ message e))) s
    = (Ret l, st') ->
    exists k source0,
      (source :: rest) !! k = Some source0
      /\ currentSourceIndex (vars st') = i + k
      /\ proxyFetchAttempts (vars st') = 0
      /\ freeProxyIndex (vars st') = 0
      /\ freeProxyList (vars st') = l
      /\ l <> []
      /\ Forall (fun p => exists line,
                   p = listed source0 line /\ line <> "" /\ line ∉ usedProxies (vars st)) l).
  { intros e s Hs. destruct (_ <? _)%nat; [by apply Hnext | done]. }
  unfold try_catch, mbind, M_bind. unfold bind at 1. unfold fetchFromUrl.
  destruct (http_get w _ _) as [body | e]; [| by apply Hcatch].
  unfold bind at 1. unfold read at 1. simpl.
  pose proof (filter_unused_listed (usedProxies (vars st)) source
                (map Js.trim (Js.split_newline body))) as HF.
  fold (parse_lines body) in HF. fold (listed source).
  change (fun ipPort : string =>
            mkProxy (Some ipPort) None None (Some (src_protocol source))
                    (Some (url source)) None None None) with (listed source).
  set (new := filter_unused _ _) in *.
  destruct (length new =? 0)%nat eqn:Hlen.
  - set (s := mkSt _ _).
    pose proof (fetchFreeProxyList_from_registry cfg w rest (i + 1) s) as Hu.
    destruct (fetchFreeProxyList_from cfg w rest (i + 1) s) as [[l0 | e |] s2] eqn:E.
    + intros [= <- <-]. by apply (Hnext s).
    + apply Hcatch. exact Hu.
    + done.
  - unfold mbind, M_bind, bind, write, read. simpl. intros [= <- <-]. simpl.
    exists 0, source. split; [done|]. split; [lia|].
    split; [done|]. split; [done|]. split; [done|].
    split; [| done]. apply Nat.eqb_neq in Hlen. by destruct new.
Qed.

(** X2 — what a successful fetch leaves behind.  When
    [fetchFreeProxyList(i)] returns a list, that list is the new pool and
    is not empty; it comes from one source at index [i] or later, which
    [currentSourceIndex] then names; every record carries a non-empty
    line of that source's list with the source's protocol and URL, and
    none was in the registry; the cursor and [proxyFetchAttempts] are
    back at 0. *)
Theorem fetch_success cfg w i st l st' :
  fetchFreeProxyList cfg w i st = (Ret l, st') ->
  exists j source,
    free_sources cfg !! j = Some source
    /\ i <= j
    /\ currentSourceIndex (vars st') = j
    /\ proxyFetchAttempts (vars st') = 0
    /\ freeProxyIndex (vars st') = 0
    /\ freeProxyList (vars st') = l
    /\ l <> []
    /\ Forall (fun p => exists line,
                 p = listed source line /\ line <> "" /\ line ∉ usedProxies (vars st)) l.
Proof.
  unfold fetchFreeProxyList. intros Hrun.
  destruct (fetchFreeProxyList_from_success _ _ _ _ _ _ _ Hrun)
    as (k & source & Hk & Hc & Hrest).
  rewrite lookup_drop in Hk.
  exists (i + k), source. split; [done|]. split; [lia|]. done.
Qed.

(** X2, at the first fetch of a run whose lists name two proxies. *)
Lemma fetch_success_witness :
  let cfg := free_sequential 1 in
  let w := status_world (NetData two_listing) ApiOther 200 in
  let st := mkSt (fresh_vars cfg) fresh_env in
  let r := fetchFreeProxyList cfg w 0 st in
  let l := default [] (value r.1) in
  fetchFreeProxyList cfg w 0 st = (Ret l, r.2)
  /\ exists j source,
       free_sources cfg !! j = Some source
       /\ 0 <= j
       /\ currentSourceIndex (vars r.2) = j
       /\ proxyFetchAttempts (vars r.2) = 0
       /\ freeProxyIndex (vars r.2) = 0
       /\ freeProxyList (vars r.2) = l
       /\ l <> []
       /\ Forall (fun p => exists line,
                    p = listed source line /\ line <> "" /\ line ∉ usedProxies (vars st)) l.
Proof.
  intros cfg w st r l.
  assert (H : fetchFreeProxyList cfg w 0 st = (Ret l, r.2)) by (by vm_compute).
  split; [exact H|]. exact (fetch_success cfg w 0 st l r.2 H).
Defined.

Lemma at_most_0 {A} (m : M A) : emits (fun _ => False) m -> at_most 0 m.
Proof.
  intros H st. destruct (H st) as (evs & Ht & HF).
  destruct evs; [| by inversion HF]. exists []. done.
Qed.

Lemma at_most_le {A} n n' (m : M A) : n <= n' -> at_most n m -> at_most n' m.
Proof. intros Hle H st. destruct (H st) as (evs & Ht & Hl). exists evs. split; [done | lia]. Qed.

Lemma at_most_bind {A B} n1 n2 (m : M A) (k : A -> M B) :
  at_most n1 m -> (forall a, at_most n2 (k a)) -> at_most (n1 + n2) (m ≫= k).
Proof.
  intros Hm Hk st. unfold mbind, M_bind, bind.
  destruct (Hm st) as (evs & Ht & Hl).
  destruct (m st) as [[a | e |] st1]; simpl in *; [| exists evs; split; [done | lia] ..].
  destruct (Hk a st1) as (evs' & Ht' & Hl').
  exists (evs ++ evs'). rewrite Ht', Ht, app_assoc, length_app. split; [done | lia].
Qed.

Lemma at_most_try_catch {A} n1 n2 (m : M A) (h : Error -> M A) :
  at_most n1 m -> (forall e, at_most n2 (h e)) -> at_most (n1 + n2) (try_catch m h).
Proof.
  intros Hm Hh st. unfold try_catch.
  destruct (Hm st) as (evs & Ht & Hl).
  destruct (m st) as [[a | e |] st1]; simpl in *;
    [exists evs; split; [done | lia] | | exists evs; split; [done | lia]].
  destruct (Hh e st1) as (evs' & Ht' & Hl').
  exists (evs ++ evs'). rewrite Ht', Ht, app_assoc, length_app. split; [done | lia].
Qed.

Lemma at_most_fetchFromUrl w u : at_most 1 (fetchFromUrl w u).
Proof.
  intros st. exists [EvHttpGet u]. unfold fetchFromUrl.
  destruct (http_get _ _ _); simpl; done.
Qed.

Lemma length_refetch_order rest : length (refetch_order rest) = 2 ^ length rest - 1.
Proof.
  induction rest as [| source rest IH]; simpl; [done|].
  rewrite length_app, IH.
  assert (0 < 2 ^ length rest) by (apply Nat.neq_0_lt_0, Nat.pow_nonzero; lia).
  lia.
Qed.

Lemma fetchFreeProxyList_from_at_most cfg w rest : forall i,
  at_most (2 ^ length rest - 1) (fetchFreeProxyList_from cfg w rest i).
Proof.
  induction rest as [| source rest IH]; intros i; simpl.
  - apply at_most_0. emits_step.
  - assert (Hpos : 0 < 2 ^ length rest) by (apply Nat.neq_0_lt_0, Nat.pow_nonzero; lia).
    apply (at_most_le (1 + (2 ^ length rest - 1) + (2 ^ length rest - 1))); [lia|].
    apply at_most_try_catch.
    + apply at_most_bind; [apply at_most_fetchFromUrl|]. intros data.
      apply (at_most_le (0 + (2 ^ length rest - 1))); [lia|].
      apply at_most_bind; [apply at_most_0; emits_step|]. intros used.
      destruct (_ =? _)%nat; [apply IH|].
      apply (at_most_le 0); [lia|]. apply at_most_0. emits_auto fail.
    + intros e. destruct (_ <? _)%nat; [apply IH|].
      apply (at_most_le 0); [lia|]. apply at_most_0. emits_step.
Qed.

Lemma emits_download_fetchFromUrl w u : emits is_download (fetchFromUrl w u).
Proof.
  intros st. exists [EvHttpGet u]. unfold fetchFromUrl.
  destruct (http_get _ _ _); simpl; (split; [done | by repeat constructor]).
Qed.

Lemma emits_download_fetchFreeProxyList_from cfg w rest i :
  emits is_download (fetchFreeProxyList_from cfg w rest i).
Proof.
  revert i. induction rest as [| source rest IH]; intros i; simpl.
  - emits_step.
  - repeat (first [apply emits_download_fetchFromUrl | apply IH | emits_step]).
Qed.

(** X3 — how many lists one fetch downloads.  [fetchFreeProxyList(i)]
    does nothing to the outside but download lists, and with [n]
    sources it downloads at most 2^(n - i) - 1 of them: a source that
    fails or is used up hands over to the next from inside the [try],
    and when that throws, the [catch] block hands over to it once
    more. *)
Theorem fetch_download_bound cfg w i st :
  exists evs,
    tr (fetchFreeProxyList cfg w i st).2 = tr st ++ evs
    /\ Forall is_download evs
    /\ length evs <= 2 ^ (length (free_sources cfg) - i) - 1.
Proof.
  unfold fetchFreeProxyList.
  destruct (fetchFreeProxyList_from_at_most cfg w (drop i (free_sources cfg)) i st)
    as (evs & Ht & Hl).
  destruct (emits_download_fetchFreeProxyList_from cfg w (drop i (free_sources cfg)) i st)
    as (evs' & Ht' & HP).
  rewrite Ht in Ht'. apply app_inv_head in Ht'. subst evs'.
  exists evs. rewrite length_drop in Hl. done.
Qed.

Lemma filter_unused_all_used used (lines : list string) protocol source :
  (forall line, line ∈ lines -> line <> "" /\ line ∈ used) ->
  filter_unused used
    (map (fun ipPort => mkProxy (Some ipPort) None None protocol source None None None) lines)
  = [].
Proof.
  induction lines as [| line lines IH]; intros H; [done|].
  unfold filter_unused in *. simpl.
  destruct (H line) as [Hne Hin]; [by left|].
  rewrite getProxyId_line by done.
  rewrite bool_decide_eq_true_2 by done. simpl.
  apply IH. intros l Hl. apply H. by right.
Qed.

Lemma fetchFreeProxyList_from_all_used cfg w rest : forall i st,
  all_used w (usedProxies (vars st)) ->
  i + length rest = length (free_sources cfg) ->
  exists st',
    fetchFreeProxyList_from cfg w rest i st
    = (Throw (match rest with
              | [] => new_Error "All free proxy list sources exhausted"
              | _ => all_sources_failed
              end), st')
    /\ vars st' = vars st
    /\ tr st' = tr st ++ map EvHttpGet (refetch_order rest).
Proof.
  induction rest as [| source rest IH]; intros i st Hall Hlen; simpl.
  - exists st. by rewrite app_nil_r.
  - unfold try_catch, mbind, M_bind. unfold bind at 1. unfold fetchFromUrl.
    destruct (Hall (httpCalls (env st)) (url source)) as (body & -> & Hbody).
    unfold bind at 1. unfold read at 1. simpl.
    rewrite filter_unused_all_used; cycle 1.
    { intros line Hl. split; [by eapply parse_lines_nonempty | by apply Hbody]. }
    simpl.
    set (st1 := mkSt (vars st) _).
    destruct (IH (i + 1) st1) as (st2 & -> & Hv2 & Ht2); [exact Hall | simpl in *; lia |].
    destruct rest as [| source' rest'].
    + replace (i + 1 <? length (free_sources cfg))%nat with false
        by (symmetry; apply Nat.ltb_ge; simpl in *; lia).
      unfold throw. exists st2. split; [done|]. split; [done|].
      rewrite Ht2. unfold tr, st1. simpl. by rewrite app_nil_r.
    + replace (i + 1 <? length (free_sources cfg))%nat with true
        by (symmetry; apply Nat.ltb_lt; simpl in *; lia).
      destruct (IH (i + 1) st2) as (st3 & -> & Hv3 & Ht3);
        [by rewrite Hv2 | simpl in *; lia |].
      exists st3. split; [done|]. split; [by rewrite Hv3, Hv2|].
      rewrite Ht3, Ht2. unfold tr, st1. simpl.
      rewrite !map_app. simpl. rewrite !map_app, <- !app_assoc. simpl.
      by rewrite <- !app_assoc.
Qed.

(** X4 — a fetch that finds every list used up.  When every list holds
    only proxies that are in the registry (or none), [fetchFreeProxyList(0)]
    throws "Failed to fetch proxies from all sources: All free proxy
    list sources exhausted" and changes no variable; on the way it
    downloads the first list once and goes through the sources after it
    twice, again and again down the list: 2^n - 1 downloads for [n]
    sources, three for the two of the file. *)
Theorem fetch_goes_through_sources_again cfg w st :
  all_used w (usedProxies (vars st)) ->
  free_sources cfg <> [] ->
  exists st',
    fetchFreeProxyList cfg w 0 st = (Throw all_sources_failed, st')
    /\ vars st' = vars st
    /\ tr st' = tr st ++ map EvHttpGet (refetch_order (free_sources cfg))
    /\ length (refetch_order (free_sources cfg)) = 2 ^ length (free_sources cfg) - 1.
Proof.
  intros Hall Hne. unfold fetchFreeProxyList. rewrite drop_0.
  destruct (fetchFreeProxyList_from_all_used cfg w (free_sources cfg) 0 st Hall)
    as (st' & Hrun & Hv & Ht); [done|].
  exists st'. rewrite Hrun. destruct (free_sources cfg); [done|].
  split; [done|]. split; [done|]. split; [done|]. apply length_refetch_order.
Qed.

(** X4, at the configuration of the file in a world of empty lists. *)
Lemma fetch_goes_through_sources_again_witness :
  let cfg := CONFIG "" in
  let w := status_world (NetData "") ApiOther 200 in
  let st := mkSt (fresh_vars cfg) fresh_env in
  (all_used w (usedProxies (vars st)) /\ free_sources cfg <> [])
  /\ exists st',
       fetchFreeProxyList cfg w 0 st = (Throw all_sources_failed, st')
       /\ vars st' = vars st
       /\ tr st' = tr st ++ map EvHttpGet (refetch_order (free_sources cfg))
       /\ length (refetch_order (free_sources cfg)) = 2 ^ length (free_sources cfg) - 1.
Proof.
  intros cfg w st.
  assert (Hall : all_used w (usedProxies (vars st))).
  { intros n u. exists "". split; [done|]. intros line Hl. by apply elem_of_nil in Hl. }
  assert (Hne : free_sources cfg <> []) by done.
  split; [by split|]. exact (fetch_goes_through_sources_again cfg w st Hall Hne).
Defined.

(** ** The pool *)

Lemma emits_from_fetchFromUrl w sources source :
  source ∈ sources -> emits (downloads_from sources) (fetchFromUrl w (url source)).
Proof.
  intros Hin st. exists [EvHttpGet (url source)]. unfold fetchFromUrl.
  destruct (http_get _ _ _); simpl; (split; [done|]); repeat constructor;
    by exists source.
Qed.

Lemma downloads_from_mono sources sources' e :
  (forall s, s ∈ sources -> s ∈ sources') ->
  downloads_from sources e -> downloads_from sources' e.
Proof. intros Hsub (s & Hs & ->). exists s. auto. Qed.

Lemma emits_from_fetchFreeProxyList_from cfg w rest : forall i,
  emits (downloads_from rest) (fetchFreeProxyList_from cfg w rest i).
Proof.
  induction rest as [| source rest IH]; intros i; simpl.
  - emits_step.
  - assert (Hrec : forall j, emits (downloads_from (source :: rest))
                               (fetchFreeProxyList_from cfg w rest j)).
    { intros j. eapply emits_weaken; [| apply IH].
      intros e. apply downloads_from_mono. intros s Hs. by right. }
    repeat (first [ apply emits_from_fetchFromUrl; by left | apply Hrec | emits_step ]).
Qed.

Lemma silent {A} (m : M A) st : emits (fun _ => False) m -> tr (m st).2 = tr st.
Proof.
  intros H. destruct (H st) as (evs & Ht & HF).
  destruct evs; [by rewrite app_nil_r in Ht | by inversion HF].
Qed.

Lemma take_freeProxy_silent cfg w st : tr (take_freeProxy cfg w st).2 = tr st.
Proof. apply silent. unfold take_freeProxy. emits_auto fail. Qed.

Lemma refill_freeProxyList_events cfg w st :
  exists evs,
    tr (refill_freeProxyList cfg w st).2 = tr st ++ evs
    /\ Forall (downloads_from
                 (drop ((currentSourceIndex (vars st) + 1) mod length (free_sources cfg))
                       (free_sources cfg))) evs.
Proof.
  unfold refill_freeProxyList, fetchFreeProxyList.
  unfold mbind, M_bind, bind, read, write, throw, try_catch, ret. simpl.
  destruct (_ || _); [| exists []; by rewrite app_nil_r].
  match goal with |- context [if ?c then _ else _] => destruct c end;
    [exists []; by rewrite app_nil_r|].
  destruct (length (free_sources cfg)) as [| n] eqn:Hn; [exists []; by rewrite app_nil_r|].
  match goal with |- context [fetchFreeProxyList_from cfg w ?rest ?i ?s] =>
    destruct (emits_from_fetchFreeProxyList_from cfg w rest i s) as (evs & Ht & HP);
    destruct (fetchFreeProxyList_from cfg w rest i s) as [[l | e |] s2] end;
    simpl in *; by exists evs.
Qed.

(** X5 — where a refill looks.  Whatever the state, a call of
    [getNextFreeProxy] downloads only lists of the sources from index
    (currentSourceIndex + 1) mod n on, n the number of sources; the
    sources before that index are not tried.  In a freshly loaded
    module with the two sources of the file that is the second list
    only. *)
Theorem refill_starts_after_current_source cfg w st :
  exists evs,
    tr (getNextFreeProxy cfg w st).2 = tr st ++ evs
    /\ Forall (downloads_from
                 (drop ((currentSourceIndex (vars st) + 1) mod length (free_sources cfg))
                       (free_sources cfg))) evs.
Proof.
  destruct (refill_freeProxyList_events cfg w st) as (evs & Ht & HP).
  exists evs. split; [| done].
  unfold getNextFreeProxy, mbind, M_bind, bind.
  destruct (refill_freeProxyList cfg w st) as [[[] | e |] st1]; simpl in *; [| done | done].
  by rewrite take_freeProxy_silent.
Qed.

Lemma getNextFreeProxy_rotation cfg w st p :
  free_rotateProxies cfg = true ->
  freeProxyList (vars st) !! freeProxyIndex (vars st) = Some p ->
  getNextFreeProxy cfg w st
  = (Ret p, mkSt (set_usedProxies ({[getProxyId p]} ∪ usedProxies (vars st))
                    (set_freeProxyIndex (freeProxyIndex (vars st) + 1) (vars st)))
                 (env st)).
Proof.
  intros Hrot Hp. pose proof (lookup_lt_Some _ _ _ Hp) as Hlt.
  unfold getNextFreeProxy, refill_freeProxyList, take_freeProxy.
  unfold mbind, M_bind, bind, read, write, ret. simpl.
  replace (length (freeProxyList (vars st)) =? 0)%nat with false
    by (symmetry; apply Nat.eqb_neq; lia).
  replace (length (freeProxyList (vars st)) <=? freeProxyIndex (vars st))%nat with false
    by (symmetry; apply Nat.leb_gt; lia).
  simpl. rewrite Hrot. simpl. rewrite Hp. done.
Qed.

(** X6 — rotation hands out the pool in list order.  With
    [rotateProxies] on and at least [n] records left from the cursor,
    [n] calls of [getNextFreeProxy] return the next [n] records of the
    pool in the order of the list, without any download or other
    effect outside; the pool is as it was and the cursor has moved on
    by [n]. *)
Theorem rotation_hands_out_in_order cfg w n : forall st,
  free_rotateProxies cfg = true ->
  freeProxyIndex (vars st) + n <= length (freeProxyList (vars st)) ->
  exists st',
    draws (getNextFreeProxy cfg w) n st
    = (Ret (take n (drop (freeProxyIndex (vars st)) (freeProxyList (vars st)))), st')
    /\ tr st' = tr st
    /\ freeProxyList (vars st') = freeProxyList (vars st)
    /\ freeProxyIndex (vars st') = freeProxyIndex (vars st) + n.
Proof.
  induction n as [| n IH]; intros st Hrot Hn.
  - exists st. simpl. rewrite take_0. repeat split; lia.
  - destruct (lookup_lt_is_Some_2 (freeProxyList (vars st)) (freeProxyIndex (vars st)))
      as [p Hp]; [lia|].
    simpl. unfold try_catch, mbind, M_bind, bind, ret.
    rewrite (getNextFreeProxy_rotation cfg w st p Hrot Hp).
    set (st1 := mkSt _ _).
    destruct (IH st1 Hrot) as (st' & -> & Ht & Hl & Hi); [simpl; lia|].
    exists st'. simpl in *. rewrite (drop_S _ _ _ Hp). simpl.
    replace (freeProxyIndex (vars st) + 1) with (S (freeProxyIndex (vars st))) by lia.
    repeat split; [done | done | lia].
Qed.

(** X6, at two calls after the first fetch of a run whose lists name two
    proxies. *)
Lemma rotation_hands_out_in_order_witness :
  let cfg := free_sequential 1 in
  let w := status_world (NetData two_listing) ApiOther 200 in
  let st := (run cfg (fetch_on_start cfg w)).2 in
  (free_rotateProxies cfg = true
   /\ freeProxyIndex (vars st) + 2 <= length (freeProxyList (vars st)))
  /\ exists st',
       draws (getNextFreeProxy cfg w) 2 st
       = (Ret (take 2 (drop (freeProxyIndex (vars st)) (freeProxyList (vars st)))), st')
       /\ tr st' = tr st
       /\ freeProxyList (vars st') = freeProxyList (vars st)
       /\ freeProxyIndex (vars st') = freeProxyIndex (vars st) + 2.
Proof.
  intros cfg w st.
  assert (H1 : free_rotateProxies cfg = true) by reflexivity.
  assert (H2 : freeProxyIndex (vars st) + 2 <= length (freeProxyList (vars st)))
    by (vm_compute; lia).
  split; [by split|]. exact (rotation_hands_out_in_order cfg w 2 st H1 H2).
Defined.

Lemma getNextFreeProxy_random cfg w st p :
  free_rotateProxies cfg = false ->
  freeProxyIndex (vars st) = 0 ->
  let i := Js.random_index (math_random w (randomCalls (env st)))
                           (length (freeProxyList (vars st))) in
  freeProxyList (vars st) !! i = Some p ->
  exists st',
    getNextFreeProxy cfg w st = (Ret p, st')
    /\ freeProxyList (vars st') = splice1 i (freeProxyList (vars st))
    /\ freeProxyIndex (vars st') = 0
    /\ tr st' = tr st.
Proof.
  intros Hrot Hidx i Hp. pose proof (lookup_lt_Some _ _ _ Hp) as Hlt.
  unfold getNextFreeProxy, refill_freeProxyList, take_freeProxy.
  unfold mbind, M_bind, bind, read, write, ret, Math_random. simpl.
  replace (length (freeProxyList (vars st)) =? 0)%nat with false
    by (symmetry; apply Nat.eqb_neq; lia).
  replace (length (freeProxyList (vars st)) <=? freeProxyIndex (vars st))%nat with false
    by (symmetry; apply Nat.leb_gt; lia).
  simpl. rewrite Hrot. simpl. fold i. rewrite Hp. simpl. eauto.
Qed.

(** X7 — random consumption is without replacement.  With
    [rotateProxies] off, the cursor at 0 and at least [n] records in
    the pool, [n] calls of [getNextFreeProxy] return [n] records
    without any download; each is cut out of the pool when it is
    returned, so the records returned and the pool that is left make up
    the pool there was, record for record. *)
Theorem random_consumption_is_without_replacement cfg w n : forall st,
  free_rotateProxies cfg = false ->
  freeProxyIndex (vars st) = 0 ->
  n <= length (freeProxyList (vars st)) ->
  exists l st',
    draws (getNextFreeProxy cfg w) n st = (Ret l, st')
    /\ length l = n
    /\ l ++ freeProxyList (vars st') ≡ₚ freeProxyList (vars st)
    /\ tr st' = tr st.
Proof.
  induction n as [| n IH]; intros st Hrot Hidx Hn.
  - exists [], st. done.
  - set (i := Js.random_index (math_random w (randomCalls (env st)))
                              (length (freeProxyList (vars st)))).
    assert (Hi : i < length (freeProxyList (vars st))) by (apply random_index_lt; lia).
    destruct (lookup_lt_is_Some_2 _ _ Hi) as [p Hp].
    destruct (getNextFreeProxy_random cfg w st p Hrot Hidx Hp)
      as (st1 & Hrun & Hl1 & Hi1 & Ht1).
    simpl. unfold try_catch, mbind, M_bind, bind, ret. rewrite Hrun.
    destruct (IH st1 Hrot Hi1) as (l & st' & -> & Hlen & Hperm & Ht).
    { rewrite Hl1. unfold splice1. rewrite length_app, length_take, length_drop. lia. }
    exists (p :: l), st'. split; [done|]. split; [simpl; lia|].
    split; [| by rewrite Ht].
    simpl. rewrite Hperm, Hl1. unfold splice1. rewrite <- delete_take_drop.
    symmetry. by apply delete_Permutation.
Qed.

(** X7, at two calls after the first fetch of a run whose lists name two
    proxies. *)
Lemma random_consumption_is_without_replacement_witness :
  let cfg := free_random in
  let w := status_world (NetData two_listing) ApiOther 200 in
  let st := (run cfg (fetch_on_start cfg w)).2 in
  (free_rotateProxies cfg = false
   /\ freeProxyIndex (vars st) = 0
   /\ 2 <= length (freeProxyList (vars st)))
  /\ exists l st',
       draws (getNextFreeProxy cfg w) 2 st = (Ret l, st')
       /\ length l = 2
       /\ l ++ freeProxyList (vars st') ≡ₚ freeProxyList (vars st)
       /\ tr st' = tr st.
Proof.
  intros cfg w st.
  assert (H1 : free_rotateProxies cfg = false) by reflexivity.
  assert (H2 : freeProxyIndex (vars st) = 0) by (by vm_compute).
  assert (H3 : 2 <= length (freeProxyList (vars st))) by (vm_compute; lia).
  split; [exact (conj H1 (conj H2 H3))|].
  exact (random_consumption_is_without_replacement cfg w 2 st H1 H2 H3).
Defined.

Lemma refill_freeProxyList_registry cfg w :
  preserves usedProxies (refill_freeProxyList cfg w).
Proof.
  unfold refill_freeProxyList, fetchFreeProxyList.
  preserves_auto ltac:(apply fetchFreeProxyList_from_registry).
Qed.

Lemma refill_proxiflyProxies_registry cfg w :
  preserves usedProxies (refill_proxiflyProxies cfg w).
Proof.
  unfold refill_proxiflyProxies, fetchProxiflyProxies.
  preserves_auto ltac:(apply fetchProxiflyProxies_fuel_registry).
Qed.

Lemma take_freeProxy_registered cfg w st : registered st (take_freeProxy cfg w st).
Proof.
  unfold registered, take_freeProxy.
  unfold mbind, M_bind, bind, read, write, ret, Math_random. simpl.
  destruct (free_rotateProxies cfg); simpl;
    match goal with |- context [getProxyId_of ?o] => destruct o end; done.
Qed.

Lemma take_proxiflyProxy_registered cfg w st : registered st (take_proxiflyProxy cfg w st).
Proof.
  unfold registered, take_proxiflyProxy.
  unfold mbind, M_bind, bind, read, write, ret, Math_random. simpl.
  destruct (proxifly_rotateProxies cfg); simpl;
    match goal with |- context [getProxyId_of ?o] => destruct o end; done.
Qed.

Lemma getNextFreeProxy_registered cfg w st : registered st (getNextFreeProxy cfg w st).
Proof.
  unfold getNextFreeProxy, mbind, M_bind, bind.
  pose proof (refill_freeProxyList_registry cfg w st) as Hu.
  destruct (refill_freeProxyList cfg w st) as [[[] | e |] st1]; simpl in *; [| done | done].
  pose proof (take_freeProxy_registered cfg w st1) as Hr. unfold registered in *.
  by rewrite Hr, Hu.
Qed.

Lemma getNextProxiflyProxy_registered cfg w st :
  registered st (getNextProxiflyProxy cfg w st).
Proof.
  unfold getNextProxiflyProxy, mbind, M_bind, bind.
  pose proof (refill_proxiflyProxies_registry cfg w st) as Hu.
  destruct (refill_proxiflyProxies cfg w st) as [[[] | e |] st1]; simpl in *; [| done | done].
  pose proof (take_proxiflyProxy_registered cfg w st1) as Hr. unfold registered in *.
  by rewrite Hr, Hu.
Qed.

Lemma draws_registered (next : M Proxy) :
  (forall st, registered st (next st)) -> terminates next ->
  forall n st, exists l st',
    draws next n st = (Ret l, st')
    /\ usedProxies (vars st') = list_to_set (ids l) ∪ usedProxies (vars st).
Proof.
  intros Hreg Hterm. induction n as [| n IH]; intros st; simpl.
  - exists [], st. split; [done|]. unfold ids. simpl. by rewrite (left_id_L ∅ (∪)).
  - unfold try_catch, mbind, M_bind, bind, ret.
    pose proof (Hreg st) as Hr. pose proof (Hterm st) as Ht. unfold registered in Hr.
    destruct (next st) as [[p | e |] st1]; simpl in *; [| | done].
    + destruct (IH st1) as (l & st' & -> & Hu).
      exists (p :: l), st'. split; [done|]. rewrite Hu, Hr. unfold ids.
      rewrite fmap_cons, list_to_set_cons.
      by rewrite (assoc_L (∪)), (comm_L (∪) (list_to_set _) {[_]}).
    + destruct (IH st1) as (l & st' & -> & Hu).
      exists l, st'. split; [done|]. by rewrite Hu, Hr.
Qed.

(** X8 — the registry holds what was handed out.  From any state, after
    any number of calls of a next-proxy operation (the caller catching
    what is thrown), [usedProxies] is what it was before plus the
    identities of the records that were returned: nothing else is ever
    added and nothing is ever removed. *)
Theorem registry_is_what_was_handed_out cfg w n st :
  (exists l st',
     draws (getNextFreeProxy cfg w) n st = (Ret l, st')
     /\ usedProxies (vars st') = list_to_set (ids l) ∪ usedProxies (vars st))
  /\ (exists l st',
        draws (getNextProxiflyProxy cfg w) n st = (Ret l, st')
        /\ usedProxies (vars st') = list_to_set (ids l) ∪ usedProxies (vars st)).
Proof.
  split.
  - apply draws_registered;
      [apply getNextFreeProxy_registered | apply terminates_getNextFreeProxy].
  - apply draws_registered;
      [apply getNextProxiflyProxy_registered | apply terminates_getNextProxiflyProxy].
Qed.

(** X9 — a fresh module never repeats when no listing does.  In a world
    whose lists are ASCII text and where no downloaded list and no API
    answer names an identity twice, any number of calls of either
    next-proxy operation on a freshly loaded module return records of
    pairwise distinct identity, all of them registered afterwards. *)
Theorem fresh_module_never_repeats cfg w n :
  ascii_listings w ->
  listings_distinct w ->
  (exists l st',
     run cfg (draws (getNextFreeProxy cfg w) n) = (Ret l, st')
     /\ NoDup (ids l)
     /\ (forall p, p ∈ l -> getProxyId p ∈ usedProxies (vars st')))
  /\ (exists l st',
        run cfg (draws (getNextProxiflyProxy cfg w) n) = (Ret l, st')
        /\ NoDup (ids l)
        /\ (forall p, p ∈ l -> getProxyId p ∈ usedProxies (vars st'))).
Proof.
  intros _ Hw. unfold run.
  destruct (fresh_vars_inv cfg) as [Hf Hp].
  destruct (no_repeat_without_duplicates cfg w n (mkSt (fresh_vars cfg) fresh_env) Hw)
    as [H1 H2].
  split; [by apply H1 | by apply H2].
Qed.

Lemma two_listing_distinct :
  listings_distinct (status_world (NetData two_listing) (ApiArray [api_proxy]) 200).
Proof.
  split.
  - intros n u body [= <-]. by apply (bool_decide_unpack _).
  - intros n ps [= <-]. by apply (bool_decide_unpack _).
Qed.

Lemma two_listing_ascii :
  ascii_listings (status_world (NetData two_listing) (ApiArray [api_proxy]) 200).
Proof. by intros n u body [= <-]. Qed.

(** X9, at three calls in a world whose lists name two proxies. *)
Lemma fresh_module_never_repeats_witness :
  let cfg := free_sequential 1 in
  let w := status_world (NetData two_listing) (ApiArray [api_proxy]) 200 in
  (ascii_listings w /\ listings_distinct w)
  /\ (exists l st',
        run cfg (draws (getNextFreeProxy cfg w) 3) = (Ret l, st')
        /\ NoDup (ids l)
        /\ (forall p, p ∈ l -> getProxyId p ∈ usedProxies (vars st')))
  /\ (exists l st',
        run cfg (draws (getNextProxiflyProxy cfg w) 3) = (Ret l, st')
        /\ NoDup (ids l)
        /\ (forall p, p ∈ l -> getProxyId p ∈ usedProxies (vars st'))).
Proof.
  intros cfg w. split; [exact (conj two_listing_ascii two_listing_distinct)|].
  exact (fresh_module_never_repeats cfg w 3 two_listing_ascii two_listing_distinct).
Defined.

Lemma api_calls_app evs evs' : api_calls (evs ++ evs') = api_calls evs + api_calls evs'.
Proof. unfold api_calls. by rewrite List.filter_app, length_app. Qed.

Lemma fetchProxiflyProxies_fuel_calls cfg w b fuel : forall st,
  exists evs,
    tr (fetchProxiflyProxies_fuel cfg w fuel b st).2 = tr st ++ evs
    /\ api_calls evs
       <= (if String.eqb (proxifly_apiKey cfg) "" then 0
           else (MAX_FETCH_ATTEMPTS - proxyFetchAttempts (vars st)) `max` 1).
Proof.
  induction fuel as [| fuel IH]; intros st; simpl.
  - exists []. rewrite app_nil_r. split; [done|]. apply Nat.le_0_l.
  - destruct (String.eqb _ _) eqn:Hkey.
    { exists []. rewrite app_nil_r. split; [done|]. apply Nat.le_0_l. }
    unfold try_catch, mbind, M_bind, bind, Proxifly_getProxy, read, write, throw, ret.
    simpl.
    assert (Hrec : forall e0,
      (MAX_FETCH_ATTEMPTS <=? proxyFetchAttempts (vars st) + 1)%nat = false ->
      trace e0 = trace (env st) ++ [EvApiCall] ->
      let s := mkSt (set_proxyFetchAttempts (proxyFetchAttempts (vars st) + 1) (vars st)) e0 in
      exists evs,
        tr (fetchProxiflyProxies_fuel cfg w fuel b s).2 = tr st ++ evs
        /\ api_calls evs <= (MAX_FETCH_ATTEMPTS - proxyFetchAttempts (vars st)) `max` 1).
    { intros e0 E He0 s. apply Nat.leb_gt in E.
      destruct (IH s) as (evs & Ht & Hn). unfold s in Hn. simpl in Hn.
      exists ([EvApiCall] ++ evs). split.
      - rewrite Ht. unfold tr, s. simpl. by rewrite He0, <- app_assoc.
      - rewrite api_calls_app. change (api_calls [EvApiCall]) with 1.
        unfold MAX_FETCH_ATTEMPTS in *. lia. }
    assert (Hone : exists evs,
      trace (env st) ++ [EvApiCall] = tr st ++ evs
      /\ api_calls evs <= (MAX_FETCH_ATTEMPTS - proxyFetchAttempts (vars st)) `max` 1).
    { exists [EvApiCall]. split; [done|]. change (api_calls [EvApiCall]) with 1. lia. }
    destruct (proxifly_getProxy _ _) as [ps | p | | e]; simpl; try done.
    + destruct (length ps =? 0)%nat; simpl; [done|].
      destruct (length _ =? 0)%nat; simpl; [|done].
      change (match proxyFetchAttempts (vars st) + 1 with
              | S (S (S (S (S _)))) => true | _ => false end)
        with (MAX_FETCH_ATTEMPTS <=? proxyFetchAttempts (vars st) + 1)%nat.
      destruct (_ <=? _)%nat eqn:E; [done|].
      match goal with |- context [fetchProxiflyProxies_fuel _ _ _ _ (mkSt _ ?e0)] =>
        specialize (Hrec e0 eq_refl eq_refl) end.
      simpl in Hrec.
      by destruct (fetchProxiflyProxies_fuel _ _ _ _ _) as [[]?].
    + destruct (length _ =? 0)%nat; simpl; [|done].
      change (match proxyFetchAttempts (vars st) + 1 with
              | S (S (S (S (S _)))) => true | _ => false end)
        with (MAX_FETCH_ATTEMPTS <=? proxyFetchAttempts (vars st) + 1)%nat.
      destruct (_ <=? _)%nat eqn:E; [done|].
      match goal with |- context [fetchProxiflyProxies_fuel _ _ _ _ (mkSt _ ?e0)] =>
        specialize (Hrec e0 eq_refl eq_refl) end.
      simpl in Hrec.
      by destruct (fetchProxiflyProxies_fuel _ _ _ _ _) as [[]?].
Qed.

(** X10 — how often one fetch calls the API.  A call of
    [fetchProxiflyProxies] comes to an end whatever the API answers;
    without an API key it does not call the API at all, and with one it
    calls it at most MAX_FETCH_ATTEMPTS - proxyFetchAttempts times, and
    once if the counter is at its ceiling already. *)
Theorem proxifly_calls_bound cfg w b st :
  exists evs,
    (fetchProxiflyProxies cfg w b st).1 <> Stuck
    /\ tr (fetchProxiflyProxies cfg w b st).2 = tr st ++ evs
    /\ api_calls evs
       <= (if String.eqb (proxifly_apiKey cfg) "" then 0
           else (MAX_FETCH_ATTEMPTS - proxyFetchAttempts (vars st)) `max` 1).
Proof.
  destruct (fetchProxiflyProxies_fuel_calls cfg w b MAX_FETCH_ATTEMPTS st) as (evs & Ht & Hn).
  exists evs. split; [apply terminates_fetchProxiflyProxies | done].
Qed.

Lemma size_list_to_set_le (l : list string) :
  size (list_to_set l : gset string) <= length l.
Proof.
  induction l as [| x l IH]; [by rewrite list_to_set_nil, size_empty|].
  rewrite list_to_set_cons, size_union_alt, size_singleton. simpl.
  assert (size ((list_to_set l : gset string) ∖ {[x]}) <= size (list_to_set l : gset string)).
  { apply subseteq_size. by intros y [Hy _]%elem_of_difference. }
  lia.
Qed.

Lemma size_list_to_set_NoDup (l : list string) :
  size (list_to_set l : gset string) = length l <-> NoDup l.
Proof.
  split; [| apply size_list_to_set].
  induction l as [| x l IH]; [constructor|].
  rewrite list_to_set_cons. simpl length.
  intros Hs. pose proof (size_list_to_set_le l) as Hle.
  destruct (decide (x ∈ l)) as [Hin | Hnin].
  - exfalso.
    assert (Heq : {[x]} ∪ (list_to_set l : gset string) = list_to_set l).
    { apply subseteq_union_1_L, singleton_subseteq_l, elem_of_list_to_set. done. }
    rewrite Heq in Hs. lia.
  - apply NoDup_cons. split; [done|]. apply IH.
    rewrite size_union, size_singleton in Hs; [lia|].
    apply disjoint_singleton_l. by rewrite elem_of_list_to_set.
Qed.

Lemma getNextProxiflyProxy_mode cfg w : preserves proxyMode (getNextProxiflyProxy cfg w).
Proof.
  unfold getNextProxiflyProxy, refill_proxiflyProxies, take_proxiflyProxy,
    fetchProxiflyProxies.
  assert (H : forall fuel b, preserves proxyMode (fetchProxiflyProxies_fuel cfg w fuel b)).
  { induction fuel as [| fuel IH]; intros b; simpl; preserves_auto ltac:(apply IH). }
  preserves_auto ltac:(apply H).
Qed.

Lemma draws_mode (next : M Proxy) :
  preserves proxyMode next -> forall n, preserves proxyMode (draws next n).
Proof.
  intros Hp. induction n as [| n IH]; simpl; preserves_auto ltac:(first [apply Hp | apply IH]).
Qed.

Lemma getProxyStats_pooled st :
  proxyMode (vars st) = ModeProxifly \/ proxyMode (vars st) = ModeFreeProxyList ->
  exists stats, getProxyStats st = (Ret stats, st)
                /\ totalUsed stats = size (usedProxies (vars st)).
Proof.
  unfold getProxyStats, mbind, M_bind, bind, read, ret. simpl.
  intros [-> | ->]; simpl; eauto.
Qed.

(** X11 — the count of used proxies.  In a pooled mode and from an empty
    registry, after any number of calls of a next-proxy operation the
    figure [getProxyStats().totalUsed] is the number of distinct
    identities handed out: it never exceeds the number of records
    handed out, and it equals that number exactly when no two of them
    share an identity. *)
Theorem stats_count_identities cfg w n st :
  proxyMode (vars st) = ModeProxifly \/ proxyMode (vars st) = ModeFreeProxyList ->
  usedProxies (vars st) = ∅ ->
  (exists l st' stats,
     draws (getNextFreeProxy cfg w) n st = (Ret l, st')
     /\ getProxyStats st' = (Ret stats, st')
     /\ totalUsed stats <= length l
     /\ (totalUsed stats = length l <-> NoDup (ids l)))
  /\ (exists l st' stats,
        draws (getNextProxiflyProxy cfg w) n st = (Ret l, st')
        /\ getProxyStats st' = (Ret stats, st')
        /\ totalUsed stats <= length l
        /\ (totalUsed stats = length l <-> NoDup (ids l))).
Proof.
  intros Hm Hu.
  destruct (draws_registered (getNextFreeProxy cfg w)
              (getNextFreeProxy_registered cfg w) (terminates_getNextFreeProxy cfg w) n st)
    as (l1 & st1 & Hd1 & Hu1).
  destruct (draws_registered (getNextProxiflyProxy cfg w)
              (getNextProxiflyProxy_registered cfg w)
              (terminates_getNextProxiflyProxy cfg w) n st)
    as (l2 & st2 & Hd2 & Hu2).
  rewrite Hu, (right_id_L ∅ (∪)) in Hu1, Hu2.
  split.
  - pose proof (draws_mode _ (getNextFreeProxy_mode cfg w) n st) as Hp.
    rewrite Hd1 in Hp. simpl in Hp. rewrite <- Hp in Hm.
    destruct (getProxyStats_pooled st1 Hm) as (stats & Hs & Ht).
    exists l1, st1, stats. split; [done|]. split; [done|]. rewrite Ht, Hu1.
    replace (length l1) with (length (ids l1)) by (unfold ids; apply length_fmap).
    split; [apply size_list_to_set_le | apply size_list_to_set_NoDup].
  - pose proof (draws_mode _ (getNextProxiflyProxy_mode cfg w) n st) as Hp.
    rewrite Hd2 in Hp. simpl in Hp. rewrite <- Hp in Hm.
    destruct (getProxyStats_pooled st2 Hm) as (stats & Hs & Ht).
    exists l2, st2, stats. split; [done|]. split; [done|]. rewrite Ht, Hu2.
    replace (length l2) with (length (ids l2)) by (unfold ids; apply length_fmap).
    split; [apply size_list_to_set_le | apply size_list_to_set_NoDup].
Qed.

(** X11, at two calls on a fresh module whose list names one proxy
    twice. *)
Lemma stats_count_identities_witness :
  let cfg := free_sequential 1 in
  let w := status_world (NetData duplicate_listing) (ApiArray [api_proxy]) 200 in
  let st := mkSt (fresh_vars cfg) fresh_env in
  ((proxyMode (vars st) = ModeProxifly \/ proxyMode (vars st) = ModeFreeProxyList)
   /\ usedProxies (vars st) = ∅)
  /\ (exists l st' stats,
        draws (getNextFreeProxy cfg w) 2 st = (Ret l, st')
        /\ getProxyStats st' = (Ret stats, st')
        /\ totalUsed stats <= length l
        /\ (totalUsed stats = length l <-> NoDup (ids l)))
  /\ (exists l st' stats,
        draws (getNextProxiflyProxy cfg w) 2 st = (Ret l, st')
        /\ getProxyStats st' = (Ret stats, st')
        /\ totalUsed stats <= length l
        /\ (totalUsed stats = length l <-> NoDup (ids l))).
Proof.
  intros cfg w st.
  assert (H1 : proxyMode (vars st) = ModeProxifly \/ proxyMode (vars st) = ModeFreeProxyList)
    by (by right).
  assert (H2 : usedProxies (vars st) = ∅) by reflexivity.
  split; [by split|]. exact (stats_count_identities cfg w 2 st H1 H2).
Defined.

(** ** The browser options *)

Lemma getBrowserOptions_proxifly cfg p st :
  proxyMode (vars st) = ModeProxifly ->
  getBrowserOptions cfg (Some p) st
  = if has_endpoint p then (Ret (Some (proxifly_url cfg p)), st)
    else (Throw (new_Error "Invalid proxy format from Proxifly"), st).
Proof.
  intros Hm.
  unfold getBrowserOptions, mbind, M_bind, bind, read, ret, throw. simpl. rewrite Hm.
  unfold has_endpoint, proxifly_url, getProxyId.
  destruct (Js.truthy_str (ipPort p)); simpl; [done|].
  by destruct (Js.truthy_str (ip p) && Js.truthy_num (port p)).
Qed.

Lemma getBrowserOptions_by_mode cfg o st :
  getBrowserOptions cfg o st
  = match proxyMode (vars st), o with
    | ModeDirect, _ => (Ret (Some (direct_url cfg)), st)
    | ModeProxifly, Some p =>
        if has_endpoint p then (Ret (Some (proxifly_url cfg p)), st)
        else (Throw (new_Error "Invalid proxy format from Proxifly"), st)
    | _, _ => (Ret None, st)
    end.
Proof.
  destruct (proxyMode (vars st)) eqn:Hm, o as [p|];
    try (by rewrite getBrowserOptions_proxifly);
    unfold getBrowserOptions, mbind, M_bind, bind, read, ret; simpl; by rewrite Hm.
Qed.

(** X12 — the proxy server names the identity.  Under Proxifly pooling,
    [getBrowserOptions] on a record that names its endpoint (an
    [ipPort], or an [ip] with a [port]) builds the [--proxy-server]
    argument from a scheme and the very string [getProxyId] gives for
    the record, so what the registry tracks is the address the browser
    uses; on a record that names none it throws "Invalid proxy format
    from Proxifly", and the identity of such a record is its JSON
    text. *)
Theorem proxy_server_names_the_identity cfg p st :
  proxyMode (vars st) = ModeProxifly ->
  if has_endpoint p
  then exists scheme,
         getBrowserOptions cfg (Some p) st
         = (Ret (Some (scheme +:+ "://" +:+ getProxyId p)), st)
  else getBrowserOptions cfg (Some p) st
       = (Throw (new_Error "Invalid proxy format from Proxifly"), st)
       /\ getProxyId p = JSON_stringify p.
Proof.
  intros Hm. rewrite (getBrowserOptions_proxifly cfg p st Hm).
  destruct (has_endpoint p) eqn:He.
  - unfold proxifly_url. eauto.
  - split; [done|]. unfold has_endpoint in He. unfold getProxyId.
    apply orb_false_iff in He as [-> ->]. done.
Qed.

(** X12, at a record with an [ip] and a [port]. *)
Lemma proxy_server_names_the_identity_witness :
  let cfg := proxifly_sequential in
  let st := mkSt (fresh_vars cfg) fresh_env in
  proxyMode (vars st) = ModeProxifly
  /\ exists scheme,
       getBrowserOptions cfg (Some api_proxy) st
       = (Ret (Some (scheme +:+ "://" +:+ getProxyId api_proxy)), st).
Proof.
  intros cfg st.
  assert (H : proxyMode (vars st) = ModeProxifly) by reflexivity.
  split; [exact H|]. exact (proxy_server_names_the_identity cfg api_proxy st H).
Defined.

(** ** The unit *)

Lemma getRandomUserAgent_table w st :
  exists ua, getRandomUserAgent w st = (Ret ua, (Math_random w st).2)
             /\ ua ∈ modernUserAgents /\ ua <> "".
Proof.
  unfold getRandomUserAgent, mbind, M_bind, bind, Math_random, ret. simpl.
  set (i := Js.random_index _ _).
  assert (Hi : i < length modernUserAgents) by (apply random_index_lt; simpl; lia).
  destruct (lookup_lt_is_Some_2 _ _ Hi) as [ua Hua].
  exists ua. rewrite Hua. simpl. split; [done|].
  split; [by eapply list_elem_of_lookup_2|].
  assert (H : forallb (fun s => negb (String.eqb s "")) modernUserAgents = true)
    by reflexivity.
  rewrite forallb_forall in H.
  apply list_elem_of_lookup_2, list_elem_of_In, H, negb_true_iff, String.eqb_neq in Hua.
  done.
Qed.

Lemma getRandomViewport_table w st :
  exists vp, getRandomViewport w st = (Ret vp, (Math_random w st).2)
             /\ vp ∈ viewports.
Proof.
  unfold getRandomViewport, mbind, M_bind, bind, Math_random, ret. simpl.
  set (i := Js.random_index _ _).
  assert (Hi : i < length viewports) by (apply random_index_lt; simpl; lia).
  destruct (lookup_lt_is_Some_2 _ _ Hi) as [vp Hvp].
  exists vp. rewrite Hvp. simpl. split; [done|].
  by eapply list_elem_of_lookup_2.
Qed.

Lemma attempt_result cfg w u rc ua vp st r st' :
  attempt cfg w u rc ua vp st = (Ret r, st') ->
  exists status payload, r = Succeeded status payload ua vp /\ (status < 400)%Z.
Proof.
  unfold attempt. unfold mbind, M_bind, bind, read, visit, ret, throw. simpl.
  destruct (match proxyMode (vars st) with _ => _ end st) as [[o | e |] st1]; [| done ..].
  destruct (getBrowserOptions cfg o st1) as [[s | e |] st2]; [| done ..].
  destruct (browser_visit w _ _ _) as [e | | status rest]; [done | done |].
  destruct (400 <=? status)%Z eqn:E.
  - by destruct (_ && _).
  - destruct rest; [done|]. intros [= <- <-]. apply Z.leb_gt in E. eauto.
Qed.

Lemma scrapeWithRetry_fuel_result cfg w u fuel : forall rc st r st',
  scrapeWithRetry_fuel cfg w fuel u rc st = (Ret r, st') -> well_formed_result r.
Proof.
  induction fuel as [| fuel IH]; intros rc st r st'; [done|].
  simpl.
  destruct (getRandomUserAgent_table w st) as (ua & Hua & Hin & _).
  unfold mbind, M_bind. unfold bind at 1. rewrite Hua.
  destruct (getRandomViewport_table w (Math_random w st).2) as (vp & Hvp & Hvin).
  unfold bind at 1. rewrite Hvp.
  unfold try_catch.
  destruct (attempt cfg w u rc ua vp _) as [[r0 | e |] st1] eqn:E.
  - intros [= <- <-].
    destruct (attempt_result _ _ _ _ _ _ _ _ _ E) as (status & payload & -> & Hlt).
    done.
  - destruct (retries cfg e rc).
    + unfold bind. simpl. apply IH.
    + intros [= <- <-]. simpl. eauto.
  - done.
Qed.

Lemma scrapeWithRetry_result cfg w u rc st :
  exists r st', scrapeWithRetry cfg w u rc st = (Ret r, st') /\ well_formed_result r.
Proof.
  destruct (scrapeWithRetry_returns cfg w u rc st) as (r & st' & H).
  exists r, st'. split; [done|]. by eapply scrapeWithRetry_fuel_result.
Qed.

(** X13 — what a result holds.  Whenever a unit resolves with a result,
    the user agent of the result is an entry of the table of
    [getRandomUserAgent]; a success has a status below 400 and a
    viewport of the table of [getRandomViewport]; a failure has for its
    status the digits of the leftmost "HTTP " of its message that
    digits follow, or "Unknown". *)
Theorem result_is_well_formed cfg w u rc st r st' :
  scrapeWithRetry cfg w u rc st = (Ret r, st') -> well_formed_result r.
Proof.
  intros H. destruct (scrapeWithRetry_result cfg w u rc st) as (r0 & st0 & H0 & Hwf).
  rewrite H in H0. by injection H0 as -> _.
Qed.

(** X13, at a page that answers 404. *)
Lemma result_is_well_formed_witness :
  let cfg := direct_sequential in
  let w := status_world (NetData "") ApiOther 404 in
  let st := mkSt (fresh_vars cfg) fresh_env in
  exists r st',
    scrapeWithRetry cfg w video 0 st = (Ret r, st') /\ well_formed_result r.
Proof.
  intros cfg w st.
  destruct (scrapeWithRetry cfg w video 0 st) as [[r | e |] st'] eqn:E;
    [| by vm_compute in E | by vm_compute in E].
  exists r, st'. split; [done|].
  exact (result_is_well_formed cfg w video 0 st r st' E).
Defined.

Lemma attempt_events cfg w u rc ua vp st :
  exists nets ls,
    tr (attempt cfg w u rc ua vp st).2 = tr st ++ nets ++ ls
    /\ Forall is_net nets
    /\ (ls = [] \/ exists p s, ls = [EvLaunch p s]).
Proof.
  unfold attempt. unfold mbind, M_bind. unfold bind at 1. unfold read at 1. simpl.
  assert (Hacq : exists nets,
    tr ((match proxyMode (vars st) with
         | ModeProxifly => p ← getNextProxiflyProxy cfg w; ret (Some p)
         | ModeFreeProxyList => p ← getNextFreeProxy cfg w; ret (Some p)
         | _ => ret None
         end : M (option Proxy)) st).2 = tr st ++ nets /\ Forall is_net nets).
  { assert (H : emits is_net (match proxyMode (vars st) with
         | ModeProxifly => p ← getNextProxiflyProxy cfg w; ret (Some p)
         | ModeFreeProxyList => p ← getNextFreeProxy cfg w; ret (Some p)
         | _ => ret None
         end : M (option Proxy))).
    { emits_auto ltac:(first [apply emits_getNextFreeProxy | apply emits_getNextProxiflyProxy]). }
    apply H. }
  destruct Hacq as (nets & Hn & HP).
  unfold bind at 1.
  match goal with |- context [match ?x st with _ => _ end] =>
    change x with ((match proxyMode (vars st) with
         | ModeProxifly => p ← getNextProxiflyProxy cfg w; ret (Some p)
         | ModeFreeProxyList => p ← getNextFreeProxy cfg w; ret (Some p)
         | _ => ret None
         end : M (option Proxy))) end.
  destruct ((match proxyMode (vars st) with
         | ModeProxifly => p ← getNextProxiflyProxy cfg w; ret (Some p)
         | ModeFreeProxyList => p ← getNextFreeProxy cfg w; ret (Some p)
         | _ => ret None
         end : M (option Proxy)) st) as [[o | e |] st1]; simpl in *;
    [| exists nets, []; rewrite app_nil_r; auto ..].
  unfold bind at 1.
  destruct (emits_getBrowserOptions (fun _ => False) cfg o st1) as (evs0 & H0 & HF).
  destruct evs0 as [| ? ?]; [| by inversion HF]. rewrite app_nil_r in H0.
  destruct (getBrowserOptions cfg o st1) as [[s | e |] st2]; simpl in *;
    [| exists nets, []; rewrite app_nil_r, H0; auto ..].
  unfold bind, visit, ret, throw. simpl.
  exists nets, [EvLaunch o s].
  split; [| split; [done | right; eauto]].
  assert (HT : trace (env st2) ++ [EvLaunch o s] = trace (env st) ++ nets ++ [EvLaunch o s]).
  { unfold tr in *. by rewrite H0, Hn, <- app_assoc. }
  destruct (browser_visit w _ _ _) as [e | | status rest]; simpl; try done.
  destruct (400 <=? status)%Z.
  - by destruct (_ && _).
  - by destruct rest.
Qed.

Lemma launched_app evs evs' : launched (evs ++ evs') = launched evs ++ launched evs'.
Proof. apply omap_app. Qed.

Lemma launched_net evs : Forall is_net evs -> launched evs = [].
Proof.
  induction 1 as [| e evs He _ IH]; [done|].
  destruct e; simpl in *; done.
Qed.

Lemma sleeps_net evs : Forall is_net evs -> sleeps evs = [].
Proof.
  induction 1 as [| e evs He _ IH]; [done|].
  destruct e; simpl in *; done.
Qed.

(** The first attempt of a level of [scrapeWithRetry], with its draws. *)
Lemma first_attempt_events cfg w u rc st :
  exists evs,
    tr ((userAgent ← getRandomUserAgent w;
         viewport ← getRandomViewport w;
         attempt cfg w u rc userAgent viewport) st).2 = tr st ++ evs
    /\ sleeps evs = []
    /\ length (launched evs) <= 1.
Proof.
  unfold getRandomUserAgent, getRandomViewport, mbind, M_bind, bind, Math_random, ret.
  simpl.
  match goal with |- context [attempt cfg w u rc ?ua ?vp ?s] =>
    destruct (attempt_events cfg w u rc ua vp s) as (nets & ls & Ht & Hn & Hl) end.
  exists (nets ++ ls). split; [done|].
  rewrite sleeps_app, launched_app, (sleeps_net _ Hn), (launched_net _ Hn).
  destruct Hl as [-> | (p & s & ->)]; simpl; split; (done || lia).
Qed.

Lemma scrapeWithRetry_fuel_schedule cfg w u fuel : forall rc st,
  exists k evs,
    k <= maxRetries cfg - rc
    /\ tr (scrapeWithRetry_fuel cfg w fuel u rc st).2 = tr st ++ evs
    /\ sleeps evs = map (fun i => backoffDelays cfg !! i) (seq rc k)
    /\ length (launched evs) <= k + 1.
Proof.
  induction fuel as [| fuel IH]; intros rc st.
  - exists 0, []. simpl. rewrite app_nil_r. repeat split; lia.
  - destruct (first_attempt_events cfg w u rc st) as (evs & Ht & Hs & Hl).
    destruct ((userAgent ← getRandomUserAgent w;
               viewport ← getRandomViewport w;
               attempt cfg w u rc userAgent viewport) st) as [[r | e |] st1] eqn:E.
    + exists 0, evs. simpl in *.
      unfold getRandomUserAgent, getRandomViewport, try_catch, mbind, M_bind, bind,
        Math_random, ret in *. simpl in *. rewrite E. simpl.
      repeat split; (done || lia).
    + destruct (scrapeWithRetry_fuel_throw cfg w fuel u rc st e st1 E) as (ua & ->).
      destruct (retries cfg e rc) eqn:Hr.
      * apply retries_lt in Hr.
        destruct (IH (rc + 1) (emit (EvSleep (backoffDelays cfg !! rc)) st1).2)
          as (k & evs' & Hk & Ht' & Hs' & Hl').
        exists (S k), (evs ++ EvSleep (backoffDelays cfg !! rc) :: evs').
        split; [lia|]. split.
        { rewrite Ht'. unfold tr, emit in *. simpl in *. rewrite Ht.
          by rewrite <- !app_assoc. }
        split.
        { rewrite sleeps_app, Hs. simpl. rewrite Hs'.
          by replace (rc + 1) with (S rc) by lia. }
        rewrite launched_app, length_app. simpl. lia.
      * exists 0, evs. simpl in *. repeat split; (done || lia).
    + exists 0, evs. simpl in *.
      unfold getRandomUserAgent, getRandomViewport, try_catch, mbind, M_bind, bind,
        Math_random, ret in *. simpl in *. rewrite E. simpl.
      repeat split; (done || lia).
Qed.

(** X14 — the retry budget.  Whatever the world does, a unit started at
    [retryCount] retries [k] times for some [k] of at most
    [maxRetries - retryCount]; it sleeps exactly before each retry, for
    [backoffDelays[retryCount]], [backoffDelays[retryCount + 1]], ... in
    this order, and launches the browser at most [k + 1] times. *)
Theorem retry_budget cfg w u rc st :
  exists r st' k evs,
    scrapeWithRetry cfg w u rc st = (Ret r, st')
    /\ tr st' = tr st ++ evs
    /\ k <= maxRetries cfg - rc
    /\ sleeps evs = map (fun i => backoffDelays cfg !! i) (seq rc k)
    /\ length (launched evs) <= k + 1.
Proof.
  destruct (scrapeWithRetry_returns cfg w u rc st) as (r & st' & Hrun).
  destruct (scrapeWithRetry_fuel_schedule cfg w u (S (maxRetries cfg - rc)) rc st)
    as (k & evs & Hk & Ht & Hs & Hl).
  exists r, st', k, evs. unfold scrapeWithRetry in *. rewrite Hrun in *. done.
Qed.

Lemma in_mode_of {A} mode (P : Event -> Prop) (m : M A) :
  preserves proxyMode m -> emits P m -> in_mode mode P m.
Proof. intros Hp He st Hm. split; [by rewrite Hp | apply He]. Qed.

Lemma in_mode_weaken {A} mode (P Q : Event -> Prop) (m : M A) :
  (forall e, P e -> Q e) -> in_mode mode P m -> in_mode mode Q m.
Proof.
  intros HPQ H st Hm. destruct (H st Hm) as (Hmode & evs & Ht & HP).
  split; [done|]. exists evs. split; [done|]. eapply Forall_impl; eauto.
Qed.

Lemma in_mode_bind {A B} mode (P : Event -> Prop) (m : M A) (k : A -> M B) :
  in_mode mode P m -> (forall a, in_mode mode P (k a)) -> in_mode mode P (m ≫= k).
Proof.
  intros Hm Hk st Hst. unfold mbind, M_bind, bind.
  destruct (Hm st Hst) as (Hmode & evs & Ht & HP).
  destruct (m st) as [[a | e |] st1]; simpl in *; [| split; [done | by exists evs] ..].
  destruct (Hk a st1 Hmode) as (Hmode' & evs' & Ht' & HP').
  split; [done|]. exists (evs ++ evs'). rewrite Ht', Ht, app_assoc.
  split; [done | by apply Forall_app].
Qed.

Lemma in_mode_try_catch {A} mode (P : Event -> Prop) (m : M A) (h : Error -> M A) :
  in_mode mode P m -> (forall e, in_mode mode P (h e)) -> in_mode mode P (try_catch m h).
Proof.
  intros Hm Hh st Hst. unfold try_catch.
  destruct (Hm st Hst) as (Hmode & evs & Ht & HP).
  destruct (m st) as [[a | e |] st1]; simpl in *; [split; [done | by exists evs] | |
    split; [done | by exists evs]].
  destruct (Hh e st1 Hmode) as (Hmode' & evs' & Ht' & HP').
  split; [done|]. exists (evs ++ evs'). rewrite Ht', Ht, app_assoc.
  split; [done | by apply Forall_app].
Qed.

Lemma in_mode_for_each {A S} mode (P : Event -> Prop) (body : A -> S -> M S) (l : list A) :
  (forall a s, in_mode mode P (body a s)) -> forall s, in_mode mode P (for_each l body s).
Proof.
  intros Hb. induction l as [| a l IH]; intros s; simpl.
  - intros st Hst. split; [done|]. exists []. by rewrite app_nil_r.
  - apply in_mode_bind; [apply Hb | apply IH].
Qed.

Lemma emits_download_getNextFreeProxy cfg w : emits is_download (getNextFreeProxy cfg w).
Proof.
  unfold getNextFreeProxy, refill_freeProxyList, take_freeProxy, fetchFreeProxyList.
  emits_auto ltac:(apply emits_download_fetchFreeProxyList_from).
Qed.

Lemma emits_api_Proxifly_getProxy w : emits is_api_call (Proxifly_getProxy w).
Proof. intros st. exists [EvApiCall]. split; [done | by repeat constructor]. Qed.

Lemma emits_api_fetchProxiflyProxies_fuel cfg w fuel b :
  emits is_api_call (fetchProxiflyProxies_fuel cfg w fuel b).
Proof.
  induction fuel as [| fuel IH]; simpl;
    emits_auto ltac:(first [apply IH | apply emits_api_Proxifly_getProxy]).
Qed.

Lemma emits_api_getNextProxiflyProxy cfg w : emits is_api_call (getNextProxiflyProxy cfg w).
Proof.
  unfold getNextProxiflyProxy, refill_proxiflyProxies, take_proxiflyProxy,
    fetchProxiflyProxies.
  emits_auto ltac:(apply emits_api_fetchProxiflyProxies_fuel).
Qed.

Ltac visit_leaf E He :=
  unfold visit, ret, throw in E; simpl in E;
  repeat match type of E with
         | context [match browser_visit ?w ?n ?s ?u with _ => _ end] =>
             destruct (browser_visit w n s u) as [? | | ? [? | ?]]; simpl in E
         | context [if ?c then _ else _] => destruct c; simpl in E
         end;
  rewrite E; simpl;
  (split; [done|]); eexists;
  (split; [unfold tr in *; simpl in *; rewrite ?He, <- ?app_assoc; reflexivity|]).

Lemma in_mode_attempt cfg w u rc ua vp mode :
  in_mode mode (unit_event_in cfg mode) (attempt cfg w u rc ua vp).
Proof.
  intros st Hm.
  remember (attempt cfg w u rc ua vp st) as r eqn:E.
  unfold attempt in E. unfold mbind, M_bind, bind, read in E. simpl in E.
  rewrite Hm in E. destruct mode.
  - unfold ret at 1 in E. rewrite getBrowserOptions_by_mode, Hm in E.
    visit_leaf E Hm; by repeat constructor.
  - unfold ret at 1 in E. rewrite getBrowserOptions_by_mode, Hm in E.
    visit_leaf E Hm; by repeat constructor.
  - pose proof (getNextProxiflyProxy_mode cfg w st) as Hp. rewrite Hm in Hp.
    destruct (emits_api_getNextProxiflyProxy cfg w st) as (evs & He & HP).
    assert (HQ : Forall (unit_event_in cfg ModeProxifly) evs).
    { eapply Forall_impl; [exact HP|]. by intros []. }
    destruct (getNextProxiflyProxy cfg w st) as [[p | e |] st1]; simpl in *;
      [| rewrite E; split; [done|]; by exists evs ..].
    unfold ret at 1 in E. rewrite getBrowserOptions_by_mode, Hp in E.
    destruct (has_endpoint p); [| rewrite E; split; [done|]; by exists evs].
    visit_leaf E He; (apply Forall_app; split; [done | by repeat constructor]).
  - pose proof (getNextFreeProxy_mode cfg w st) as Hp. rewrite Hm in Hp.
    destruct (emits_download_getNextFreeProxy cfg w st) as (evs & He & HP).
    assert (HQ : Forall (unit_event_in cfg ModeFreeProxyList) evs).
    { eapply Forall_impl; [exact HP|]. by intros []. }
    destruct (getNextFreeProxy cfg w st) as [[p | e |] st1]; simpl in *;
      [| rewrite E; split; [done|]; by exists evs ..].
    unfold ret at 1 in E. rewrite getBrowserOptions_by_mode, Hp in E.
    visit_leaf E He; (apply Forall_app; split; [done | by repeat constructor]).
Qed.

Lemma in_mode_scrapeWithRetry_fuel cfg w u mode fuel : forall rc,
  in_mode mode (unit_event_in cfg mode) (scrapeWithRetry_fuel cfg w fuel u rc).
Proof.
  induction fuel as [| fuel IH]; intros rc; simpl.
  - intros st Hm. split; [done|]. exists []. by rewrite app_nil_r.
  - apply in_mode_bind; [| intros ua; apply in_mode_bind; [| intros vp]].
    + apply in_mode_of; unfold getRandomUserAgent;
        [preserves_auto fail | emits_auto fail].
    + apply in_mode_of; unfold getRandomViewport;
        [preserves_auto fail | emits_auto fail].
    + apply in_mode_try_catch; [apply in_mode_attempt|].
      intros e. destruct (retries cfg e rc).
      * apply in_mode_bind; [| intros _; apply IH].
        apply in_mode_of; [preserves_auto fail | by apply emits_emit].
      * apply in_mode_of; [preserves_auto fail | emits_auto fail].
Qed.

(** X15 — what a unit does, by proxy mode.  A unit leaves
    [CONFIG.proxyMode] as it found it, and beside its sleeps it does
    only this: in mode 'none', launches without proxy record and
    without [--proxy-server]; in mode 'direct', launches with the
    configured proxy URL, and no fetch; under Proxifly pooling, API
    calls and launches whose [--proxy-server] is the URL built from the
    record that was taken; under free-list pooling, list downloads and
    launches that were given a record but no [--proxy-server]
    argument. *)
Theorem unit_by_mode cfg w u rc st :
  let mode := proxyMode (vars st) in
  exists r st' evs,
    scrapeWithRetry cfg w u rc st = (Ret r, st')
    /\ proxyMode (vars st') = mode
    /\ tr st' = tr st ++ evs
    /\ Forall (unit_event_in cfg mode) evs.
Proof.
  intros mode.
  destruct (scrapeWithRetry_returns cfg w u rc st) as (r & st' & Hrun).
  destruct (in_mode_scrapeWithRetry_fuel cfg w u mode (S (maxRetries cfg - rc)) rc st eq_refl)
    as (Hm & evs & Ht & HP).
  exists r, st', evs. unfold scrapeWithRetry in *. rewrite Hrun in *. done.
Qed.

Lemma first_attempt_http cfg w u rc st status rest :
  proxyMode (vars st) = ModeNone ->
  browser_visit w (launches (env st)) None u = VisitResponse status rest ->
  (400 <= status)%Z ->
  (userAgent ← getRandomUserAgent w;
   viewport ← getRandomViewport w;
   attempt cfg w u rc userAgent viewport) st
  = (Throw (http_error cfg status rc),
     mkSt (vars st)
          (mkEnv (httpCalls (env st)) (apiCalls (env st)) (S (S (randomCalls (env st))))
                 (S (launches (env st))) (trace (env st) ++ [EvLaunch None None]))).
Proof.
  intros Hm Hv Hs.
  unfold getRandomUserAgent, getRandomViewport, attempt, getBrowserOptions, visit,
    mbind, M_bind, bind, Math_random, read, ret, throw. simpl.
  rewrite Hm. simpl. rewrite Hm. simpl. rewrite Hv.
  replace (400 <=? status)%Z with true by (symmetry; by apply Z.leb_le).
  unfold http_error. by destruct (_ && _).
Qed.

Lemma server_fault_retryable cfg status rc :
  (status = 429 \/ 500 <= status <= 599)%Z ->
  retryable_kind (http_error cfg status rc) = true.
Proof.
  assert (H : forallb (fun k => let s := (500 + Z.of_nat k)%Z in
                Js.includes "5" ("HTTP " +:+ pretty s)
                && Js.includes "5" ("HTTP " +:+ pretty s +:+ " - Retry available"))
              (seq 0 100) = true) by (by vm_compute).
  rewrite forallb_forall in H.
  intros [-> | Hr].
  - unfold http_error. by destruct (_ && _).
  - specialize (H (Z.to_nat (status - 500)) ltac:(apply in_seq; lia)).
    rewrite Z2Nat.id in H by lia. replace (500 + (status - 500))%Z with status in H by lia.
    apply andb_prop in H as [H1 H2].
    unfold http_error, retryable_kind, isServerError.
    destruct (_ && _); simpl message; rewrite ?H1, ?H2; by rewrite orb_true_r.
Qed.

(** X16 — an HTTP failure is reported with its status.  Without a proxy,
    when the page answers with a status of 400 or more and the catch
    block does not retry, the unit ends at once, after this one launch,
    as a failure whose error is the message thrown for the status and
    whose [status] is the decimal text of that very status. *)
Theorem http_failure_is_reported cfg w u rc st status rest :
  proxyMode (vars st) = ModeNone ->
  browser_visit w (launches (env st)) None u = VisitResponse status rest ->
  (400 <= status)%Z ->
  retries cfg (http_error cfg status rc) rc = false ->
  exists ua st',
    scrapeWithRetry cfg w u rc st
    = (Ret (Failed (message (http_error cfg status rc)) (Some (pretty status)) (Some ua)), st')
    /\ tr st' = tr st ++ [EvLaunch None None].
Proof.
  intros Hm Hv Hs Hr. unfold scrapeWithRetry.
  destruct (scrapeWithRetry_fuel_throw cfg w (maxRetries cfg - rc) u rc st _ _
              (first_attempt_http cfg w u rc st status rest Hm Hv Hs)) as (ua & ->).
  rewrite Hr, http_error_status by lia. simpl. eauto.
Qed.

(** X16, at a page that answers 404. *)
Lemma http_failure_is_reported_witness :
  let cfg := direct_sequential in
  let w := status_world (NetData "") ApiOther 404 in
  let st := mkSt (fresh_vars cfg) fresh_env in
  (proxyMode (vars st) = ModeNone
   /\ browser_visit w (launches (env st)) None video = VisitResponse 404 (PageDone page)
   /\ (400 <= 404)%Z
   /\ retries cfg (http_error cfg 404 0) 0 = false)
  /\ exists ua st',
       scrapeWithRetry cfg w video 0 st
       = (Ret (Failed (message (http_error cfg 404 0)) (Some (pretty 404%Z)) (Some ua)), st')
       /\ tr st' = tr st ++ [EvLaunch None None].
Proof.
  intros cfg w st.
  assert (H1 : proxyMode (vars st) = ModeNone) by reflexivity.
  assert (H2 : browser_visit w (launches (env st)) None video
               = VisitResponse 404 (PageDone page)) by reflexivity.
  assert (H3 : (400 <= 404)%Z) by lia.
  assert (H4 : retries cfg (http_error cfg 404 0) 0 = false) by reflexivity.
  split; [by repeat split|].
  exact (http_failure_is_reported cfg w video 0 st 404 (PageDone page) H1 H2 H3 H4).
Defined.

(** X17 — rate limits and server faults are retried.  Without a proxy,
    when the page answers 429 or a status from 500 to 599 and retries
    are left, the unit sleeps [backoffDelays[retryCount]] after this
    one launch and goes on as the unit started at [retryCount + 1]. *)
Theorem server_faults_are_retried cfg w u rc st status rest :
  proxyMode (vars st) = ModeNone ->
  browser_visit w (launches (env st)) None u = VisitResponse status rest ->
  (status = 429 \/ 500 <= status <= 599)%Z ->
  rc < maxRetries cfg ->
  exists st1,
    scrapeWithRetry cfg w u rc st = scrapeWithRetry cfg w u (rc + 1) st1
    /\ vars st1 = vars st
    /\ tr st1 = tr st ++ [EvLaunch None None; EvSleep (backoffDelays cfg !! rc)].
Proof.
  intros Hm Hv Hs Hrc. unfold scrapeWithRetry.
  destruct (scrapeWithRetry_fuel_throw cfg w (maxRetries cfg - rc) u rc st _ _
              (first_attempt_http cfg w u rc st status rest Hm Hv ltac:(lia))) as (ua & ->).
  unfold retries. rewrite server_fault_retryable by done.
  replace (rc <? maxRetries cfg)%nat with true by (symmetry; by apply Nat.ltb_lt).
  simpl andb. cbv iota.
  replace (maxRetries cfg - rc) with (S (maxRetries cfg - (rc + 1))) by lia.
  eexists. split; [done|]. split; [done|].
  unfold tr, emit. simpl. by rewrite <- app_assoc.
Qed.

(** X17, at a page that answers 503. *)
Lemma server_faults_are_retried_witness :
  let cfg := direct_sequential in
  let w := status_world (NetData "") ApiOther 503 in
  let st := mkSt (fresh_vars cfg) fresh_env in
  (proxyMode (vars st) = ModeNone
   /\ browser_visit w (launches (env st)) None video = VisitResponse 503 (PageDone page)
   /\ (503 = 429 \/ 500 <= 503 <= 599)%Z
   /\ 0 < maxRetries cfg)
  /\ exists st1,
       scrapeWithRetry cfg w video 0 st = scrapeWithRetry cfg w video (0 + 1) st1
       /\ vars st1 = vars st
       /\ tr st1 = tr st ++ [EvLaunch None None; EvSleep (backoffDelays cfg !! 0)].
Proof.
  intros cfg w st.
  assert (H1 : proxyMode (vars st) = ModeNone) by reflexivity.
  assert (H2 : browser_visit w (launches (env st)) None video
               = VisitResponse 503 (PageDone page)) by reflexivity.
  assert (H3 : (503 = 429 \/ 500 <= 503 <= 599)%Z) by lia.
  assert (H4 : 0 < maxRetries cfg) by (simpl; lia).
  split; [by repeat split|].
  exact (server_faults_are_retried cfg w video 0 st 503 (PageDone page) H1 H2 H3 H4).
Defined.

Lemma getNextFreeProxy_given_up cfg w st :
  given_up (vars st) ->
  getNextFreeProxy cfg w st
  = (Throw (new_Error unable_msg),
     mkSt (set_proxyFetchAttempts (proxyFetchAttempts (vars st) + 1) (vars st)) (env st)).
Proof.
  intros [Hex Hn].
  unfold getNextFreeProxy, refill_freeProxyList, mbind, M_bind, bind, read, write, throw.
  simpl.
  replace (length (freeProxyList (vars st)) <=? freeProxyIndex (vars st))%nat with true
    by (symmetry; by apply Nat.leb_le).
  rewrite orb_true_r. simpl.
  change (match proxyFetchAttempts (vars st) + 1 with
          | S (S (S (S (S _)))) => true | _ => false end)
    with (MAX_FETCH_ATTEMPTS <=? proxyFetchAttempts (vars st) + 1)%nat.
  replace (MAX_FETCH_ATTEMPTS <=? proxyFetchAttempts (vars st) + 1)%nat with true
    by (symmetry; by apply Nat.leb_le).
  done.
Qed.

Lemma unable_msg_retryable : retryable_kind (new_Error unable_msg) = true.
Proof. reflexivity. Qed.

Lemma unable_msg_status : Js.match_http_status unable_msg = None.
Proof. reflexivity. Qed.

Lemma given_up_unit cfg w u fuel : forall rc st,
  proxyMode (vars st) = ModeFreeProxyList ->
  given_up (vars st) ->
  0 < fuel -> maxRetries cfg < fuel + rc ->
  exists ua st',
    scrapeWithRetry_fuel cfg w fuel u rc st
    = (Ret (Failed unable_msg (Some "Unknown") (Some ua)), st')
    /\ tr st' = tr st ++ map (fun i => EvSleep (backoffDelays cfg !! i))
                             (seq rc (maxRetries cfg - rc))
    /\ proxyMode (vars st') = ModeFreeProxyList
    /\ given_up (vars st').
Proof.
  induction fuel as [| fuel IH]; intros rc st Hm Hg Hpos Hf.
  - lia.
  - assert (E : (userAgent ← getRandomUserAgent w;
                 viewport ← getRandomViewport w;
                 attempt cfg w u rc userAgent viewport) st
                = (Throw (new_Error unable_msg),
                   mkSt (set_proxyFetchAttempts (proxyFetchAttempts (vars st) + 1) (vars st))
                        (mkEnv (httpCalls (env st)) (apiCalls (env st))
                               (S (S (randomCalls (env st)))) (launches (env st))
                               (trace (env st))))).
    { unfold getRandomUserAgent, getRandomViewport, mbind, M_bind, bind, Math_random, ret.
      simpl.
      match goal with |- attempt cfg w u rc ?ua ?vp ?s = _ =>
        pose proof (attempt_asks_pool_first cfg w u rc ua vp s Hm) as Ha;
        rewrite (getNextFreeProxy_given_up cfg w s Hg) in Ha end.
      exact Ha. }
    destruct (scrapeWithRetry_fuel_throw cfg w fuel u rc st _ _ E) as (ua & ->).
    unfold retries. rewrite unable_msg_retryable. simpl andb.
    destruct (rc <? maxRetries cfg)%nat eqn:Hrc.
    + apply Nat.ltb_lt in Hrc.
      edestruct (IH (rc + 1)) as (ua' & st' & -> & Ht & Hm' & Hg'); [| | | | ].
      5: { exists ua', st'. split; [done|]. split; [|done].
           rewrite Ht. unfold tr, emit. simpl.
           replace (maxRetries cfg - rc) with (S (maxRetries cfg - (rc + 1))) by lia.
           simpl. rewrite <- app_assoc. simpl.
           by replace (rc + 1) with (S rc) by lia. }
      * done.
      * destruct Hg as [Hex Hn]. split; simpl; [done | lia].
      * lia.
      * lia.
    + apply Nat.ltb_ge in Hrc.
      change (message (new_Error unable_msg)) with unable_msg.
      rewrite unable_msg_status.
      eexists ua, _. split; [done|].
      replace (maxRetries cfg - rc) with 0 by lia. simpl.
      unfold tr. simpl. rewrite app_nil_r. split; [done|]. split; [done|].
      destruct Hg as [Hex Hn]. split; simpl; [done | lia].
Qed.

(** X18 — a pool that has given up.  Under free-list pooling, once the
    pool has nothing left and [proxyFetchAttempts] is one short of
    MAX_FETCH_ATTEMPTS or more, every attempt of a unit throws "Unable
    to fetch new unique proxies after 5 attempts" without a download
    and without a launch; the message holds a 5, so the catch block
    retries it: the unit does nothing but sleep through what is left of
    the backoff schedule and ends as a failure of status "Unknown",
    and it leaves the pool in the same condition for the unit after
    it. *)
Theorem given_up_pool_sleeps_through_the_schedule cfg w u rc st :
  proxyMode (vars st) = ModeFreeProxyList ->
  given_up (vars st) ->
  exists ua st',
    scrapeWithRetry cfg w u rc st
    = (Ret (Failed unable_msg (Some "Unknown") (Some ua)), st')
    /\ tr st' = tr st ++ map (fun i => EvSleep (backoffDelays cfg !! i))
                             (seq rc (maxRetries cfg - rc))
    /\ proxyMode (vars st') = ModeFreeProxyList
    /\ given_up (vars st').
Proof.
  intros Hm Hg. apply given_up_unit; [done | done | lia | lia].
Qed.

(** X18, at the module of a run whose lists have run dry. *)
Lemma given_up_pool_sleeps_through_the_schedule_witness :
  let cfg := free_sequential 1 in
  let w := status_world (NetData single_listing) ApiOther 200 in
  (proxyMode (vars run_dry) = ModeFreeProxyList /\ given_up (vars run_dry))
  /\ exists ua st',
       scrapeWithRetry cfg w video 0 run_dry
       = (Ret (Failed unable_msg (Some "Unknown") (Some ua)), st')
       /\ tr st' = tr run_dry ++ map (fun i => EvSleep (backoffDelays cfg !! i))
                                     (seq 0 (maxRetries cfg - 0))
       /\ proxyMode (vars st') = ModeFreeProxyList
       /\ given_up (vars st').
Proof.
  intros cfg w.
  assert (H1 : proxyMode (vars run_dry) = ModeFreeProxyList) by (by vm_compute).
  assert (H2 : given_up (vars run_dry)) by (split; vm_compute; lia).
  split; [by split|].
  exact (given_up_pool_sleeps_through_the_schedule cfg w video 0 run_dry H1 H2).
Defined.

(** ** The run loops *)

Lemma proxy_servers_without evs :
  Forall launch_without_server evs -> Forall (fun s => s = None) (proxy_servers evs).
Proof.
  induction 1 as [| e evs He _ IH]; [constructor|].
  destruct e as [| | p [s|] | | |]; simpl in *; try done. by constructor.
Qed.

Lemma in_mode_sequential_loop cfg w u mode (l : list nat) results :
  mode = ModeNone \/ mode = ModeFreeProxyList ->
  in_mode mode launch_without_server (for_each l (sequential_iteration cfg w u) results).
Proof.
  intros Hmode. apply in_mode_for_each. intros i r.
  unfold sequential_iteration.
  apply in_mode_bind; [| intros res; apply in_mode_bind; [| intros _]].
  - apply (in_mode_weaken _ (unit_event_in cfg mode)).
    + intros [| | [p|] [s|] | | |]; destruct Hmode as [-> | ->]; simpl; done.
    + apply in_mode_scrapeWithRetry_fuel.
  - destruct (i <? _)%nat.
    + apply in_mode_of; [preserves_auto fail|].
      emits_auto ltac:(by apply emits_emit).
    + apply in_mode_of; [preserves_auto fail | emits_auto fail].
  - apply in_mode_of; [preserves_auto fail | emits_auto fail].
Qed.

(** X19 — the free list never reaches the browser.  A sequential run
    that starts under free-list pooling never launches a browser with
    a [--proxy-server] argument, whether the first fetch succeeds or
    the run falls back to mode 'none': [getBrowserOptions] has no case
    for the mode, so the records taken from the pool are registered as
    used and the visits go out over the direct connection. *)
Theorem free_list_proxy_never_passed cfg w u st :
  proxyMode (vars st) = ModeFreeProxyList ->
  exists results st' evs,
    runSequentialScraping cfg w u st = (Ret results, st')
    /\ tr st' = tr st ++ evs
    /\ Forall (fun s => s = None) (proxy_servers evs).
Proof.
  intros Hm.
  destruct (runSequentialScraping_returns cfg w u st) as (results & st' & Hrun & _).
  exists results, st'.
  unfold runSequentialScraping in *. unfold mbind, M_bind, bind in *.
  destruct (emits_fetch_on_start cfg w st) as (evs0 & Hev0 & HP0).
  destruct (fetch_on_start_returns cfg w st) as (st1 & Hs). rewrite Hs in *.
  simpl in Hev0.
  assert (Hm1 : proxyMode (vars st1) = ModeNone \/ proxyMode (vars st1) = ModeFreeProxyList).
  { revert Hs. unfold fetch_on_start, try_catch, mbind, M_bind, bind, read, write, ret.
    simpl. rewrite Hm.
    assert (Hp : forall rest i, preserves proxyMode (fetchFreeProxyList_from cfg w rest i)).
    { induction rest as [| source rest IH]; intros i; simpl; preserves_auto ltac:(apply IH). }
    specialize (Hp (drop 0 (free_sources cfg)) 0 st). unfold fetchFreeProxyList.
    destruct (fetchFreeProxyList_from _ _ _ _ _) as [[? | ? |] ?]; simpl in *;
      intros [= <-]; simpl; rewrite ?Hp; auto. }
  destruct (in_mode_sequential_loop cfg w u _ (seq 0 (totalRequests cfg)) results0 Hm1 st1 eq_refl)
    as (_ & evs & Ht & HP).
  rewrite Hrun in Ht. simpl in Ht.
  exists (evs0 ++ evs). split; [done|]. split; [by rewrite Ht, Hev0, app_assoc|].
  apply proxy_servers_without, Forall_app. split; [| done].
  eapply Forall_impl; [exact HP0|]. by intros [].
Qed.

(** X19, at a run of two units whose lists name two proxies. *)
Lemma free_list_proxy_never_passed_witness :
  let cfg := free_sequential 2 in
  let w := status_world (NetData two_listing) ApiOther 200 in
  let st := mkSt (fresh_vars cfg) fresh_env in
  proxyMode (vars st) = ModeFreeProxyList
  /\ exists results st' evs,
       runSequentialScraping cfg w video st = (Ret results, st')
       /\ tr st' = tr st ++ evs
       /\ Forall (fun s => s = None) (proxy_servers evs).
Proof.
  intros cfg w st.
  assert (H : proxyMode (vars st) = ModeFreeProxyList) by reflexivity.
  split; [exact H|]. exact (free_list_proxy_never_passed cfg w video st H).
Defined.

(** X20 — a sequential run falls back.  When the first fetch of a
    sequential run throws, under either kind of pooling, the run sets
    [CONFIG.proxyMode] to 'none' and goes on: it records all
    [totalRequests] units, and after the fetch it does nothing but
    launch without proxy, sleep and pause. *)
Theorem sequential_run_falls_back cfg w u st :
  (proxyMode (vars st) = ModeProxifly
   /\ exists e st1, fetchProxiflyProxies cfg w true st = (Throw e, st1))
  \/ (proxyMode (vars st) = ModeFreeProxyList
      /\ exists e st1, fetchFreeProxyList cfg w 0 st = (Throw e, st1)) ->
  exists results st0 st' evs,
    fetch_on_start cfg w st = (Ret tt, st0)
    /\ runSequentialScraping cfg w u st = (Ret results, st')
    /\ total results = totalRequests cfg
    /\ proxyMode (vars st') = ModeNone
    /\ tr st' = tr st0 ++ evs
    /\ Forall is_direct_event evs.
Proof. apply sequential_fallback. Qed.

(** X20, at a run of two units whose list downloads all fail. *)
Lemma sequential_run_falls_back_witness :
  let cfg := free_sequential 2 in
  let w := status_world (NetError not_found) ApiOther 200 in
  let st := mkSt (fresh_vars cfg) fresh_env in
  ((proxyMode (vars st) = ModeProxifly
    /\ exists e st1, fetchProxiflyProxies cfg w true st = (Throw e, st1))
   \/ (proxyMode (vars st) = ModeFreeProxyList
       /\ exists e st1, fetchFreeProxyList cfg w 0 st = (Throw e, st1)))
  /\ exists results st0 st' evs,
       fetch_on_start cfg w st = (Ret tt, st0)
       /\ runSequentialScraping cfg w video st = (Ret results, st')
       /\ total results = totalRequests cfg
       /\ proxyMode (vars st') = ModeNone
       /\ tr st' = tr st0 ++ evs
       /\ Forall is_direct_event evs.
Proof.
  intros cfg w st.
  assert (H : (proxyMode (vars st) = ModeProxifly
               /\ exists e st1, fetchProxiflyProxies cfg w true st = (Throw e, st1))
              \/ (proxyMode (vars st) = ModeFreeProxyList
                  /\ exists e st1, fetchFreeProxyList cfg w 0 st = (Throw e, st1))).
  { right. split; [reflexivity|]. eexists _, _. by vm_compute. }
  split; [exact H|]. exact (sequential_run_falls_back cfg w video st H).
Defined.

Lemma size_add_le (x : string) (X : gset string) : size ({[x]} ∪ X) <= 1 + size X.
Proof.
  rewrite size_union_alt, size_singleton.
  assert (size (X ∖ {[x]}) <= size X).
  { apply subseteq_size. by intros y [Hy _]%elem_of_difference. }
  lia.
Qed.

Lemma record_result_tallies results r :
  well_formed_result r -> tallies_sound results -> tallies_sound (record_result results r).
Proof.
  intros Hr (Hs & Hu & Hv). destruct r as [status payload ua vp | error status ua];
    [| done].
  destruct Hr as (_ & Hua & _). unfold tallies_sound. simpl.
  split; [| split].
  - destruct (negb _); [| done].
    intros a [->%elem_of_singleton | Ha]%elem_of_union; [done | by apply Hs].
  - destruct (negb _).
    + pose proof (size_add_le ua (userAgents results)). lia.
    + lia.
  - pose proof (size_add_le (pretty vp.1 +:+ "x" +:+ pretty vp.2) (viewportsSeen results)).
    lia.
Qed.

Lemma tallies_sound_results0 : tallies_sound results0.
Proof.
  unfold tallies_sound, results0.
  change (userAgents (mkResults 0 0 0 ∅ ∅)) with (∅ : gset string).
  change (viewportsSeen (mkResults 0 0 0 ∅ ∅)) with (∅ : gset string).
  rewrite size_empty. split; [| done].
  intros ua H. by apply elem_of_empty in H.
Qed.

Lemma omap_emits {A B} (P : Event -> Prop) (f : Event -> option B) (m : M A) st :
  emits P m -> (forall e, P e -> f e = None) ->
  exists evs, tr (m st).2 = tr st ++ evs /\ omap f evs = [].
Proof.
  intros Hm Hf. destruct (Hm st) as (evs & Ht & HP).
  exists evs. split; [done|]. clear Ht.
  induction HP as [| e evs He _ IH]; [done|].
  simpl. by rewrite (Hf e He).
Qed.

Lemma pauses_app evs evs' : pauses (evs ++ evs') = pauses evs ++ pauses evs'.
Proof. apply omap_app. Qed.

Lemma pauses_unit_events evs : Forall is_unit_event evs -> pauses evs = [].
Proof.
  induction 1 as [| e evs He _ IH]; [done|].
  destruct e; simpl in *; done.
Qed.

Lemma pauses_net evs : Forall is_net evs -> pauses evs = [].
Proof.
  induction 1 as [| e evs He _ IH]; [done|].
  destruct e; simpl in *; done.
Qed.

Lemma pauses_EvWorker ids : pauses (map EvWorker ids) = [].
Proof. by induction ids. Qed.

Lemma sequential_iteration_spec cfg w u i results st :
  exists r st' evs,
    sequential_iteration cfg w u i results st = (Ret (record_result results r), st')
    /\ well_formed_result r
    /\ tr st' = tr st ++ evs
    /\ workers evs = []
    /\ length (pauses evs) = (if (i <? totalRequests cfg - 1)%nat then 1 else 0).
Proof.
  unfold sequential_iteration. unfold mbind, M_bind. unfold bind at 1.
  destruct (scrapeWithRetry_result cfg w u 0 st) as (r & st1 & Hrun & Hr).
  destruct (omap_emits is_unit_event
              (fun e => match e with EvWorker id => Some id | _ => None end)
              (scrapeWithRetry cfg w u 0) st (emits_scrapeWithRetry cfg w u 0))
    as (evs & Ht & Hw); [by intros []|].
  destruct (omap_emits is_unit_event
              (fun e => match e with EvPause r => Some r | _ => None end)
              (scrapeWithRetry cfg w u 0) st (emits_scrapeWithRetry cfg w u 0))
    as (evs' & Ht' & Hp); [by intros []|].
  rewrite Ht in Ht'. apply app_inv_head in Ht'. subst evs'.
  rewrite Hrun in *. simpl in *.
  exists r.
  destruct (i <? _)%nat; unfold bind, Math_random, emit, ret; simpl.
  - eexists _, (evs ++ [EvPause _]). split; [done|]. split; [done|].
    split; [unfold tr in *; simpl in *; by rewrite Ht, <- app_assoc|].
    fold (workers evs) in Hw. fold (pauses evs) in Hp.
    rewrite workers_app, pauses_app, Hw, Hp. done.
  - eexists _, evs. split; [done|]. split; [done|]. split; [done|].
    fold (workers evs) in Hw. fold (pauses evs) in Hp. by rewrite Hw, Hp.
Qed.

Lemma sequential_loop_spec cfg w u (l : list nat) : forall results st,
  exists results' st' evs,
    for_each l (sequential_iteration cfg w u) results st = (Ret results', st')
    /\ (tallies_sound results -> tallies_sound results')
    /\ tr st' = tr st ++ evs
    /\ workers evs = []
    /\ length (pauses evs)
       = length (List.filter (fun i => (i <? totalRequests cfg - 1)%nat) l).
Proof.
  induction l as [| i l IH]; intros results st; simpl.
  - exists results, st, []. rewrite app_nil_r. done.
  - unfold mbind, M_bind, bind.
    destruct (sequential_iteration_spec cfg w u i results st)
      as (r & st1 & evs & -> & Hr & Ht & Hw & Hp).
    destruct (IH (record_result results r) st1)
      as (results' & st' & evs' & -> & Hs & Ht' & Hw' & Hp').
    exists results', st', (evs ++ evs').
    split; [done|]. split; [intros H; by apply Hs, record_result_tallies|].
    split; [by rewrite Ht', Ht, app_assoc|].
    rewrite workers_app, pauses_app, length_app, Hw, Hw', Hp, Hp'.
    split; [done|]. destruct (i <? _)%nat; simpl; lia.
Qed.

Lemma count_below m n a :
  length (List.filter (fun i => (i <? m)%nat) (seq a n)) = (m - a) `min` n.
Proof.
  revert a. induction n as [| n IH]; intros a; simpl; [lia|].
  destruct (a <? m)%nat eqn:E; simpl; rewrite IH.
  - apply Nat.ltb_lt in E. lia.
  - apply Nat.ltb_ge in E. lia.
Qed.

Lemma run_worker_result cfg w u id st :
  exists r st' evs,
    run_worker cfg w u id st = (Ret (OnMessage id r), st')
    /\ well_formed_result r
    /\ vars st' = vars st
    /\ tr st' = tr st ++ evs
    /\ pauses evs = [].
Proof.
  unfold run_worker, worker_main, try_catch, mbind, M_bind, bind, ret.
  set (st0 := mkSt (fresh_vars cfg) (env st)).
  destruct (emits_scrapeWithRetry cfg w u 0 st0) as (evs & Hev & HP).
  destruct (scrapeWithRetry_result cfg w u 0 st0) as (r & st1 & Hr & Hwf).
  rewrite Hr in *. simpl in *.
  exists r, (mkSt (vars st) (env st1)), evs.
  split; [done|]. split; [done|]. split; [done|]. split; [done|].
  by apply pauses_unit_events.
Qed.

Lemma collect_workers_tallies cfg w u (ids : list nat) : forall results st,
  exists results' st' evs,
    for_each ids (await_worker cfg w u) results st = (Ret results', st')
    /\ (tallies_sound results -> tallies_sound results')
    /\ tr st' = tr st ++ evs
    /\ pauses evs = [].
Proof.
  induction ids as [| id ids IH]; intros results st; simpl.
  - exists results, st, []. by rewrite app_nil_r.
  - unfold mbind, M_bind, bind. unfold await_worker at 1. unfold mbind, M_bind, bind.
    destruct (run_worker_result cfg w u id st)
      as (r & st1 & evs1 & -> & Hwf & _ & Htr1 & Hp1).
    unfold ret at 1. simpl.
    destruct (IH (record_result results r) st1) as (results' & st' & evs & -> & Hs & Htr & Hp).
    exists results', st', (evs1 ++ evs). split; [done|]. split.
    + intros H. by apply Hs, record_result_tallies.
    + by rewrite Htr, Htr1, app_assoc, pauses_app, Hp1, Hp.
Qed.

Lemma run_batch_tallies cfg w u batch results st :
  exists results' st' evs,
    run_batch cfg w u batch results st = (Ret results', st')
    /\ (tallies_sound results -> tallies_sound results')
    /\ tr st' = tr st ++ evs
    /\ length (pauses evs) = (if (batch <? num_batches cfg - 1)%nat then 1 else 0).
Proof.
  unfold run_batch. unfold mbind, M_bind, bind.
  destruct (create_workers_spec (batch_workers cfg batch) st) as (st1 & -> & Htr1).
  destruct (collect_workers_tallies cfg w u (batch_workers cfg batch) results st1)
    as (results' & st2 & evs2 & -> & Hs & Htr2 & Hp2).
  destruct (batch <? _)%nat; unfold Math_random, emit, ret; simpl.
  - eexists results', _, (map EvWorker (batch_workers cfg batch) ++ evs2 ++ [EvPause _]).
    split; [done|]. split; [done|]. split.
    + unfold tr in *. simpl. rewrite Htr2, Htr1. by rewrite <- !app_assoc.
    + by rewrite !pauses_app, pauses_EvWorker, Hp2.
  - eexists results', _, (map EvWorker (batch_workers cfg batch) ++ evs2).
    split; [done|]. split; [done|]. split.
    + rewrite Htr2, Htr1. by rewrite <- !app_assoc.
    + by rewrite !pauses_app, pauses_EvWorker, Hp2.
Qed.

Lemma batches_loop_tallies cfg w u (l : list nat) : forall results st,
  exists results' st' evs,
    for_each l (run_batch cfg w u) results st = (Ret results', st')
    /\ (tallies_sound results -> tallies_sound results')
    /\ tr st' = tr st ++ evs
    /\ length (pauses evs)
       = length (List.filter (fun batch => (batch <? num_batches cfg - 1)%nat) l).
Proof.
  induction l as [| batch l IH]; intros results st; simpl.
  - exists results, st, []. by rewrite app_nil_r.
  - unfold mbind, M_bind, bind.
    destruct (run_batch_tallies cfg w u batch results st)
      as (results1 & st1 & evs1 & -> & Hs1 & Htr1 & Hp1).
    destruct (IH results1 st1) as (results' & st' & evs & -> & Hs & Htr & Hp).
    exists results', st', (evs1 ++ evs). split; [done|]. split; [by auto|].
    split; [by rewrite Htr, Htr1, app_assoc|].
    rewrite pauses_app, length_app, Hp1, Hp. destruct (batch <? _)%nat; simpl; lia.
Qed.

Lemma runSequentialScraping_shape cfg w u st :
  exists results st' evs,
    runSequentialScraping cfg w u st = (Ret results, st')
    /\ tallies_sound results
    /\ tr st' = tr st ++ evs
    /\ workers evs = []
    /\ length (pauses evs) = totalRequests cfg - 1.
Proof.
  unfold runSequentialScraping. unfold mbind, M_bind, bind.
  destruct (emits_fetch_on_start cfg w st) as (evs0 & Hev0 & HP0).
  destruct (fetch_on_start_returns cfg w st) as (st1 & Hs). rewrite Hs in *.
  simpl in Hev0.
  destruct (sequential_loop_spec cfg w u (seq 0 (totalRequests cfg)) results0 st1)
    as (results & st' & evs & -> & Hts & Htr & Hw & Hp).
  exists results, st', (evs0 ++ evs). split; [done|].
  split; [apply Hts, tallies_sound_results0|].
  split; [by rewrite Htr, Hev0, app_assoc|]. split.
  - rewrite workers_app, Hw, (workers_unit_events evs0); [done|].
    eapply Forall_impl; [exact HP0 | apply is_net_unit].
  - rewrite pauses_app, length_app, (pauses_net _ HP0), Hp, count_below. simpl. lia.
Qed.

Lemma runConcurrentScraping_shape cfg w u st :
  0 < maxConcurrent cfg ->
  exists results st' evs,
    runConcurrentScraping cfg w u st = (Ret results, st')
    /\ tallies_sound results
    /\ tr st' = tr st ++ evs
    /\ length (pauses evs) = num_batches cfg - 1.
Proof.
  intros Hc. unfold runConcurrentScraping. unfold mbind, M_bind, bind.
  destruct (emits_fetch_on_start cfg w st) as (evs0 & Hev0 & HP0).
  destruct (fetch_on_start_returns cfg w st) as (st1 & Hs). rewrite Hs in *.
  simpl in Hev0.
  replace (maxConcurrent cfg =? 0)%nat with false by (symmetry; apply Nat.eqb_neq; lia).
  simpl.
  destruct (batches_loop_tallies cfg w u (seq 0 (num_batches cfg)) results0 st1)
    as (results & st' & evs & -> & Hts & Htr & Hp).
  exists results, st', (evs0 ++ evs). split; [done|].
  split; [apply Hts, tallies_sound_results0|].
  split; [by rewrite Htr, Hev0, app_assoc|].
  rewrite pauses_app, length_app, (pauses_net _ HP0), Hp, count_below. simpl. lia.
Qed.

(** X21 — pauses between units.  A sequential run pauses after every
    unit but the last, [totalRequests - 1] times in all and not at all
    for an empty run; a concurrent run pauses after every batch but the
    last, one time fewer than there are batches. *)
Theorem pauses_between_units cfg w u st :
  0 < maxConcurrent cfg ->
  (exists results st' evs,
     runSequentialScraping cfg w u st = (Ret results, st')
     /\ tr st' = tr st ++ evs
     /\ length (pauses evs) = totalRequests cfg - 1)
  /\ (exists results st' evs,
        runConcurrentScraping cfg w u st = (Ret results, st')
        /\ tr st' = tr st ++ evs
        /\ length (pauses evs) = num_batches cfg - 1).
Proof.
  intros Hc. split.
  - destruct (runSequentialScraping_shape cfg w u st)
      as (results & st' & evs & Hrun & _ & Ht & _ & Hp).
    by exists results, st', evs.
  - destruct (runConcurrentScraping_shape cfg w u st Hc)
      as (results & st' & evs & Hrun & _ & Ht & Hp).
    by exists results, st', evs.
Qed.

(** X21, at three units run two at a time. *)
Lemma pauses_between_units_witness :
  let cfg := three_by_two in
  let w := status_world (NetData "") ApiOther 200 in
  let st := mkSt (fresh_vars cfg) fresh_env in
  0 < maxConcurrent cfg
  /\ (exists results st' evs,
        runSequentialScraping cfg w video st = (Ret results, st')
        /\ tr st' = tr st ++ evs
        /\ length (pauses evs) = totalRequests cfg - 1)
  /\ (exists results st' evs,
        runConcurrentScraping cfg w video st = (Ret results, st')
        /\ tr st' = tr st ++ evs
        /\ length (pauses evs) = num_batches cfg - 1).
Proof.
  intros cfg w st.
  assert (H : 0 < maxConcurrent cfg) by (simpl; lia).
  split; [exact H|]. exact (pauses_between_units cfg w video st H).
Defined.

(** X22 — the tallies of a run.  In the results of either run loop,
    every user agent counted as seen is an entry of the table of
    [getRandomUserAgent], and neither the agents nor the viewports
    counted as unique outnumber the units that succeeded. *)
Theorem tallies_of_a_run cfg w u st :
  0 < maxConcurrent cfg ->
  (exists results st',
     runSequentialScraping cfg w u st = (Ret results, st') /\ tallies_sound results)
  /\ (exists results st',
        runConcurrentScraping cfg w u st = (Ret results, st') /\ tallies_sound results).
Proof.
  intros Hc. split.
  - destruct (runSequentialScraping_shape cfg w u st)
      as (results & st' & evs & Hrun & Hts & _).
    by exists results, st'.
  - destruct (runConcurrentScraping_shape cfg w u st Hc)
      as (results & st' & evs & Hrun & Hts & _).
    by exists results, st'.
Qed.

(** X22, at three units run two at a time. *)
Lemma tallies_of_a_run_witness :
  let cfg := three_by_two in
  let w := status_world (NetData "") ApiOther 200 in
  let st := mkSt (fresh_vars cfg) fresh_env in
  0 < maxConcurrent cfg
  /\ (exists results st',
        runSequentialScraping cfg w video st = (Ret results, st') /\ tallies_sound results)
  /\ (exists results st',
        runConcurrentScraping cfg w video st = (Ret results, st') /\ tallies_sound results).
Proof.
  intros cfg w st.
  assert (H : 0 < maxConcurrent cfg) by (simpl; lia).
  split; [exact H|]. exact (tallies_of_a_run cfg w video st H).
Defined.

(** X23 — a worker always posts its result.  A worker thread run to its
    end is heard through [message], never through [error]: what it
    posts carries the worker's own id and a well-formed result, and the
    variables of the thread that created it are as they were. *)
Theorem worker_always_posts cfg w u id st :
  exists r st',
    run_worker cfg w u id st = (Ret (OnMessage id r), st')
    /\ well_formed_result r
    /\ vars st' = vars st.
Proof.
  destruct (run_worker_result cfg w u id st) as (r & st' & evs & Hrun & Hwf & Hv & _).
  by exists r, st'.
Qed.

(** X24 — which dispatcher runs.  In a world whose awaited calls settle
    and throw error objects, the main thread ends normally, and in the
    state its run loop ended in.  With [maxConcurrent] above 1 that is
    [runConcurrentScraping], and it creates the workers 1 to
    [totalRequests], in this order; with [maxConcurrent] 1 or 0 it is
    [runSequentialScraping], and no worker is created at all.  Either
    way the loop has recorded the results of [totalRequests] units,
    every one a result [scrapeWithRetry] resolved with. *)
Theorem main_dispatch cfg w u st :
  exists results rs st' evs,
    main cfg w u st = (Ret tt, st')
    /\ (if (1 <? maxConcurrent cfg)%nat then runConcurrentScraping cfg w u st
        else runSequentialScraping cfg w u st) = (Ret results, st')
    /\ length rs = totalRequests cfg
    /\ Forall (unit_result cfg w u) rs
    /\ tallies_of rs results
    /\ tr st' = tr st ++ evs
    /\ workers evs = if (1 <? maxConcurrent cfg)%nat then seq 1 (totalRequests cfg) else [].
Proof.
  unfold main, try_catch, mbind, M_bind, bind.
  destruct (1 <? maxConcurrent cfg)%nat eqn:E.
  - apply Nat.ltb_lt in E.
    destruct (runConcurrentScraping_spec cfg w u st ltac:(lia))
      as (results & st' & evs & Hrun & _ & _ & Htr & Hw).
    destruct (runConcurrentScraping_units cfg w u st ltac:(lia))
      as (results' & st'' & rs & Hrun' & Hl & Hrs & Ht).
    rewrite Hrun in Hrun'. injection Hrun' as <- <-.
    rewrite Hrun. unfold ret. by exists results, rs, st', evs.
  - destruct (runSequentialScraping_shape cfg w u st)
      as (results & st' & evs & Hrun & _ & Htr & Hw & _).
    destruct (runSequentialScraping_units cfg w u st)
      as (results' & st'' & rs & Hrun' & Hl & Hrs & Ht).
    rewrite Hrun in Hrun'. injection Hrun' as <- <-.
    rewrite Hrun. unfold ret. by exists results, rs, st', evs.
Qed.

(** ** The download, one level down *)

Lemma last_cons {A} (l : list A) : forall a d, List.last (a :: l) d = List.last l a.
Proof.
  induction l as [| b l IH]; intros a d; [done|].
  change (List.last (a :: b :: l) d) with (List.last (b :: l) d).
  by rewrite !IH.
Qed.

(** X25 — redirects are followed.  When [url] is redirected (301 or
    302, with a [Location]) along [hops] and the reply at the last of
    them sends the function nowhere, [fetchFromUrl(url)] makes one
    request to each address in turn, each through the client its own
    address selects ([https] for an address beginning with "https",
    [http] for any other), and settles on the last reply: the chunks
    put together for a status 200, the error of the request if it
    failed, "HTTP <status>" for any other status, and a TypeError for a
    redirect without [Location]. *)
Theorem redirects_are_followed get hops : forall fuel n url,
  Net.redirected get n url hops ->
  let final := List.last hops url in
  let reply := get (n + length hops) (Net.client_of final) final in
  Net.next_hop reply = None ->
  length hops + 1 < fuel ->
  Net.fetchFromUrl get fuel n (Some url)
  = (Net.settle reply, map (fun u => Net.mkRequest (Net.client_of u) u) (url :: hops)).
Proof.
  induction hops as [| next hops IH]; intros fuel n url Hred final reply Hfin Hfuel.
  - destruct fuel as [| [| fuel]]; [simpl in Hfuel; lia ..|].
    subst final reply. simpl in *. rewrite Nat.add_0_r in *.
    destruct (get n _ url) as [e | code loc chunks]; [done|].
    unfold Net.settle. simpl in Hfin.
    destruct ((code =? 301)%Z || (code =? 302)%Z).
    + by destruct loc.
    + by destruct (negb _).
  - destruct fuel as [| fuel]; [simpl in Hfuel; lia|].
    destruct Hred as [(code & chunks & Hget & Hcode) Hred].
    cbn [Net.fetchFromUrl]. rewrite Hget.
    replace ((code =? 301)%Z || (code =? 302)%Z) with true
      by (symmetry; destruct Hcode as [-> | ->]; reflexivity).
    subst final reply. rewrite last_cons in *. simpl length in *.
    replace (n + S (length hops)) with (S n + length hops) in * by lia.
    by rewrite (IH fuel (S n) next Hred Hfin ltac:(lia)).
Qed.

(** X25, at a list address that is redirected once. *)
Lemma redirects_are_followed_witness :
  let url := "http://lists.example/list.txt" in
  let hops := ["https://cdn.example/list.txt"] in
  let final := List.last hops url in
  let reply := one_redirect (0 + length hops) (Net.client_of final) final in
  (Net.redirected one_redirect 0 url hops
   /\ Net.next_hop reply = None
   /\ length hops + 1 < 3)
  /\ Net.fetchFromUrl one_redirect 3 0 (Some url)
     = (Net.settle reply, map (fun u => Net.mkRequest (Net.client_of u) u) (url :: hops)).
Proof.
  intros url hops final reply.
  assert (H1 : Net.redirected one_redirect 0 url hops).
  { split; [| exact I]. exists 301%Z, []. split; [reflexivity | by left]. }
  assert (H2 : Net.next_hop reply = None) by reflexivity.
  assert (H3 : length hops + 1 < 3) by (simpl; lia).
  split; [exact (conj H1 (conj H2 H3))|].
  exact (redirects_are_followed one_redirect hops 3 0 url H1 H2 H3).
Defined.

(** X26 — a redirect loop never settles.  [fetchFromUrl] counts no
    redirects: when every request is answered with a redirect, the
    function has sent as many requests as it was followed for, however
    far that is, and has neither resolved nor rejected. *)
Theorem redirect_loop_never_settles get fuel : forall n url,
  (forall m c u, exists statusCode next chunks,
     get m c u = Net.Response statusCode (Some next) chunks
     /\ ((statusCode = 301)%Z \/ (statusCode = 302)%Z)) ->
  (Net.fetchFromUrl get fuel n (Some url)).1 = Stuck
  /\ length (Net.fetchFromUrl get fuel n (Some url)).2 = fuel.
Proof.
  induction fuel as [| fuel IH]; intros n url Hloop; [done|].
  cbn [Net.fetchFromUrl].
  destruct (Hloop n (Net.client_of url) url) as (code & next & chunks & -> & Hcode).
  replace ((code =? 301)%Z || (code =? 302)%Z) with true
    by (symmetry; destruct Hcode as [-> | ->]; reflexivity).
  destruct (IH (S n) next Hloop) as [H1 H2].
  destruct (Net.fetchFromUrl get fuel (S n) (Some next)) as [o requests].
  simpl in *. by rewrite H1, H2.
Qed.

(** X26, at a server that redirects every address to itself. *)
Lemma redirect_loop_never_settles_witness :
  (forall m c u, exists statusCode next chunks,
     redirect_loop m c u = Net.Response statusCode (Some next) chunks
     /\ ((statusCode = 301)%Z \/ (statusCode = 302)%Z))
  /\ (Net.fetchFromUrl redirect_loop 100 0 (Some "http://lists.example/")).1 = Stuck
  /\ length (Net.fetchFromUrl redirect_loop 100 0 (Some "http://lists.example/")).2 = 100.
Proof.
  assert (H : forall m c u, exists statusCode next chunks,
     redirect_loop m c u = Net.Response statusCode (Some next) chunks
     /\ ((statusCode = 301)%Z \/ (statusCode = 302)%Z)).
  { intros m c u. exists 302%Z, "http://lists.example/", []. split; [reflexivity | by right]. }
  split; [exact H|].
  exact (redirect_loop_never_settles redirect_loop 100 0 "http://lists.example/" H).
Defined.
